(** * MultiAgentOrchestrator: the workflow engine, the agreement validator,
      the tool processor's path sandbox and the provider failover manager.

    The development is a shallow embedding of
      - [core/workflow.py]   (AgreementValidator, Workflow, WorkflowEngine.execute),
      - [core/tools/tool_processor.py] (ToolProcessor._safe_path, the file tags
        and the command tag),
      - [providers/failover_manager.py] (FailoverManager.execute_with_failover),
      - [core/model_tiers.py] (ModelTierManager),
      - [core/nodes/agent_node.py] (AgentNode.execute),
    followed by the properties established about them.

    Conventions.  Python text is modelled as [string] over ASCII; a Python
    exception is a value of [exn]; a call that may raise returns [Res A].
    Dictionaries whose iteration order the code depends on are association
    lists in insertion order; the engine's [completed] set is a [gset string].
    Whatever the code obtains from the outside (node executors, the clock, the
    intervention callback, the file system) is a field of an environment
    record, so every definition can be run on concrete inputs.
    Integers are unbounded; [int()] of a string and the formatting of the
    seconds of a sleep keep the interpreter's limit of 4300 digits.  A float
    is the rational number it stands for: the quotient of two integers is
    rounded to the nearest double, and an integer that has no double does
    not convert. *)

From Stdlib Require Import ZArith QArith String Ascii List Bool Lia DecimalString.
From stdpp Require Import base decidable gmap strings list.

Open Scope Z_scope.

(* ===================================================================== *)
(** ** Python values, exceptions and results *)
(* ===================================================================== *)

Module Py.

(** The exception classes the modelled code can raise. *)
Inductive exn_kind :=
  | TypeError | ValueError | KeyError | UnboundLocalError | ReError
  | ImportError | OverflowError | PlainException.

Record exn := mkExn { exn_kind_of : exn_kind; exn_msg : string }.

(** [str(e)] of an exception is its message. *)
Definition str_of_exn (e : exn) : string := exn_msg e.

Inductive Res (A : Type) :=
  | Ok (a : A)
  | Raise (e : exn).
Arguments Ok {A} a.
Arguments Raise {A} e.

Definition bind {A B} (m : Res A) (f : A -> Res B) : Res B :=
  match m with
  | Ok a => f a
  | Raise e => Raise e
  end.


(** A value of type [Any], as far as [str()] and [int()] look at it.
    [VObj repr] is any other object (a list, a dict, ...) that [int()]
    rejects with a TypeError; [repr] is its [str()]. *)
Inductive value :=
  | VNone
  | VBool (b : bool)
  | VInt (z : Z)
  | VStr (s : string)
  | VObj (repr : string).

End Py.

#[global] Instance res_ret : MRet Py.Res := @Py.Ok.
#[global] Instance res_bind : MBind Py.Res := fun A B f m => Py.bind m f.

(* ===================================================================== *)
(** ** String operations of Python's [str] *)
(* ===================================================================== *)

Module PyStr.

Definition is_upper (c : ascii) : bool :=
  let n := nat_of_ascii c in (65 <=? n)%nat && (n <=? 90)%nat.

Definition lower_char (c : ascii) : ascii :=
  if is_upper c then ascii_of_nat (nat_of_ascii c + 32) else c.

(** [s.lower()] *)
Fixpoint lower (s : string) : string :=
  match s with
  | EmptyString => EmptyString
  | String c s' => String (lower_char c) (lower s')
  end.

(** [s.startswith(p)] *)
Fixpoint startswith (p s : string) : bool :=
  match p, s with
  | EmptyString, _ => true
  | String a p', String b s' => if Ascii.eqb a b then startswith p' s' else false
  | String _ _, EmptyString => false
  end.

(** [sub in s] *)
Fixpoint contains (sub s : string) : bool :=
  startswith sub s ||
  match s with
  | EmptyString => false
  | String _ s' => contains sub s'
  end.

(** [any(p in s for p in patterns)] *)
Definition contains_any (patterns : list string) (s : string) : bool :=
  existsb (fun p => contains p s) patterns.

(** The characters [str.isspace] accepts in ASCII: tab, newline, vertical
    tab, form feed, carriage return, the four separators 28..31, space. *)
Definition is_space (c : ascii) : bool :=
  let n := nat_of_ascii c in
  ((9 <=? n)%nat && (n <=? 13)%nat) || ((28 <=? n)%nat && (n <=? 32)%nat).

(** [s.split()]: the maximal runs of non-space characters.  [cur] is the
    word being read, if any. *)
Fixpoint split_aux (s : string) (cur : option string) : list string :=
  match s with
  | EmptyString =>
      match cur with Some w => [w] | None => [] end
  | String c s' =>
      if is_space c then
        match cur with
        | Some w => w :: split_aux s' None
        | None => split_aux s' None
        end
      else
        split_aux s' (Some (match cur with Some w => w +:+ String c EmptyString
                                         | None => String c EmptyString end))
  end.

Definition split (s : string) : list string := split_aux s None.

(** [s.lstrip()] and [s.strip()] *)
Fixpoint lstrip (s : string) : string :=
  match s with
  | String c s' => if is_space c then lstrip s' else s
  | EmptyString => EmptyString
  end.

Fixpoint rev_string (s acc : string) : string :=
  match s with
  | EmptyString => acc
  | String c s' => rev_string s' (String c acc)
  end.

Definition rstrip (s : string) : string :=
  rev_string (lstrip (rev_string s EmptyString)) EmptyString.

Definition strip (s : string) : string := rstrip (lstrip s).

(** [s.replace(c, "")] for a one-character [c] *)
Fixpoint remove_char (c : ascii) (s : string) : string :=
  match s with
  | EmptyString => EmptyString
  | String a s' => if Ascii.eqb a c then remove_char c s' else String a (remove_char c s')
  end.

Definition is_digit (c : ascii) : bool :=
  let n := nat_of_ascii c in (48 <=? n)%nat && (n <=? 57)%nat.

(** Decimal digits with single underscores allowed between digits, as
    [int()] reads them.  [acc] is the value so far; [after_digit] tells
    whether the previous character was a digit. *)
Fixpoint digits_value (s : string) (acc : Z) (after_digit : bool) : option Z :=
  match s with
  | EmptyString => if after_digit then Some acc else None
  | String c s' =>
      if is_digit c then
        digits_value s' (10 * acc + Z.of_nat (nat_of_ascii c - 48)) true
      else if Ascii.eqb c "_"%char then
        if after_digit then
          match s' with
          | String d _ => if is_digit d then digits_value s' acc false else None
          | EmptyString => None
          end
        else None
      else None
  end.

(** The white space [int()] skips at both ends of its argument, which is
    that of the C function [isspace]: tab, newline, vertical tab, form feed,
    carriage return and space, without the separators 28..31. *)
Definition is_c_space (c : ascii) : bool :=
  let n := nat_of_ascii c in
  ((9 <=? n)%nat && (n <=? 13)%nat) || (n =? 32)%nat.

Fixpoint c_lstrip (s : string) : string :=
  match s with
  | String c s' => if is_c_space c then c_lstrip s' else s
  | EmptyString => EmptyString
  end.

Definition c_strip (s : string) : string :=
  rev_string (c_lstrip (rev_string (c_lstrip s) EmptyString)) EmptyString.

(** The literal [int()] reads in a string: surrounding white space, an
    optional sign, digits. *)
Definition int_of_string (s : string) : option Z :=
  match c_strip s with
  | String "-"%char r => option_map Z.opp (digits_value r 0 false)
  | String "+"%char r => digits_value r 0 false
  | r => digits_value r 0 false
  end.

(** [str(z)] for an integer *)
Definition string_of_Z (z : Z) : string :=
  DecimalString.NilZero.string_of_int (Z.to_int z).

(** [sys.get_int_max_str_digits()], as the interpreter starts: [int()]
    refuses a decimal literal of more digits, and an integer of more
    decimal digits is not formatted. *)
Definition max_str_digits : Z := 4300.

(** The digit characters of a string; signs, underscores and white space
    do not count towards the limit. *)
Fixpoint count_digits (s : string) : Z :=
  match s with
  | EmptyString => 0
  | String c s' => (if is_digit c then 1 else 0) + count_digits s'
  end.

(** The formatting of an integer in an f-string, with the limit. *)
Definition format_int (z : Z) : Py.Res string :=
  if 10 ^ max_str_digits <=? Z.abs z then
    Py.Raise (Py.mkExn Py.ValueError
      ("Exceeds the limit (4300 digits) for integer string conversion; "
       +:+ "use sys.set_int_max_str_digits() to increase the limit"))
  else Py.Ok (string_of_Z z).

(** [str(v)] *)
Definition str (v : Py.value) : string :=
  match v with
  | Py.VNone => "None"
  | Py.VBool true => "True"
  | Py.VBool false => "False"
  | Py.VInt z => string_of_Z z
  | Py.VStr s => s
  | Py.VObj repr => repr
  end.

(** [int(v)] *)
Definition int (v : Py.value) : Py.Res Z :=
  match v with
  | Py.VNone =>
      Py.Raise (Py.mkExn Py.TypeError
        "int() argument must be a string, a bytes-like object or a real number, not 'NoneType'")
  | Py.VBool b => Py.Ok (if b then 1 else 0)
  | Py.VInt z => Py.Ok z
  | Py.VStr s =>
      match int_of_string s with
      | Some z =>
          if max_str_digits <? count_digits s then
            Py.Raise (Py.mkExn Py.ValueError
              ("Exceeds the limit (4300 digits) for integer string conversion: value has "
               +:+ string_of_Z (count_digits s)
               +:+ " digits; use sys.set_int_max_str_digits() to increase the limit"))
          else Py.Ok z
      | None =>
          Py.Raise (Py.mkExn Py.ValueError
            ("invalid literal for int() with base 10: '" +:+ s +:+ "'"))
      end
  | Py.VObj _ =>
      Py.Raise (Py.mkExn Py.TypeError
        "int() argument must be a string, a bytes-like object or a real number")
  end.

(** [sep.join(parts)] *)
Fixpoint join (sep : string) (parts : list string) : string :=
  match parts with
  | [] => EmptyString
  | [p] => p
  | p :: rest => p +:+ sep +:+ join sep rest
  end.

Definition string_eqb (a b : string) : bool := String.eqb a b.

End PyStr.

(* ===================================================================== *)
(** ** Python's [float], as far as the division of integers goes *)
(* ===================================================================== *)

Module PyFloat.

(** [floor(log2(n / d))] for positive [n] and [d]. *)
Definition log2_floor (n d : Z) : Z :=
  let k := Z.log2 n - Z.log2 d in
  if n * 2 ^ Z.max 0 (- k) <? d * 2 ^ Z.max 0 k then k - 1 else k.

(** The integer nearest to [a / b], the even one of two that are equally
    near; [0 <= a] and [0 < b]. *)
Definition round_half_even (a b : Z) : Z :=
  let q := a / b in
  let r := a mod b in
  if 2 * r <? b then q
  else if b <? 2 * r then q + 1
  else if Z.even q then q else q + 1.

(** The double nearest to [n / d], for positive [n] and [d]: an integer
    of at most 53 bits times a power of two that is not below [2^-1074].
    The largest double is not looked at: see [div]. *)
Definition nearest_double (n d : Z) : Q :=
  let e := Z.max (log2_floor n d - 52) (- 1074) in
  let m := round_half_even (n * 2 ^ Z.max 0 (- e)) (d * 2 ^ Z.max 0 e) in
  if 0 <=? e then inject_Z (m * 2 ^ e) else Qmake m (Z.to_pos (2 ^ (- e))).

(** [a / b] for integers [a] and [0 < b]: the quotient is rounded once, to
    the nearest double.  A quotient beyond the largest double raises an
    OverflowError in Python; that takes [|a|] above [10^308] and is not
    modelled. *)
Definition div (a b : Z) : Q :=
  match a with
  | 0 => 0%Q
  | Zpos _ => nearest_double a b
  | Zneg _ => Qopp (nearest_double (- a) b)
  end.

End PyFloat.

(* ===================================================================== *)
(** ** The fragment of Python's [re] that the modelled code uses *)
(* ===================================================================== *)

(** A backtracking matcher with Python's priorities: a greedy repetition
    tries the longest run first, a lazy one the shortest, an optional part is
    tried before it is skipped.  Every repetition in the patterns of the
    modelled code is over a single character class, which is what the syntax
    below offers. *)
Module Re.

Inductive cls :=
  | Dot (dotall : bool)   (* [.], with or without re.DOTALL *)
  | Space                 (* [\s] *)
  | Word                  (* [\w] *)
  | Digit                 (* [\d] *)
  | Quote.                (* the class of the two quote characters *)

Definition is_alnum (a : ascii) : bool :=
  let n := nat_of_ascii a in
  PyStr.is_digit a || ((65 <=? n)%nat && (n <=? 90)%nat) || ((97 <=? n)%nat && (n <=? 122)%nat).

Definition cls_match (c : cls) (a : ascii) : bool :=
  match c with
  | Dot dotall => dotall || negb (Ascii.eqb a "010"%char)
  | Space => PyStr.is_space a
  | Word => is_alnum a || Ascii.eqb a "_"%char
  | Digit => PyStr.is_digit a
  | Quote => Ascii.eqb a "034"%char || Ascii.eqb a "'"%char
  end.

Inductive regex :=
  | Lit (l : string)            (* literal text *)
  | LitCI (l : string)          (* literal text under re.IGNORECASE *)
  | Class (c : cls)             (* one character *)
  | Star (c : cls)              (* c*  *)
  | Plus (c : cls)              (* c+  *)
  | OptChar (a : ascii)         (* a?  *)
  | Group (c : cls)             (* (c*?), capturing *)
  | Opt (r : regex)             (* (?:r)? *)
  | Seq (r1 r2 : regex)
  | End.                        (* $ *)

Fixpoint seq (rs : list regex) : regex :=
  match rs with
  | [] => Lit EmptyString
  | [r] => r
  | r :: rest => Seq r (seq rest)
  end.

Fixpoint ngroups (r : regex) : nat :=
  match r with
  | Group _ => 1
  | Opt r' => ngroups r'
  | Seq r1 r2 => ngroups r1 + ngroups r2
  | _ => 0
  end.

Fixpoint strip_prefix (ci : bool) (p s : string) : option string :=
  match p, s with
  | EmptyString, _ => Some s
  | String a p', String b s' =>
      if Ascii.eqb (if ci then PyStr.lower_char a else a) (if ci then PyStr.lower_char b else b)
      then strip_prefix ci p' s' else None
  | String _ _, EmptyString => None
  end.

(** Captured groups, in the order of their opening parentheses; [None] for a
    group that took no part in the match. *)
Definition caps := list (option string).

Section Matcher.
Context {A : Type}.

Fixpoint lazy_run (p : ascii -> bool) (s acc : string)
         (k : string -> string -> option A) : option A :=
  match k acc s with
  | Some r => Some r
  | None =>
      match s with
      | String a s' =>
          if p a then lazy_run p s' (acc +:+ String a EmptyString) k else None
      | EmptyString => None
      end
  end.

Fixpoint greedy_run (p : ascii -> bool) (s : string) (k : string -> option A) : option A :=
  match s with
  | String a s' =>
      if p a then
        match greedy_run p s' k with
        | Some r => Some r
        | None => k s
        end
      else k s
  | EmptyString => k s
  end.

Fixpoint run (r : regex) (s : string) (cs : caps)
         (k : string -> caps -> option A) : option A :=
  match r with
  | Lit l =>
      match strip_prefix false l s with Some s' => k s' cs | None => None end
  | LitCI l =>
      match strip_prefix true l s with Some s' => k s' cs | None => None end
  | Class c =>
      match s with
      | String a s' => if cls_match c a then k s' cs else None
      | EmptyString => None
      end
  | Star c => greedy_run (cls_match c) s (fun s' => k s' cs)
  | Plus c =>
      match s with
      | String a s' =>
          if cls_match c a then greedy_run (cls_match c) s' (fun s' => k s' cs) else None
      | EmptyString => None
      end
  | OptChar a =>
      match s with
      | String b s' =>
          if Ascii.eqb a b then
            match k s' cs with Some x => Some x | None => k s cs end
          else k s cs
      | EmptyString => k s cs
      end
  | Group c => lazy_run (cls_match c) s EmptyString (fun g s' => k s' (cs ++ [Some g]))
  | Opt r' =>
      match run r' s cs k with
      | Some x => Some x
      | None => k s (cs ++ repeat None (ngroups r'))
      end
  | Seq r1 r2 => run r1 s cs (fun s' cs' => run r2 s' cs' k)
  | End =>
      match s with
      | EmptyString => k s cs
      | String "010"%char EmptyString => k s cs
      | _ => None
      end
  end.
End Matcher.

(** [re.match(r, s)]: the rest of [s] after the match, and the groups. *)
Definition match_here (r : regex) (s : string) : option (string * caps) :=
  run r s [] (fun s' cs => Some (s', cs)).

(** [re.finditer(r, s)]: the groups of the successive non-overlapping
    matches, scanning from the left.  [skip] characters are still covered by
    the previous match. *)
Fixpoint finditer_from (r : regex) (s : string) (skip : nat) : list caps :=
  match skip with
  | S n =>
      match s with
      | String _ s' => finditer_from r s' n
      | EmptyString => []
      end
  | O =>
      match match_here r s with
      | Some (rest, cs) =>
          cs :: match s with
                | String _ s' =>
                    finditer_from r s' (Nat.pred (String.length s - String.length rest))
                | EmptyString => []
                end
      | None =>
          match s with
          | String _ s' => finditer_from r s' 0
          | EmptyString => []
          end
      end
  end.

Definition finditer (r : regex) (s : string) : list caps := finditer_from r s 0.

(** [re.sub(r, '', s)] *)
Fixpoint sub_from (r : regex) (s : string) (skip : nat) : string :=
  match skip with
  | S n =>
      match s with
      | String _ s' => sub_from r s' n
      | EmptyString => EmptyString
      end
  | O =>
      match match_here r s with
      | Some (rest, _) =>
          match s with
          | String a s' =>
              match (String.length s - String.length rest)%nat with
              | O => String a (sub_from r s' 0)
              | S n => sub_from r s' n
              end
          | EmptyString => EmptyString
          end
      | None =>
          match s with
          | String a s' => String a (sub_from r s' 0)
          | EmptyString => EmptyString
          end
      end
  end.

Definition sub (r : regex) (s : string) : string := sub_from r s 0.

(** [re.sub('^' + r, '', s)]: only a match at the very start is removed. *)
Definition sub_at_start (r : regex) (s : string) : string :=
  match match_here r s with
  | Some (rest, _) => rest
  | None => s
  end.

(** The text of group [i] (counted from 0 here), or [None]. *)
Definition group (cs : caps) (i : nat) : option string :=
  match nth_error cs i with
  | Some g => g
  | None => None
  end.

End Re.

(* ===================================================================== *)
(** ** Insertion-ordered dictionaries with string keys *)
(* ===================================================================== *)

Module Dict.

Definition t (V : Type) := list (string * V).

Fixpoint get {V} (k : string) (d : t V) : option V :=
  match d with
  | [] => None
  | (k', v) :: d' => if String.eqb k k' then Some v else get k d'
  end.

(** [d[k] = v]: an existing key keeps its position. *)
Fixpoint set {V} (k : string) (v : V) (d : t V) : t V :=
  match d with
  | [] => [(k, v)]
  | (k', v') :: d' =>
      if String.eqb k k' then (k, v) :: d' else (k', v') :: set k v d'
  end.

Definition mem {V} (k : string) (d : t V) : bool :=
  match get k d with Some _ => true | None => false end.

Definition keys {V} (d : t V) : list string := map fst d.

End Dict.

(** [x in l] for a list of strings *)
Definition str_in (x : string) (l : list string) : bool :=
  existsb (String.eqb x) l.

(* ===================================================================== *)
(** ** [AgreementValidator] (core/workflow.py) *)
(* ===================================================================== *)

Module Validator.

(** [class AgreementRule]; the defaults are [type = "contains"],
    [value = None], [required = True]. *)
Record AgreementRule := mkRule {
  name : string;
  type : string;
  value : Py.value;
  required : bool
}.

(** What the rule kinds [regex], [json] and [schema] obtain from the
    modules [re], [json] and [jsonschema]. *)
Record Libs := mkLibs {
  (* [bool(re.search(pattern, output))]; raises [re.error] on a bad pattern *)
  re_search : string -> string -> Py.Res bool;
  (* the body of the [json] branch, which catches everything itself *)
  json_rule : string -> bool;
  (* the [schema] branch: [import jsonschema] stands before its [try] *)
  schema_rule : string -> Py.value -> Py.Res bool
}.

Record RuleResult := mkRuleResult {
  rr_passed : bool;
  rr_type : string;
  rr_required : bool
}.

Record Validation := mkValidation {
  passed : bool;
  results : Dict.t RuleResult;
  failed_required : list string
}.

Section WithLibs.
Variable libs : Libs.

(** [AgreementValidator._check_rule] *)
Definition _check_rule (output : string) (rule : AgreementRule) : Py.Res bool :=
  let output_lower := PyStr.lower output in
  if String.eqb (type rule) "contains" then
    Py.Ok (PyStr.contains (PyStr.lower (PyStr.str (value rule))) output_lower)
  else if String.eqb (type rule) "not_contains" then
    Py.Ok (negb (PyStr.contains (PyStr.lower (PyStr.str (value rule))) output_lower))
  else if String.eqb (type rule) "min_words" then
    n ← PyStr.int (value rule);
    Py.Ok (n <=? Z.of_nat (length (PyStr.split output)))
  else if String.eqb (type rule) "max_words" then
    n ← PyStr.int (value rule);
    Py.Ok (Z.of_nat (length (PyStr.split output)) <=? n)
  else if String.eqb (type rule) "regex" then
    re_search libs (PyStr.str (value rule)) output
  else if String.eqb (type rule) "json" then
    Py.Ok (json_rule libs output)
  else if String.eqb (type rule) "schema" then
    schema_rule libs output (value rule)
  else
    Py.Ok true.

(** The body of the [for rule in rules] loop of [validate], on the pair
    ([results], [failed_required]). *)
Definition validate_step (output : string)
           (acc : Dict.t RuleResult * list string) (rule : AgreementRule)
  : Py.Res (Dict.t RuleResult * list string) :=
  p ← _check_rule output rule;
  let results' :=
    Dict.set (name rule) (mkRuleResult p (type rule) (required rule)) (fst acc) in
  let failed' :=
    if negb p && required rule then snd acc ++ [name rule] else snd acc in
  Py.Ok (results', failed').

Fixpoint validate_loop (output : string) (rules : list AgreementRule)
         (acc : Dict.t RuleResult * list string)
  : Py.Res (Dict.t RuleResult * list string) :=
  match rules with
  | [] => Py.Ok acc
  | rule :: rest =>
      acc' ← validate_step output acc rule;
      validate_loop output rest acc'
  end.

(** [AgreementValidator.validate] *)
Definition validate (output : string) (rules : list AgreementRule) : Py.Res Validation :=
  acc ← validate_loop output rules ([], []);
  Py.Ok (mkValidation (match snd acc with [] => true | _ => false end)
                      (fst acc) (snd acc)).
End WithLibs.


End Validator.

(* ===================================================================== *)
(** ** [os.path] on POSIX *)
(* ===================================================================== *)

Module PosixPath.

(** [s.split('/')]: the components between slashes, empty ones included.
    [cur] is the component being read. *)
Fixpoint split_slash (s : string) (cur : string) : list string :=
  match s with
  | EmptyString => [cur]
  | String c s' =>
      if Ascii.eqb c "/"%char then cur :: split_slash s' EmptyString
      else split_slash s' (cur +:+ String c EmptyString)
  end.

Fixpoint endswith_slash (s : string) : bool :=
  match s with
  | EmptyString => false
  | String c EmptyString => Ascii.eqb c "/"%char
  | String _ s' => endswith_slash s'
  end.

(** [posixpath.join(a, b)] *)
Definition join (a b : string) : string :=
  if PyStr.startswith "/" b then b
  else if String.eqb a EmptyString || endswith_slash a then a +:+ b
  else a +:+ "/" +:+ b.

(** The loop of [normpath] over the components; [new_comps] is kept in
    reverse, its head being [new_comps[-1]]. *)
Fixpoint norm_comps (initial_slashes : nat) (comps : list string)
         (new_comps : list string) : list string :=
  match comps with
  | [] => rev new_comps
  | comp :: rest =>
      if String.eqb comp EmptyString || String.eqb comp "." then
        norm_comps initial_slashes rest new_comps
      else if negb (String.eqb comp "..")
              || (Nat.eqb initial_slashes 0 && match new_comps with [] => true | _ => false end)
              || match new_comps with top :: _ => String.eqb top ".." | [] => false end
      then norm_comps initial_slashes rest (comp :: new_comps)
      else
        match new_comps with
        | _ :: popped => norm_comps initial_slashes rest popped
        | [] => norm_comps initial_slashes rest new_comps
        end
  end.

(** [posixpath.normpath] *)
Definition normpath (path : string) : string :=
  if String.eqb path EmptyString then "."
  else
    let initial_slashes :=
      if PyStr.startswith "/" path then
        if PyStr.startswith "//" path && negb (PyStr.startswith "///" path) then 2%nat
        else 1%nat
      else 0%nat in
    let comps := norm_comps initial_slashes (split_slash path EmptyString) [] in
    let joined := PyStr.join "/" comps in
    let path' :=
      match initial_slashes with
      | O => joined
      | S O => "/" +:+ joined
      | _ => "//" +:+ joined
      end in
    if String.eqb path' EmptyString then "." else path'.

(** [posixpath.dirname] *)
Fixpoint dirname_aux (s : string) (upto_slash cur : string) : string :=
  match s with
  | EmptyString => upto_slash
  | String c s' =>
      let cur' := cur +:+ String c EmptyString in
      if Ascii.eqb c "/"%char then dirname_aux s' cur' cur' else dirname_aux s' upto_slash cur'
  end.

Fixpoint all_slashes (s : string) : bool :=
  match s with
  | EmptyString => true
  | String c s' => Ascii.eqb c "/"%char && all_slashes s'
  end.

Fixpoint rstrip_slash_rev (r : string) : string :=
  match r with
  | String c r' => if Ascii.eqb c "/"%char then rstrip_slash_rev r' else r
  | EmptyString => EmptyString
  end.

Definition dirname (p : string) : string :=
  let head := dirname_aux p EmptyString EmptyString in
  if String.eqb head EmptyString || all_slashes head then head
  else PyStr.rev_string (rstrip_slash_rev (PyStr.rev_string head EmptyString)) EmptyString.

End PosixPath.

(* ===================================================================== *)
(** ** [ToolProcessor] (core/tools/tool_processor.py): the file tags *)
(* ===================================================================== *)

Module Tools.

(** The calls the file tags issue to the operating system. *)
Inductive FsOp :=
  | Makedirs (p : string)
  | OpenWrite (p content : string)
  | OpenAppend (p content : string)
  | OpenRead (p : string)
  | Listdir (p : string)
  | Unlink (p : string)
  | Rmtree (p : string)
  | Copytree (src dst : string)
  | Copy2 (src dst : string)
  | Move (src dst : string).

(** The file system as the processor sees it: the three predicates it asks,
    and whether a call fails (with the text of its exception). *)
Record Fs := mkFs {
  fs_exists : string -> bool;
  fs_isfile : string -> bool;
  fs_isdir : string -> bool;
  fs_fails : FsOp -> option string
}.

(** [self.results], restricted to the lists the file tags touch, with the
    calls issued so far and the lines logged through the engine. *)
Record State := mkState {
  files_created : list string;
  files_deleted : list string;
  dirs_created : list string;
  errors : list string;
  ops : list FsOp;
  logs : list string
}.

Definition init_state : State := mkState [] [] [] [] [] [].

Definition log (msg : string) (st : State) : State :=
  mkState (files_created st) (files_deleted st) (dirs_created st) (errors st)
          (ops st) (logs st ++ [msg]).

Definition add_error (e : string) (st : State) : State :=
  mkState (files_created st) (files_deleted st) (dirs_created st) (errors st ++ [e])
          (ops st) (logs st).

Definition add_created (p : string) (st : State) : State :=
  mkState (files_created st ++ [p]) (files_deleted st) (dirs_created st) (errors st)
          (ops st) (logs st).

Definition add_deleted (p : string) (st : State) : State :=
  mkState (files_created st) (files_deleted st ++ [p]) (dirs_created st) (errors st)
          (ops st) (logs st).

Definition add_dir (p : string) (st : State) : State :=
  mkState (files_created st) (files_deleted st) (dirs_created st ++ [p]) (errors st)
          (ops st) (logs st).

Definition issue (op : FsOp) (st : State) : State :=
  mkState (files_created st) (files_deleted st) (dirs_created st) (errors st)
          (ops st ++ [op]) (logs st).

Section WithBase.
(** [self.base_dir], already resolved ([base_dir or os.getcwd()]). *)
Variable base_dir : string.
Variable fs : Fs.

(** [ToolProcessor._safe_path] *)
Definition _safe_path (path : string) : option string :=
  let target := PosixPath.normpath (PosixPath.join base_dir path) in
  if negb (PyStr.startswith base_dir target) then None else Some target.

(** The calls of one [try] block, issued in order until one fails; the
    result is the exception text of the failing call, if any. *)
Fixpoint attempt (calls : list FsOp) (st : State) : State * option string :=
  match calls with
  | [] => (st, None)
  | op :: rest =>
      let st' := issue op st in
      match fs_fails fs op with
      | Some e => (st', Some e)
      | None => attempt rest st'
      end
  end.

(** [_clean_content] *)
Definition _clean_content (content : string) : string :=
  let c1 := PyStr.strip content in
  let c2 := Re.sub_at_start
              (Re.seq [Re.Lit "```"; Re.Star Re.Word; Re.Star Re.Space; Re.OptChar "010"%char]) c1 in
  let c3 := Re.sub (Re.seq [Re.OptChar "010"%char; Re.Lit "```"; Re.Star Re.Space; Re.End]) c2 in
  PyStr.strip c3.

(** The body of the loop of [_process_write_file] for one match. *)
Definition write_file (file_path raw : string) (st : State) : State :=
  let content := _clean_content raw in
  match _safe_path file_path with
  | None =>
      add_error ("Blocked write: " +:+ file_path)
                (log ("Security: blocked write to " +:+ file_path) st)
  | Some target =>
      if String.eqb content EmptyString then
        log ("Skipped empty file: " +:+ file_path) st
      else
        match attempt [Makedirs (PosixPath.dirname target); OpenWrite target content] st with
        | (st', None) => add_created file_path (log ("Created/Updated: " +:+ file_path) st')
        | (st', Some e) => add_error e (log ("Write Error: " +:+ e) st')
        end
  end.

Definition read_file (file_path : string) (st : State) : State :=
  match _safe_path file_path with
  | None => log ("Security: blocked read of " +:+ file_path) st
  | Some target =>
      if fs_exists fs target then
        match attempt [OpenRead target] st with
        | (st', None) => log ("Read: " +:+ file_path) st'
        | (st', Some e) => log ("Read Error: " +:+ e) st'
        end
      else log ("File not found: " +:+ file_path) st
  end.

Definition list_dir (dir_path : string) (st : State) : State :=
  match _safe_path dir_path with
  | None => log ("Security: blocked list of " +:+ dir_path) st
  | Some target =>
      if fs_exists fs target && fs_isdir fs target then
        match attempt [Listdir target] st with
        | (st', None) => log ("Listed: " +:+ dir_path) st'
        | (st', Some e) => log ("List Error: " +:+ e) st'
        end
      else log ("Directory not found: " +:+ dir_path) st
  end.

Definition create_dir (dir_path : string) (st : State) : State :=
  match _safe_path dir_path with
  | None => log ("Security: blocked mkdir " +:+ dir_path) st
  | Some target =>
      match attempt [Makedirs target] st with
      | (st', None) => add_dir dir_path (log ("Created directory: " +:+ dir_path) st')
      | (st', Some e) => log ("Mkdir Error: " +:+ e) st'
      end
  end.

Definition delete_file (file_path : string) (st : State) : State :=
  match _safe_path file_path with
  | None => log ("Security: blocked delete " +:+ file_path) st
  | Some target =>
      if fs_exists fs target && fs_isfile fs target then
        match attempt [Unlink target] st with
        | (st', None) => add_deleted file_path (log ("Deleted file: " +:+ file_path) st')
        | (st', Some e) => log ("Delete Error: " +:+ e) st'
        end
      else st
  end.

Definition delete_dir (dir_path : string) (st : State) : State :=
  match _safe_path dir_path with
  | None => log ("Security: blocked rmdir " +:+ dir_path) st
  | Some target =>
      if fs_exists fs target && fs_isdir fs target then
        match attempt [Rmtree target] st with
        | (st', None) => log ("Deleted directory: " +:+ dir_path) st'
        | (st', Some e) => log ("Rmdir Error: " +:+ e) st'
        end
      else st
  end.

Definition append_file (file_path raw : string) (st : State) : State :=
  let content := PyStr.strip raw in
  match _safe_path file_path with
  | None => log ("Security: blocked append to " +:+ file_path) st
  | Some target =>
      match attempt [Makedirs (PosixPath.dirname target);
                     OpenAppend target (content +:+ String "010"%char EmptyString)] st with
      | (st', None) => log ("Appended to: " +:+ file_path) st'
      | (st', Some e) => log ("Append Error: " +:+ e) st'
      end
  end.

Definition copy (src dst : string) (st : State) : State :=
  match _safe_path src, _safe_path dst with
  | Some src_path, Some dst_path =>
      match attempt [Makedirs (PosixPath.dirname dst_path);
                     if fs_isdir fs src_path then Copytree src_path dst_path
                     else Copy2 src_path dst_path] st with
      | (st', None) => log ("Copied: " +:+ src +:+ " -> " +:+ dst) st'
      | (st', Some e) => log ("Copy Error: " +:+ e) st'
      end
  | _, _ => log "Security: blocked copy" st
  end.

Definition move (src dst : string) (st : State) : State :=
  match _safe_path src, _safe_path dst with
  | Some src_path, Some dst_path =>
      match attempt [Makedirs (PosixPath.dirname dst_path); Move src_path dst_path] st with
      | (st', None) => log ("Moved: " +:+ src +:+ " -> " +:+ dst) st'
      | (st', Some e) => log ("Move Error: " +:+ e) st'
      end
  | _, _ => log "Security: blocked move" st
  end.

(** A file tag found in the output, with its arguments. *)
Inductive FileTag :=
  | TWriteFile (path content : string)
  | TReadFile (path : string)
  | TListDir (path : string)
  | TCreateDir (path : string)
  | TDeleteFile (path : string)
  | TDeleteDir (path : string)
  | TAppendFile (path content : string)
  | TCopy (path to : string)
  | TMove (path to : string).

Definition run_tag (t : FileTag) (st : State) : State :=
  match t with
  | TWriteFile p c => write_file p c st
  | TReadFile p => read_file p st
  | TListDir p => list_dir p st
  | TCreateDir p => create_dir p st
  | TDeleteFile p => delete_file p st
  | TDeleteDir p => delete_dir p st
  | TAppendFile p c => append_file p c st
  | TCopy a b => copy a b st
  | TMove a b => move a b st
  end.

(** The patterns of the handlers. *)
Definition re_path_body (tag : string) : Re.regex :=
  Re.seq [Re.Lit ("<" +:+ tag); Re.Plus Re.Space; Re.Lit "path="; Re.Class Re.Quote;
          Re.Group (Re.Dot true); Re.Class Re.Quote; Re.Lit ">";
          Re.Group (Re.Dot true); Re.Lit ("</" +:+ tag +:+ ">")].

Definition re_path_only (tag : string) : Re.regex :=
  Re.seq [Re.Lit ("<" +:+ tag); Re.Plus Re.Space; Re.Lit "path="; Re.Class Re.Quote;
          Re.Group (Re.Dot false); Re.Class Re.Quote; Re.Star Re.Space; Re.Lit "/>"].

Definition re_path_to (tag : string) : Re.regex :=
  Re.seq [Re.Lit ("<" +:+ tag); Re.Plus Re.Space; Re.Lit "path="; Re.Class Re.Quote;
          Re.Group (Re.Dot false); Re.Class Re.Quote; Re.Plus Re.Space; Re.Lit "to=";
          Re.Class Re.Quote; Re.Group (Re.Dot false); Re.Class Re.Quote;
          Re.Star Re.Space; Re.Lit "/>"].

Definition g (cs : Re.caps) (i : nat) : string := default EmptyString (Re.group cs i).

(** The tags of the output in the order in which [process_all] handles
    them: all writes, then reads, listings, directory creations, file
    deletions, directory deletions, appends, copies and moves. *)
Definition file_tags (output : string) : list FileTag :=
  map (fun cs => TWriteFile (g cs 0) (g cs 1)) (Re.finditer (re_path_body "write_file") output)
  ++ map (fun cs => TReadFile (g cs 0)) (Re.finditer (re_path_only "read_file") output)
  ++ map (fun cs => TListDir (g cs 0)) (Re.finditer (re_path_only "list_dir") output)
  ++ map (fun cs => TCreateDir (g cs 0)) (Re.finditer (re_path_only "create_dir") output)
  ++ map (fun cs => TDeleteFile (g cs 0)) (Re.finditer (re_path_only "delete_file") output)
  ++ map (fun cs => TDeleteDir (g cs 0)) (Re.finditer (re_path_only "delete_dir") output)
  ++ map (fun cs => TAppendFile (g cs 0) (g cs 1)) (Re.finditer (re_path_body "append_file") output)
  ++ map (fun cs => TCopy (g cs 0) (g cs 1)) (Re.finditer (re_path_to "copy") output)
  ++ map (fun cs => TMove (g cs 0) (g cs 1)) (Re.finditer (re_path_to "move") output).

(** [process_all], as far as the file tags go. *)
Definition process_all (output : string) : State :=
  fold_left (fun st t => run_tag t st) (file_tags output) init_state.

End WithBase.

(** The path arguments a call carries. *)
Definition op_paths (op : FsOp) : list string :=
  match op with
  | Makedirs p | OpenRead p | Listdir p | Unlink p | Rmtree p => [p]
  | OpenWrite p _ | OpenAppend p _ => [p]
  | Copytree a b | Copy2 a b | Move a b => [a; b]
  end.

(** The calls that change the file system at their target. *)
Definition mutating_target (op : FsOp) : list string :=
  match op with
  | OpenWrite p _ | OpenAppend p _ | Unlink p | Rmtree p => [p]
  | Copytree _ b | Copy2 _ b => [b]
  | Move a b => [a; b]
  | Makedirs _ | OpenRead _ | Listdir _ => []
  end.

End Tools.

(* ===================================================================== *)
(** ** [FailoverManager] (providers/failover_manager.py) *)
(* ===================================================================== *)

Module Failover.

Inductive FailoverReason :=
  | RATE_LIMIT | TIMEOUT | API_ERROR | AUTHENTICATION
  | QUOTA_EXCEEDED | MODEL_UNAVAILABLE | UNKNOWN.

(** [reason.value] *)
Definition reason_value (r : FailoverReason) : string :=
  match r with
  | RATE_LIMIT => "rate_limit"
  | TIMEOUT => "timeout"
  | API_ERROR => "api_error"
  | AUTHENTICATION => "authentication"
  | QUOTA_EXCEEDED => "quota_exceeded"
  | MODEL_UNAVAILABLE => "model_unavailable"
  | UNKNOWN => "unknown"
  end.

(** [cooldown_map] of [record_failure], in seconds *)
Definition cooldown_map (r : FailoverReason) : Q :=
  match r with
  | RATE_LIMIT => inject_Z 300
  | QUOTA_EXCEEDED => inject_Z 3600
  | TIMEOUT => inject_Z 60
  | API_ERROR => inject_Z 120
  | AUTHENTICATION => inject_Z 0
  | MODEL_UNAVAILABLE => inject_Z 600
  | UNKNOWN => inject_Z 60
  end.

(** [class ProviderHealth]; times are seconds, as rationals. *)
Record ProviderHealth := mkHealth {
  provider_id : string;
  provider_type : string;
  model : string;
  success_count : Z;
  failure_count : Z;
  last_success : Q;
  last_failure : Q;
  cooldown_until : Q;
  priority : Z;
  avg_response_time : Q
}.

Definition new_health (pid ptype m : string) (prio : Z) : ProviderHealth :=
  mkHealth pid ptype m 0 0 0 0 0 prio 0.

(** [class FailoverConfig] *)
Record FailoverConfig := mkConfig {
  enabled : bool;
  max_retries : Z;
  retry_delay : Q;
  model_groups : list (string * list string)
}.

Definition default_model_groups : list (string * list string) :=
  [ ("high_capability",
     ["opus"; "claude-opus"; "gpt-4"; "gemini-1.5-pro"; "llama-3.3-70b-versatile"; "deepseek-r1"]);
    ("balanced",
     ["sonnet"; "claude-sonnet"; "gpt-4-turbo"; "gemini-1.5-flash"; "llama3-8b-8192";
      "mistral"; "llama3"]);
    ("fast",
     ["haiku"; "claude-haiku"; "gpt-3.5-turbo"; "gemini-2.0-flash"; "phi3";
      "mixtral-8x7b-32768"]) ]%string.

Definition default_config : FailoverConfig := mkConfig true 3 1 default_model_groups.

(** What a call of the task does: it returns a value or raises. *)
Inductive TaskOutcome :=
  | TReturn (v : Py.value)
  | TRaise (msg : string).

(** The surroundings of the manager.  Every interaction with them (a reading
    of the clock, a call of the task, a question to the tier manager) takes
    the number of interactions so far, so that the answers may change over
    time. *)
Record World := mkWorld {
  clock : nat -> Q;                                   (* [time.time()] *)
  task : nat -> string -> string -> TaskOutcome;      (* [await task(p, m)] *)
  tier_enabled : bool;                                (* [TIER_ENABLED] *)
  (* [tier_manager.get_best_available_model(category, provider_id)] *)
  tier_best : nat -> string -> string -> option string
}.

(** What an observer sees of a run. *)
Inductive Event :=
  | EvTask (p m : string) (o : TaskOutcome)   (* a call of the task and what it did *)
  | EvSleep (d : Q)
  | EvOnFailover (old_p old_m new_p new_m reason : string)
  | EvLimitHit (p : string).

Record State := mkState {
  providers : Dict.t ProviderHealth;
  fallback_chains : Dict.t (list (string * string));
  step : nat;
  trace : list Event
}.

Definition key_of (p m : string) : string := p +:+ "/" +:+ m.

Definition tick (st : State) : State :=
  mkState (providers st) (fallback_chains st) (S (step st)) (trace st).

Definition emit (e : Event) (st : State) : State :=
  mkState (providers st) (fallback_chains st) (step st) (trace st ++ [e]).

Definition set_providers (ps : Dict.t ProviderHealth) (st : State) : State :=
  mkState ps (fallback_chains st) (step st) (trace st).

(** [register_provider] *)
Definition register_provider (pid ptype : string) (models : list string) (prio : Z)
           (st : State) : State :=
  fold_left (fun s m => set_providers (Dict.set (key_of pid m) (new_health pid ptype m prio) (providers s)) s)
            models st.

(** [set_fallback_chain] *)
Definition set_fallback_chain (pid m : string) (fallbacks : list (string * string))
           (st : State) : State :=
  mkState (providers st) (Dict.set (key_of pid m) fallbacks (fallback_chains st))
          (step st) (trace st).

Section WithWorld.
Variable w : World.
Variable config : FailoverConfig.

(** [time.time()] *)
Definition now (st : State) : Q * State := (clock w (step st), tick st).

(** [ProviderHealth.is_available] *)
Definition is_available (h : ProviderHealth) (st : State) : bool * State :=
  let '(t, st') := now st in (negb (Qle_bool t (cooldown_until h)), st').

(** [ProviderHealth.success_rate]; the quotient is a float. *)
Definition success_rate (h : ProviderHealth) : Q :=
  let total := success_count h + failure_count h in
  if 0 <? total then PyFloat.div (success_count h) total else 1%Q.

(** [ProviderHealth.record_success] *)
Definition record_success (response_time : Q) (h : ProviderHealth) (st : State)
  : ProviderHealth * State :=
  let '(t, st') := now st in
  (mkHealth (provider_id h) (provider_type h) (model h)
            (success_count h + 1) (failure_count h) t (last_failure h)
            (cooldown_until h) (priority h)
            (if Qeq_bool (avg_response_time h) 0 then response_time
             else (avg_response_time h * (9 # 10) + response_time * (1 # 10))%Q),
   st').

(** [ProviderHealth.record_failure] *)
Definition record_failure (reason : FailoverReason) (h : ProviderHealth) (st : State)
  : ProviderHealth * State :=
  let '(t1, st1) := now st in
  let '(t2, st2) := now st1 in
  (mkHealth (provider_id h) (provider_type h) (model h)
            (success_count h) (failure_count h + 1) (last_success h) t1
            (t2 + cooldown_map reason)%Q (priority h) (avg_response_time h),
   st2).

(** [detect_failure_reason] *)
Definition detect_failure_reason (error : string) : FailoverReason :=
  let error_lower := PyStr.lower error in
  if PyStr.contains_any ["rate limit"; "too many requests"; "429"; "throttl"]%string error_lower
  then RATE_LIMIT
  else if PyStr.contains_any ["timeout"; "timed out"]%string error_lower then TIMEOUT
  else if PyStr.contains_any ["quota"; "exceeded"; "limit exceeded"]%string error_lower
  then QUOTA_EXCEEDED
  else if PyStr.contains_any ["auth"; "unauthorized"; "401"; "403"; "api key"]%string error_lower
  then AUTHENTICATION
  else if PyStr.contains_any ["not found"; "404"; "unavailable"; "does not exist"]%string error_lower
  then MODEL_UNAVAILABLE
  else if PyStr.contains_any ["error"; "500"; "502"; "503"]%string error_lower then API_ERROR
  else UNKNOWN.

(** The entries of [self.providers] other than [key] that are available
    and pass [keep], in the order of the dictionary. *)
Fixpoint collect (key : string) (keep : ProviderHealth -> bool)
         (entries : list (string * ProviderHealth)) (st : State)
  : list (string * string) * State :=
  match entries with
  | [] => ([], st)
  | (pkey, health) :: rest =>
      if String.eqb pkey key then collect key keep rest st
      else
        let '(avail, st1) := is_available health st in
        if negb avail then collect key keep rest st1
        else if keep health then
          let '(more, st2) := collect key keep rest st1 in
          ((provider_id health, model health) :: more, st2)
        else collect key keep rest st1
  end.

(** [list.sort(key=...)] is stable: an element goes before the first one
    of the later elements whose key is not smaller. *)
Fixpoint insert_by {A} (le : A -> A -> bool) (x : A) (l : list A) : list A :=
  match l with
  | [] => [x]
  | y :: l' => if le x y then x :: l else y :: insert_by le x l'
  end.

Definition sort_by {A} (le : A -> A -> bool) (l : list A) : list A :=
  fold_right (insert_by le) [] l.

Definition health_of (st : State) (c : string * string) : ProviderHealth :=
  default (new_health EmptyString EmptyString EmptyString 0)
          (Dict.get (key_of (fst c) (snd c)) (providers st)).

(** the order of the key [(priority, -success_rate)] *)
Definition le_priority_rate (st : State) (a b : string * string) : bool :=
  let ha := health_of st a in
  let hb := health_of st b in
  (priority ha <? priority hb)
  || ((priority ha =? priority hb) && Qle_bool (success_rate hb) (success_rate ha)).

Definition le_priority (st : State) (a b : string * string) : bool :=
  priority (health_of st a) <=? priority (health_of st b).

(** [TaskCategory(task_category.lower())] succeeds on these values. *)
Definition task_categories : list string :=
  ["coding"; "writing"; "designing"; "graphics"; "art"; "general"]%string.

(** [tier_model.split(":", 1)] when [":" in tier_model] *)
Fixpoint split_colon (s : string) (acc : string) : option (string * string) :=
  match s with
  | EmptyString => None
  | String c s' =>
      if Ascii.eqb c ":"%char then Some (acc, s')
      else split_colon s' (acc +:+ String c EmptyString)
  end.

Definition lower_all (l : list string) : list string := map PyStr.lower l.

(** the first group of [model_groups] that lists the model *)
Definition group_of (m : string) : option (string * list string) :=
  find (fun g => str_in (PyStr.lower m) (lower_all (snd g))) (model_groups config).

(** The consultation of the tier manager: [None] when it is not asked
    (no tier system, no category, or a category [TaskCategory] rejects),
    [Some None] when its answer does not replace the current pair,
    [Some (Some fb)] when it names another pair. *)
Definition tier_answer (pid m : string) (task_category : option string) (st : State)
  : option (option (string * string)) :=
  match task_category with
  | Some cat =>
      if tier_enabled w && negb (String.eqb cat EmptyString)
         && str_in (PyStr.lower cat) task_categories
      then
        match tier_best w (step st) (PyStr.lower cat) pid with
        | Some tier_model =>
            match split_colon tier_model EmptyString with
            | Some (fp, fm) =>
                if negb (String.eqb fp pid) || negb (String.eqb fm m)
                then Some (Some (fp, fm)) else Some None
            | None => Some None
            end
        | None => Some None
        end
      else None
  | None => None
  end.

(** The automatic chain: the available entries of the same capability
    group, by priority and success rate; failing that, any available
    entry, by priority. *)
Definition automatic_candidates (pid m : string) (st : State)
  : list (string * string) * State :=
  let key := key_of pid m in
  let '(same_group, st1) :=
    match group_of m with
    | Some grp =>
        collect key (fun h => str_in (PyStr.lower (model h)) (lower_all (snd grp)))
                (providers st) st
    | None => ([], st)
    end in
  match sort_by (le_priority_rate st1) same_group with
  | [] =>
      let '(anyone, st2) := collect key (fun _ => true) (providers st1) st1 in
      (sort_by (le_priority st2) anyone, st2)
  | sorted => (sorted, st1)
  end.

(** [_get_fallback_candidates] *)
Definition _get_fallback_candidates (pid m : string) (task_category : option string)
           (st : State) : list (string * string) * State :=
  match Dict.get (key_of pid m) (fallback_chains st) with
  | Some chain => (chain, st)
  | None =>
      match tier_answer pid m task_category st with
      | Some (Some fb) => ([fb], emit (EvLimitHit pid) (tick st))
      | Some None => automatic_candidates pid m (tick st)
      | None => automatic_candidates pid m st
      end
  end.

(** The search for [next_fallback]: the first candidate whose key is not
    among the attempts, is registered and is available. *)
Fixpoint find_next (fallbacks : list (string * string)) (attempts : list (string * string))
         (st : State) : option (string * string) * State :=
  match fallbacks with
  | [] => (None, st)
  | (fb_provider, fb_model) :: rest =>
      let fb_key := key_of fb_provider fb_model in
      if negb (str_in fb_key (map (fun a => key_of (fst a) (snd a)) attempts)) then
        match Dict.get fb_key (providers st) with
        | Some h =>
            let '(avail, st1) := is_available h st in
            if avail then (Some (fb_provider, fb_model), st1)
            else find_next rest attempts st1
        | None => find_next rest attempts st
        end
      else find_next rest attempts st
  end.

(** Whether the result of the task counts as an error:
    [isinstance(result, str) and result.startswith("Error:")]. *)
Definition is_error_result (v : Py.value) : option string :=
  match v with
  | Py.VStr s => if PyStr.startswith "Error:" s then Some s else None
  | _ => None
  end.

(** The [try] around the call: the result, or the text of the exception
    that reaches the [except] branch (the task's own, or the one raised
    for an error result, whose text is the result). *)
Definition classify (o : TaskOutcome) : Py.value + string :=
  match o with
  | TReturn v =>
      match is_error_result v with
      | Some s => inr s
      | None => inl v
      end
  | TRaise msg => inr msg
  end.

Definition update_health (key : string) (f : ProviderHealth -> State -> ProviderHealth * State)
           (st : State) : State :=
  match Dict.get key (providers st) with
  | Some h =>
      let '(h', st') := f h st in
      set_providers (Dict.set key h' (providers st')) st'
  | None => st
  end.

(** What [execute_with_failover] hands back. *)
Definition Answer : Type := Py.value * string * string.

Definition exhausted_message (last_error : option string) : string :=
  "All failover attempts exhausted. Last error: "
  +:+ match last_error with Some e => e | None => "None" end.

(** The [for attempt in range(max_retries + 1)] loop; [n] iterations are
    left.  [first] is the primary pair, so that [attempts] is never empty.
    [on_failover] tells whether a callback was given; the callback observes
    the switch and has no part in the control flow. *)
Fixpoint attempt_loop (n : nat) (on_failover : bool) (task_category : option string)
         (first : string * string) (attempts : list (string * string))
         (last_error : option string) (st : State) : Answer * State :=
  match n with
  | O =>
      let cur := List.last attempts first in
      ((Py.VStr (exhausted_message last_error), fst cur, snd cur), st)
  | S n' =>
      let '(current_provider, current_model) := List.last attempts first in
      let current_key := key_of current_provider current_model in
      let '(start_time, st1) := now st in
      let outcome := task w (step st1) current_provider current_model in
      let st2 := emit (EvTask current_provider current_model outcome) (tick st1) in
      match classify outcome with
      | inl result =>
          let '(t, st3) := now st2 in
          let elapsed := (t - start_time)%Q in
          let st4 := update_health current_key (record_success elapsed) st3 in
          ((result, current_provider, current_model), st4)
      | inr err =>
          let reason := detect_failure_reason err in
          let st3 := update_health current_key (record_failure reason) st2 in
          let '(fallbacks, st4) :=
            _get_fallback_candidates current_provider current_model task_category st3 in
          let '(next_fallback, st5) := find_next fallbacks attempts st4 in
          match next_fallback with
          | Some (np, nm) =>
              let st6 :=
                if on_failover
                then emit (EvOnFailover current_provider current_model np nm
                                        (reason_value reason)) st5
                else st5 in
              let st7 := emit (EvSleep (retry_delay config)) st6 in
              attempt_loop n' on_failover task_category first
                           (attempts ++ [(np, nm)]) (Some err) st7
          | None =>
              let cur := List.last attempts first in
              ((Py.VStr (exhausted_message (Some err)), fst cur, snd cur), st5)
          end
      end
  end.

(** [execute_with_failover] *)
Definition execute_with_failover (pid m : string) (on_failover : bool)
           (task_category : option string) (st : State) : Py.Res Answer * State :=
  if negb (enabled config) then
    let outcome := task w (step st) pid m in
    let st' := emit (EvTask pid m outcome) (tick st) in
    match outcome with
    | TReturn v => (Py.Ok (v, pid, m), st')
    | TRaise msg => (Py.Raise (Py.mkExn Py.PlainException msg), st')
    end
  else
    let '(a, st') :=
      attempt_loop (Z.to_nat (max_retries config + 1)) on_failover task_category
                   (pid, m) [(pid, m)] None st in
    (Py.Ok a, st').

End WithWorld.

(** The calls of the task in a trace, in order. *)
Definition task_calls (tr : list Event) : list (string * string) :=
  flat_map (fun e => match e with EvTask p m _ => [(p, m)] | _ => [] end) tr.

(** The value a call of the task produced, unless the manager counts the
    call as failed: the task raised, or returned a string that starts with
    [Error:]. *)
Definition succeeded (o : TaskOutcome) : option Py.value :=
  match o with
  | TReturn v =>
      match v with
      | Py.VStr s => if PyStr.startswith "Error:" s then None else Some v
      | _ => Some v
      end
  | TRaise _ => None
  end.

(** The calls and the sleeps of a trace, without the other events. *)
Definition skeleton (tr : list Event) : list Event :=
  List.filter (fun e => match e with EvTask _ _ _ | EvSleep _ => true | _ => false end) tr.

(** [get_failover_manager]: the registrations of the global instance. *)
Definition global_manager : State :=
  set_fallback_chain "claude_code" "sonnet"
    [("groq", "llama-3.3-70b-versatile"); ("google_ai", "gemini-1.5-flash");
     ("ollama", "llama3"); ("claude_code", "haiku")]%string
  (set_fallback_chain "claude_code" "opus"
    [("claude_code", "sonnet"); ("groq", "llama-3.3-70b-versatile");
     ("google_ai", "gemini-1.5-pro"); ("ollama", "deepseek-r1")]%string
  (register_provider "google_ai" "google_ai"
     ["gemini-1.5-pro"; "gemini-1.5-flash"; "gemini-2.0-flash"]%string 25
  (register_provider "ollama" "ollama" ["deepseek-r1"; "llama3"; "mistral"; "phi3"]%string 30
  (register_provider "groq" "groq"
     ["llama-3.3-70b-versatile"; "llama3-8b-8192"; "mixtral-8x7b-32768"]%string 20
  (register_provider "claude_code" "claude_code" ["opus"; "sonnet"; "haiku"]%string 10
     (mkState [] [] 0 [])))))).

End Failover.

(* ===================================================================== *)
(** ** [AgentNode.execute] (core/nodes/agent_node.py) *)
(* ===================================================================== *)

Module Agent.

(** [WorkflowEngine._strip_thinking]: the [<think>] blocks are removed
    (they are handed to the thought observers) and the rest is stripped. *)
Definition re_think : Re.regex :=
  Re.seq [Re.LitCI "<think>"; Re.Group (Re.Dot true); Re.LitCI "</think>"].

Definition _strip_thinking (text : string) : string :=
  if String.eqb text EmptyString then EmptyString
  else PyStr.strip (Re.sub re_think text).

(** The dictionary [execute] returns. *)
Record Result := mkResult {
  ok : bool;
  output : option string;
  error : option string
}.

(** The state of a run: the failover manager, the tool runs made on the
    successive outputs, and the seconds slept between retries. *)
Record State := mkState {
  failover : Failover.State;
  tool_runs : list Tools.State;
  backoffs : nat
}.

Section WithWorld.
Variable w : Failover.World.
Variable config : Failover.FailoverConfig.
Variable libs : Validator.Libs.
Variable base_dir : string.
Variable fs : Tools.Fs.

(** The node's fields the agent reads. *)
Variable provider : string.
Variable model : string.
Variable task_category : option string.
Variable agreement_rules : list Validator.AgreementRule.

Definition max_retries : nat := 3.

(** One pass through the body of [while current_retry < self.max_retries]:
    either the dictionary to return, or the exception caught by the
    [except] branch, or the names of the failed required rules. *)
Inductive Pass :=
  | PReturn (r : Result)
  | PFailedRules (failed : list string)
  | PExcept (e : Py.exn).

Definition one_pass (st : State) : Pass * State :=
  let '(answer, fst') :=
    Failover.execute_with_failover w config provider model true task_category (failover st) in
  let st1 := mkState fst' (tool_runs st) (backoffs st) in
  match answer with
  | Py.Raise e => (PExcept e, st1)
  | Py.Ok (Py.VStr out, _, _) =>
      (* [output] now holds whatever the manager handed back *)
      let tools := Tools.process_all base_dir fs out in
      let st2 := mkState fst' (tool_runs st ++ [tools]) (backoffs st) in
      let output := _strip_thinking out in
      match Validator.validate libs output agreement_rules with
      | Py.Raise e => (PExcept e, st2)
      | Py.Ok res =>
          if Validator.passed res then (PReturn (mkResult true (Some output) None), st2)
          else (PFailedRules (Validator.failed_required res), st2)
      end
  | Py.Ok (_, _, _) =>
      (PExcept (Py.mkExn Py.TypeError "expected string or bytes-like object"), st1)
  end.

(** The [while] loop; [fuel] bounds the passes, of which there are at
    most [max_retries] since every pass that does not return adds one to
    [current_retry]. *)
Fixpoint retry_loop (fuel : nat) (current_retry : nat) (st : State) : Result * State :=
  match fuel with
  | O => (mkResult false None (Some "Max retries reached"%string), st)
  | S fuel' =>
      if negb (current_retry <? max_retries)%nat then
        (mkResult false None (Some "Max retries reached"%string), st)
      else
        match one_pass st with
        | (PReturn r, st') => (r, st')
        | (PFailedRules failed, st') =>
            let current_retry := S current_retry in
            if (current_retry <? max_retries)%nat then retry_loop fuel' current_retry st'
            else (mkResult false None
                    (Some ("Validation failed: " +:+ PyStr.join ", " failed)), st')
        | (PExcept e, st') =>
            let current_retry := S current_retry in
            if (max_retries <=? current_retry)%nat then
              (mkResult false None (Some (Py.str_of_exn e)), st')
            else
              retry_loop fuel' current_retry
                         (mkState (failover st') (tool_runs st') (S (backoffs st')))
        end
  end.

(** [AgentNode.execute], from the point where the provider is known. *)
Definition execute (st : State) : Result * State :=
  retry_loop max_retries 0 st.

End WithWorld.

End Agent.

(* ===================================================================== *)
(** ** [Workflow] and [WorkflowEngine] (core/workflow.py) *)
(* ===================================================================== *)

Module Engine.

(** [class NodeStatus] *)
Inductive NodeStatus :=
  | IDLE | QUEUED | RUNNING | COMPLETE | FAILED | SKIPPED
  | WAITING_FOR_APPROVAL | PAUSED.

Definition status_eqb (a b : NodeStatus) : bool :=
  match a, b with
  | IDLE, IDLE | QUEUED, QUEUED | RUNNING, RUNNING | COMPLETE, COMPLETE
  | FAILED, FAILED | SKIPPED, SKIPPED
  | WAITING_FOR_APPROVAL, WAITING_FOR_APPROVAL | PAUSED, PAUSED => true
  | _, _ => false
  end.

(** [class WorkflowNode], without the fields that only shape the prompt
    handed to the executor (persona, backstory, provider, model, tier, the
    coordinates).  [type] is the string value of the kind, since the class
    is configured with [use_enum_values]; [has_sub_workflows] stands for a
    non-empty [sub_workflows] list. *)
Record WorkflowNode := mkNode {
  id : string;
  name : string;
  type : string;
  requires_approval : bool;
  save_path : option string;
  has_sub_workflows : bool;
  status : NodeStatus;
  output : option string;
  error : option string;
  max_iterations : Z;
  iteration_count : Z;
  agreement_rules : list Validator.AgreementRule
}.

(** [class WorkflowEdge]; the engine reads neither [label] nor [condition]. *)
Record WorkflowEdge := mkEdge {
  source_id : string;
  target_id : string;
  feedback : bool
}.

(** [class Workflow]: [nodes] is the dictionary from node id to node, in
    insertion order. *)
Record Workflow := mkWorkflow {
  nodes : Dict.t WorkflowNode;
  edges : list WorkflowEdge
}.

Definition set_status (s : NodeStatus) (n : WorkflowNode) : WorkflowNode :=
  mkNode (id n) (name n) (type n) (requires_approval n) (save_path n) (has_sub_workflows n)
         s (output n) (error n) (max_iterations n) (iteration_count n) (agreement_rules n).

Definition set_output (o : option string) (n : WorkflowNode) : WorkflowNode :=
  mkNode (id n) (name n) (type n) (requires_approval n) (save_path n) (has_sub_workflows n)
         (status n) o (error n) (max_iterations n) (iteration_count n) (agreement_rules n).

Definition set_error (e : option string) (n : WorkflowNode) : WorkflowNode :=
  mkNode (id n) (name n) (type n) (requires_approval n) (save_path n) (has_sub_workflows n)
         (status n) (output n) e (max_iterations n) (iteration_count n) (agreement_rules n).

Definition incr_iteration (n : WorkflowNode) : WorkflowNode :=
  mkNode (id n) (name n) (type n) (requires_approval n) (save_path n) (has_sub_workflows n)
         (status n) (output n) (error n) (max_iterations n) (iteration_count n + 1)
         (agreement_rules n).

(** The node object stored under [key] is mutated by [f]. *)
Fixpoint update_node (key : string) (f : WorkflowNode -> WorkflowNode)
         (d : Dict.t WorkflowNode) : Dict.t WorkflowNode :=
  match d with
  | [] => []
  | (k, n) :: d' =>
      if String.eqb key k then (k, f n) :: d' else (k, n) :: update_node key f d'
  end.

(** The first node object that satisfies [p] is mutated by [f]. *)
Fixpoint update_first (p : WorkflowNode -> bool) (f : WorkflowNode -> WorkflowNode)
         (d : Dict.t WorkflowNode) : Dict.t WorkflowNode :=
  match d with
  | [] => []
  | (k, n) :: d' =>
      if p n then (k, f n) :: d' else (k, n) :: update_first p f d'
  end.

(** [Workflow.get_entry_nodes] *)
Definition get_entry_nodes (wf : Workflow) : list string :=
  let targets := map target_id (edges wf) in
  List.filter (fun nid => negb (str_in nid targets)) (Dict.keys (nodes wf)).

(** [Workflow.get_successors] *)
Definition get_successors (es : list WorkflowEdge) (node_id : string) : list string :=
  map target_id (List.filter (fun e => String.eqb (source_id e) node_id) es).

(** [Workflow.get_predecessors] *)
Definition get_predecessors (es : list WorkflowEdge) (node_id : string) : list string :=
  map source_id (List.filter (fun e => String.eqb (target_id e) node_id) es).

(** The node kinds [initialize_default_registry] registers, and those among
    them whose executor is [AgentNode]. *)
Definition registered_kinds : list string :=
  ["browser"; "shell"; "system"; "memory"; "http"; "script"; "github"; "huggingface";
   "discovery"; "rag"; "a2ui"; "mcp"; "notion"; "google"; "comfy"; "telegram_trigger";
   "discord_trigger"; "openapi"; "optimizer";
   "agent"; "auditor"; "router"; "character"; "director"; "architect"; "critic"]%string.

Definition agent_kinds : list string :=
  ["agent"; "auditor"; "router"; "character"; "director"; "optimizer"; "architect";
   "critic"]%string.

(** Whether [AgentNode.execute] runs the node: its kind is registered with
    [AgentNode], or it is not registered at all and the final fallback of
    [__inner_execute_node] applies. *)
Definition runs_agent_node (kind : string) : bool :=
  str_in kind agent_kinds || negb (str_in kind registered_kinds).

(** The dictionary [_execute_node] returns.  Every dictionary it builds for
    a failure carries the key ["error"]. *)
Record ExecResult := mkResult {
  success : bool;
  r_output : option string;
  r_error : option string
}.

(** What the executor of a node does when called. *)
Inductive ExecBehaviour :=
  | ExOk (out : option string)
  | ExFail (err : option string)
  | ExRaise (msg : string).

(** What the engine obtains from outside.  The first argument of each field
    is the number of interactions so far. *)
Record Env := mkEnv {
  (* the executor of the node, given the input text and the context *)
  executor : nat -> WorkflowNode -> string -> string -> ExecBehaviour;
  (* writing the output of an OUTPUT node to its save path: the error, if any *)
  save_output : nat -> string -> string -> option string;
  (* the [check_intervention] callback, if one was given *)
  check_intervention : option (nat -> string -> option string);
  (* an exception that leaves [_execute_node] or the trace calls around it
     before [result] is assigned: it comes from the observer callbacks or the
     traffic controller, which run outside the [try] of [_execute_node] *)
  escapes : nat -> string -> option string;
  (* the library behind the rule kinds regex, json and schema *)
  libs : Validator.Libs
}.

Inductive Event :=
  | EvStart (node_id : string) (context : string)    (* the node is handed to its executor *)
  | EvStatus (node_id : string) (s : NodeStatus)     (* [update_status] at the end of a step *)
  | EvSleep (seconds : Q).

(** The variables of [execute] that live across the iterations of its loop.
    [result] is [None] as long as the local variable is unbound.  The
    blackboard and the conversation memory are left out: they flow into the
    prompts of the executors and into the dictionary returned at the end,
    not into the scheduling. *)
Record State := mkState {
  st_nodes : Dict.t WorkflowNode;
  completed : gset string;
  outputs : Dict.t string;
  queue : list string;
  logged_waiting : gset string;
  progress_made : bool;
  result : option ExecResult;
  history : list (string * Dict.t string);
  step : nat;
  trace : list Event
}.

Definition with_nodes (ns : Dict.t WorkflowNode) (st : State) : State :=
  mkState ns (completed st) (outputs st) (queue st) (logged_waiting st) (progress_made st)
          (result st) (history st) (step st) (trace st).

Definition with_completed (c : gset string) (st : State) : State :=
  mkState (st_nodes st) c (outputs st) (queue st) (logged_waiting st) (progress_made st)
          (result st) (history st) (step st) (trace st).

Definition with_outputs (o : Dict.t string) (st : State) : State :=
  mkState (st_nodes st) (completed st) o (queue st) (logged_waiting st) (progress_made st)
          (result st) (history st) (step st) (trace st).

Definition with_queue (q : list string) (st : State) : State :=
  mkState (st_nodes st) (completed st) (outputs st) q (logged_waiting st) (progress_made st)
          (result st) (history st) (step st) (trace st).

Definition with_logged (l : gset string) (st : State) : State :=
  mkState (st_nodes st) (completed st) (outputs st) (queue st) l (progress_made st)
          (result st) (history st) (step st) (trace st).

Definition with_progress (b : bool) (st : State) : State :=
  mkState (st_nodes st) (completed st) (outputs st) (queue st) (logged_waiting st) b
          (result st) (history st) (step st) (trace st).

Definition with_result (r : option ExecResult) (st : State) : State :=
  mkState (st_nodes st) (completed st) (outputs st) (queue st) (logged_waiting st)
          (progress_made st) r (history st) (step st) (trace st).

Definition snapshot (node_id : string) (st : State) : State :=
  mkState (st_nodes st) (completed st) (outputs st) (queue st) (logged_waiting st)
          (progress_made st) (result st) (history st ++ [(node_id, outputs st)])
          (step st) (trace st).

Definition tick (st : State) : State :=
  mkState (st_nodes st) (completed st) (outputs st) (queue st) (logged_waiting st)
          (progress_made st) (result st) (history st) (S (step st)) (trace st).

Definition emit (e : Event) (st : State) : State :=
  mkState (st_nodes st) (completed st) (outputs st) (queue st) (logged_waiting st)
          (progress_made st) (result st) (history st) (step st) (trace st ++ [e]).

Definition enqueue (nid : string) (st : State) : State :=
  with_queue (queue st ++ [nid]) st.

Definition mutate (key : string) (f : WorkflowNode -> WorkflowNode) (st : State) : State :=
  with_nodes (update_node key f (st_nodes st)) st.

Definition in_completed (nid : string) (st : State) : bool :=
  bool_decide (nid ∈ completed st).

(** The sources of the edges into [node_id] that are not feedback edges:
    [required_predecessors]. *)
Definition required_predecessors (es : list WorkflowEdge) (node_id : string) : list string :=
  map source_id (List.filter (fun e => String.eqb (target_id e) node_id && negb (feedback e)) es).

(** The readiness test of the loop:
    [all(p in completed for p in required_predecessors)]. *)
Definition ready (es : list WorkflowEdge) (node_id : string) (st : State) : bool :=
  forallb (fun p => in_completed p st) (required_predecessors es node_id).

(** *** Building the context of a node that starts *)

Definition nl : string := String "010"%char EmptyString.

Definition story_kinds : list string := ["director"; "character"; "auditor"]%string.

(** The loop over [outputs.items()] that fills [story_history]. *)
Definition story_history (st : State) : list string :=
  flat_map
    (fun entry : string * string =>
       let (nid, out) := entry in
       if String.eqb nid "__input__" then []
       else
         match Dict.get nid (st_nodes st) with
         | None => []
         | Some n =>
             if str_in (type n) story_kinds && in_completed nid st
             then ["[" +:+ name n +:+ "]: " +:+ out]
             else []
         end)
    (outputs st).

(** [l[-5:]] *)
Definition last5 {A} (l : list A) : list A := skipn (length l - 5) l.

(** The lines [f"[{workflow.nodes[p].name}]: {raw_output}"], one for each
    predecessor; [workflow.nodes[p]] raises a KeyError when the source of an
    edge is not a node. *)
Fixpoint predecessor_parts (st : State) (preds : list string) : Py.Res (list string) :=
  match preds with
  | [] => Py.Ok []
  | p :: rest =>
      match Dict.get p (st_nodes st) with
      | None => Py.Raise (Py.mkExn Py.KeyError p)
      | Some n =>
          more ← predecessor_parts st rest;
          Py.Ok (("[" +:+ name n +:+ "]: " +:+ default EmptyString (Dict.get p (outputs st)))
                   :: more)
      end
  end.

Definition build_context (es : list WorkflowEdge) (node_id : string) (st : State)
  : Py.Res string :=
  let predecessors := get_predecessors es node_id in
  let story := story_history st in
  let header :=
    match story with
    | [] => []
    | _ => ["=== SHARED STORY HISTORY ===" +:+ nl
            +:+ PyStr.join (nl +:+ nl) (last5 story)
            +:+ nl +:+ "=============================="]
    end in
  parts ← predecessor_parts st predecessors;
  Py.Ok (match predecessors with
         | [] => default EmptyString (Dict.get "__input__" (outputs st))
         | _ => PyStr.join (nl +:+ nl) (header ++ parts)
         end).

(** *** [_execute_node] and [__inner_execute_node] *)

Inductive ExecOutcome :=
  | Returned (r : ExecResult)
  | Escaped (msg : string).

Definition ok_result (out : option string) : ExecResult := mkResult true out None.
Definition fail_result (err : option string) : ExecResult := mkResult false None err.

Definition result_of (b : ExecBehaviour) : ExecResult :=
  match b with
  | ExOk out => ok_result out
  | ExFail err => fail_result err
  | ExRaise msg => fail_result (Some msg)
  end.

(** [__inner_execute_node], with the [except] of [_execute_node] around it:
    an exception of the executor becomes a failure dictionary.  A node run
    by [AgentNode] has its [iteration_count] raised first (agent_node.py,
    the first statement of [execute] after the context is unpacked). *)
Definition inner_execute_node (env : Env) (node_id : string) (node : WorkflowNode)
           (input_text context : string) (st : State) : ExecResult * State :=
  if String.eqb (type node) "output" then
    let out0 := if String.eqb context EmptyString then input_text else context in
    let out := if String.eqb out0 EmptyString then "No Content"%string else out0 in
    match save_path node with
    | Some path =>
        if String.eqb path EmptyString then (ok_result (Some out), st)
        else
          match save_output env (step st) path out with
          | None => (ok_result (Some out), tick st)
          | Some e => (fail_result (Some ("Failed to save: " +:+ e)), tick st)
          end
    | None => (ok_result (Some out), st)
    end
  else if String.eqb (type node) "input" then
    (ok_result (Some input_text), st)
  else if has_sub_workflows node then
    (result_of (executor env (step st) node input_text context), tick st)
  else
    let st1 := if runs_agent_node (type node) then mutate node_id incr_iteration st else st in
    let node1 := default node (Dict.get node_id (st_nodes st1)) in
    (result_of (executor env (step st1) node1 input_text context), tick st1).

Definition _execute_node (env : Env) (node_id : string) (node : WorkflowNode)
           (input_text context : string) (st : State) : ExecOutcome * State :=
  match escapes env (step st) node_id with
  | Some msg => (Escaped msg, tick st)
  | None =>
      let st1 := mutate node_id (set_status RUNNING) (tick st) in
      let node1 := default node (Dict.get node_id (st_nodes st1)) in
      let '(r, st2) := inner_execute_node env node_id node1 input_text context st1 in
      (Returned r, st2)
  end.

(** *** Dynamic dispatch: [_process_dispatch_tags] and its handling *)

Inductive Instr :=
  | IDispatch (target input : string)
  | ISleep (duration : string).

Definition re_dispatch : Re.regex :=
  Re.seq [Re.Lit "<dispatch_task"; Re.Plus Re.Space; Re.Lit "node="; Re.Class Re.Quote;
          Re.Group (Re.Dot true); Re.Class Re.Quote;
          Re.Opt (Re.seq [Re.Plus Re.Space; Re.Lit "input="; Re.Class Re.Quote;
                          Re.Group (Re.Dot true); Re.Class Re.Quote]);
          Re.Lit ">"; Re.Group (Re.Dot true); Re.Lit "</dispatch_task>"].

Definition re_sleep : Re.regex :=
  Re.seq [Re.Lit "<sleep"; Re.Plus Re.Space; Re.Lit "duration="; Re.Class Re.Quote;
          Re.Group (Re.Dot false); Re.Class Re.Quote; Re.Star Re.Space; Re.Lit "/>"].

Definition grp (cs : Re.caps) (i : nat) : string := default EmptyString (Re.group cs i).

Definition _process_dispatch_tags (text : string) : list Instr :=
  if String.eqb text EmptyString then []
  else
    map (fun cs =>
           let input_attr := grp cs 1 in
           let content := PyStr.strip (grp cs 2) in
           let final_input :=
             if String.eqb content EmptyString then input_attr
             else if String.eqb input_attr EmptyString then content
             else input_attr +:+ nl +:+ content in
           IDispatch (grp cs 0) final_input)
        (Re.finditer re_dispatch text)
    ++ map (fun cs => ISleep (grp cs 0)) (Re.finditer re_sleep text).

(** The seconds a [sleep] instruction asks for; [int] raises a ValueError
    on anything but a decimal literal of at most 4300 digits. *)
Definition sleep_seconds (duration : string) : Py.Res Z :=
  if PyStr.contains "s" duration then
    PyStr.int (Py.VStr (PyStr.remove_char "s"%char duration))
  else if PyStr.contains "m" duration then
    z ← PyStr.int (Py.VStr (PyStr.remove_char "m"%char duration)); Py.Ok (z * 60)
  else if PyStr.contains "h" duration then
    z ← PyStr.int (Py.VStr (PyStr.remove_char "h"%char duration)); Py.Ok (z * 3600)
  else PyStr.int (Py.VStr duration).

Definition is_target (target : string) (n : WorkflowNode) : bool :=
  String.eqb (name n) target || String.eqb (id n) target.

(** The least integer that has no float: it lies half way between the
    largest float, [2^1024 - 2^971], and [2^1024], and rounds to the
    latter. *)
Definition float_overflow : Z := 2 ^ 1024 - 2 ^ 970.

(** [await asyncio.sleep(seconds)] for an integer.  A delay that is not
    positive only yields; any other is added to the float [loop.time()],
    which raises an OverflowError when the integer has no float. *)
Definition asyncio_sleep (seconds : Z) (st : State) : Py.Res State :=
  if seconds <=? 0 then Py.Ok (emit (EvSleep (inject_Z seconds)) st)
  else if float_overflow <=? seconds then
    Py.Raise (Py.mkExn Py.OverflowError "int too large to convert to float")
  else Py.Ok (emit (EvSleep (inject_Z seconds)) st).

Definition run_instr (st : State) (i : Instr) : Py.Res State :=
  match i with
  | ISleep duration =>
      seconds ← sleep_seconds duration;
      (* the line logged before the sleep formats [seconds] *)
      _ ← PyStr.format_int seconds;
      asyncio_sleep seconds st
  | IDispatch target input =>
      match find (fun kn => is_target target (snd kn)) (st_nodes st) with
      | Some (_, target_node) =>
          let tid := id target_node in
          let st1 := with_nodes (update_first (is_target target) (set_status IDLE) (st_nodes st)) st in
          let st2 := with_completed (completed st1 ∖ {[ tid ]}) st1 in
          let st3 :=
            with_outputs (Dict.set ("__dispatch_" +:+ tid +:+ "__") input
                                   (Dict.set tid input (outputs st2))) st2 in
          if str_in tid (queue st3) then Py.Ok st3
          else Py.Ok (with_progress true (enqueue tid st3))
      | None => Py.Ok st
      end
  end.

Fixpoint run_instrs (st : State) (instrs : list Instr) : Py.Res State :=
  match instrs with
  | [] => Py.Ok st
  | i :: rest => st' ← run_instr st i; run_instrs st' rest
  end.

Definition truthy (o : option string) : bool :=
  match o with
  | Some s => negb (String.eqb s EmptyString)
  | None => false
  end.

(** The block under [DYNAMIC DISPATCH HANDLING]; it reads the local
    variable [result]. *)
Definition dispatch (st : State) : Py.Res State :=
  match result st with
  | None =>
      Py.Raise (Py.mkExn Py.UnboundLocalError
        "cannot access local variable 'result' where it is not associated with a value")
  | Some r =>
      if success r && truthy (r_output r)
      then run_instrs st (_process_dispatch_tags (default EmptyString (r_output r)))
      else Py.Ok st
  end.

(** *** Queueing the successors *)

Definition rejection_markers : list string :=
  ["incomplete"; "code_incomplete"; "gdd_incomplete"; "needs_rework"; "rejected";
   "failed validation"; "placeholder detected"; "not valid"]%string.

Definition approval_markers : list string :=
  ["validated"; "valid"; "approved"; "complete"; "ready"; "gold_standard"; "acceptable";
   "passed"]%string.

(** The body of [for edge in workflow.edges] for one edge. *)
Definition route_edge (node_id : string) (is_auditor : bool) (output_lower : string)
           (st : State) (edge : WorkflowEdge) : State :=
  if negb (String.eqb (source_id edge) node_id) then st
  else
    let target := target_id edge in
    if in_completed target st || str_in target (queue st) then st
    else if is_auditor && feedback edge then
      if PyStr.contains_any rejection_markers output_lower then enqueue target st else st
    else if is_auditor && negb (feedback edge) then
      if PyStr.contains_any approval_markers output_lower then enqueue target st else st
    else enqueue target st.

Definition route (es : list WorkflowEdge) (node_id : string) (st : State) : State :=
  match Dict.get node_id (st_nodes st) with
  | None => st
  | Some node =>
      let output_lower := PyStr.lower (default EmptyString (output node)) in
      if status_eqb (status node) COMPLETE
      then fold_left (route_edge node_id (String.eqb (type node) "auditor") output_lower) es st
      else st
  end.

(** *** One iteration of the loop over the queue *)

(** From [self.update_status] after the [try] to the snapshot. *)
Definition finish (es : list WorkflowEdge) (node_id : string) (st : State) : Py.Res State :=
  let s := match Dict.get node_id (st_nodes st) with Some n => status n | None => IDLE end in
  let st1 := emit (EvStatus node_id s) st in
  let st2 := with_completed ({[ node_id ]} ∪ completed st1) st1 in
  st3 ← dispatch st2;
  Py.Ok (snapshot node_id (route es node_id st3)).

Definition mark_failed (node_id : string) (err : option string) (st : State) : State :=
  mutate node_id (fun n => set_error err (set_status FAILED n)) st.

(** The [try] block that executes the node, with its [except], and what
    follows it. *)
Definition run_node (env : Env) (es : list WorkflowEdge) (initial_input : string)
           (node_id : string) (node : WorkflowNode) (context : string) (st : State)
  : Py.Res State :=
  let '(outcome, st1) := _execute_node env node_id node initial_input context st in
  match outcome with
  | Escaped msg => finish es node_id (mark_failed node_id (Some msg) st1)
  | Returned r =>
      let st2 := with_result (Some r) st1 in
      if success r then
        match r_output r with
        | None =>
            (* [_calculate_usage] takes [len] of the output *)
            finish es node_id
                   (mark_failed node_id (Some "object of type 'NoneType' has no len()"%string) st2)
        | Some out =>
            if requires_approval node then
              Py.Ok (enqueue node_id
                       (with_outputs (Dict.set node_id out (outputs st2))
                          (mutate node_id
                             (fun n => set_output (Some out) (set_status WAITING_FOR_APPROVAL n))
                             st2)))
            else
              let st3 :=
                with_outputs (Dict.set node_id out (outputs st2))
                  (mutate node_id (fun n => set_output (Some out) (set_status COMPLETE n)) st2) in
              match agreement_rules node with
              | [] => finish es node_id st3
              | rules =>
                  match Validator.validate (libs env) out rules with
                  | Py.Ok _ => finish es node_id st3
                  | Py.Raise e =>
                      finish es node_id (mark_failed node_id (Some (Py.str_of_exn e)) st3)
                  end
              end
        end
      else finish es node_id (mark_failed node_id (r_error r) st2)
  end.

(** The branch for a node in WAITING_FOR_APPROVAL. *)
Definition poll_approval (env : Env) (es : list WorkflowEdge) (node_id : string) (st : State)
  : State :=
  match check_intervention env with
  | None => enqueue node_id st
  | Some check =>
      let intervention := check (step st) node_id in
      let st1 := tick st in
      let st2 := if truthy intervention then st1 else emit (EvSleep 1) st1 in
      match intervention with
      | Some decision =>
          if String.eqb decision "APPROVE" then
            let st3 :=
              with_progress true
                (with_completed ({[ node_id ]} ∪ completed st2)
                   (mutate node_id (set_status COMPLETE) st2)) in
            fold_left (fun s succ =>
                         if in_completed succ s || str_in succ (queue s) then s
                         else enqueue succ s)
                      (get_successors es node_id) st3
          else if String.eqb decision "REJECT" then
            mutate node_id (set_status FAILED) st2
          else enqueue node_id st2
      | None => enqueue node_id st2
      end
  end.

(** The body of [for _ in range(queue_size)] once [node_id] has been popped
    from the queue. *)
Definition body (env : Env) (es : list WorkflowEdge) (initial_input : string)
           (node_id : string) (st : State) : Py.Res State :=
  match Dict.get node_id (st_nodes st) with
  | None => Py.Ok st
  | Some node =>
      (* recycling of a node that is dequeued while COMPLETE *)
      let recycled :=
        if status_eqb (status node) COMPLETE then
          if iteration_count node <? max_iterations node
          then Some (mutate node_id (fun n => set_output None (set_status IDLE n)) st)
          else None
        else Some st in
      match recycled with
      | None => Py.Ok st
      | Some st1 =>
          let node1 := default node (Dict.get node_id (st_nodes st1)) in
          if negb (ready es node_id st1) then
            Py.Ok (enqueue node_id (with_logged ({[ node_id ]} ∪ logged_waiting st1) st1))
          else if status_eqb (status node1) WAITING_FOR_APPROVAL then
            Py.Ok (poll_approval env es node_id st1)
          else
            let st2 := with_progress true (with_logged (logged_waiting st1 ∖ {[ node_id ]}) st1) in
            context ← build_context es node_id st2;
            run_node env es initial_input node_id node1 context (emit (EvStart node_id context) st2)
      end
  end.

(** [for _ in range(queue_size)], with [n] iterations left. *)
Fixpoint for_pass (env : Env) (es : list WorkflowEdge) (initial_input : string)
         (n : nat) (st : State) : Py.Res State :=
  match n with
  | O => Py.Ok st
  | S n' =>
      match queue st with
      | [] => Py.Ok st
      | node_id :: rest =>
          st' ← body env es initial_input node_id (with_queue rest st);
          for_pass env es initial_input n' st'
      end
  end.

(** How a run of the engine ends. *)
Inductive Outcome (A : Type) :=
  | Finished (a : A)
  | Raised (e : Py.exn)
  | OutOfFuel.
Arguments Finished {A} a.
Arguments Raised {A} e.
Arguments OutOfFuel {A}.

(** What follows the pass inside [while queue]. *)
Definition after_pass (st : State) : State :=
  if progress_made st then with_logged ∅ st
  else match queue st with
       | [] => st
       | _ => emit (EvSleep (1 # 2)) st
       end.

(** [while queue]; [fuel] bounds the number of passes. *)
Fixpoint while_queue (env : Env) (es : list WorkflowEdge) (initial_input : string)
         (fuel : nat) (st : State) : Outcome State :=
  match queue st with
  | [] => Finished st
  | _ =>
      match fuel with
      | O => OutOfFuel
      | S fuel' =>
          match for_pass env es initial_input (length (queue st)) (with_progress false st) with
          | Py.Raise e => Raised e
          | Py.Ok st' => while_queue env es initial_input fuel' (after_pass st')
          end
      end
  end.

(** *** The start of [execute] *)

Definition reset_node (n : WorkflowNode) : WorkflowNode :=
  set_error None (set_output None (set_status IDLE n)).

Definition values {V} (d : Dict.t V) : list V := map snd d.

(** The queue of a resumed run, first attempt: the waiting nodes, and the
    idle ones that have predecessors, all of them completed. *)
Definition resume_queue (wf_nodes : Dict.t WorkflowNode) (es : list WorkflowEdge)
           (done : gset string) : list string :=
  flat_map
    (fun kn : string * WorkflowNode =>
       let (nid, node) := kn in
       if status_eqb (status node) WAITING_FOR_APPROVAL then [nid]
       else if status_eqb (status node) IDLE then
         let preds := get_predecessors es nid in
         match preds with
         | [] => []
         | _ => if forallb (fun p => bool_decide (p ∈ done)) preds then [nid] else []
         end
       else [])
    wf_nodes.

(** The queue of a resumed run, second attempt: the idle successors of the
    completed nodes.  [workflow.nodes[succ]] raises a KeyError when the
    target of an edge is not a node. *)
Fixpoint idle_successors (wf_nodes : Dict.t WorkflowNode) (succs : list string)
         (q : list string) : Py.Res (list string) :=
  match succs with
  | [] => Py.Ok q
  | succ :: rest =>
      match Dict.get succ wf_nodes with
      | None => Py.Raise (Py.mkExn Py.KeyError succ)
      | Some n =>
          idle_successors wf_nodes rest
            (if status_eqb (status n) IDLE && negb (str_in succ q) then q ++ [succ] else q)
      end
  end.

Definition initial_state (wf : Workflow) (initial_input : string) (resume : bool)
  : Py.Res State :=
  let ns := if resume then nodes wf
            else map (fun kn : string * WorkflowNode => (fst kn, reset_node (snd kn))) (nodes wf) in
  let done : gset string :=
    list_to_set (map id (List.filter (fun n => status_eqb (status n) COMPLETE) (values ns))) in
  let outs :=
    fold_left (fun o n => if truthy (output n)
                          then Dict.set (id n) (default EmptyString (output n)) o else o)
              (values ns) [("__input__"%string, initial_input)] in
  let q0 := if resume then resume_queue ns (edges wf) done else [] in
  q ← match q0 with
      | [] =>
          if negb resume then Py.Ok (get_entry_nodes wf)
          else idle_successors ns
                 (flat_map (get_successors (edges wf)) (elements done)) []
      | _ => Py.Ok q0
      end;
  Py.Ok (mkState ns done outs q ∅ false None [] 0 []).

(** What [execute] returns, together with the workflow as the run left it. *)
Record Run := mkRun {
  run_success : bool;
  run_outputs : Dict.t string;
  run_nodes : Dict.t WorkflowNode;
  run_trace : list Event;
  run_final : State
}.

Definition all_complete (ns : Dict.t WorkflowNode) : bool :=
  forallb (fun n => status_eqb (status n) COMPLETE) (values ns).

(** [WorkflowEngine.execute]: the session folder, the log file and the
    conversation memory are set up outside of what is modelled. *)
Definition execute (env : Env) (wf : Workflow) (initial_input : string) (resume : bool)
           (fuel : nat) : Outcome Run :=
  match initial_state wf initial_input resume with
  | Py.Raise e => Raised e
  | Py.Ok st0 =>
      match while_queue env (edges wf) initial_input fuel st0 with
      | Finished st =>
          Finished (mkRun (all_complete (st_nodes st)) (outputs st) (st_nodes st) (trace st) st)
      | Raised e => Raised e
      | OutOfFuel => OutOfFuel
      end
  end.

End Engine.

(* ===================================================================== *)
(** ** Concrete inputs *)
(* ===================================================================== *)

Module Samples.

(** *** For the validator *)

Definition plain_libs : Validator.Libs :=
  Validator.mkLibs (fun _ _ => Py.Ok false) (fun _ => false) (fun _ _ => Py.Ok false).

(** [AgreementRule(name="length", type="min_words")]: the value keeps its
    default, [None]. *)
Definition rule_min_words_default : Validator.AgreementRule :=
  Validator.mkRule "length" "min_words" Py.VNone true.


(** *** For the tool processor *)

Definition quiet_fs : Tools.Fs :=
  Tools.mkFs (fun _ => true) (fun _ => true) (fun _ => false) (fun _ => None).

(** *** For the failover manager *)

(** Every call of the task returns a rate-limit error; the clock stands at
    one second. *)
Definition failing_world : Failover.World :=
  Failover.mkWorld (fun _ => 1%Q)
                   (fun _ _ _ => Failover.TReturn (Py.VStr "Error: rate limit exceeded"))
                   false (fun _ _ _ => None).

(** The primary pair returns a rate-limit error, every other pair answers. *)
Definition primary_down_world : Failover.World :=
  Failover.mkWorld (fun _ => 1%Q)
                   (fun _ p m => if String.eqb p "claude_code" && String.eqb m "opus"
                                 then Failover.TReturn (Py.VStr "Error: rate limit exceeded")
                                 else Failover.TReturn (Py.VStr "ok"))
                   false (fun _ _ _ => None).

(** The task raises. *)
Definition raising_world : Failover.World :=
  Failover.mkWorld (fun _ => 1%Q) (fun _ _ _ => Failover.TRaise "connection refused")
                   false (fun _ _ _ => None).

(** [FailoverConfig(enabled=False)] *)
Definition disabled_config : Failover.FailoverConfig :=
  Failover.mkConfig false 3 1 Failover.default_model_groups.

(** The global manager with an empty fallback chain for one pair. *)
Definition no_fallback_manager : Failover.State :=
  Failover.set_fallback_chain "groq" "mixtral-8x7b-32768" [] Failover.global_manager.

(** *** For the engine *)

(** A node with the defaults of [WorkflowNode]: idle, one iteration allowed. *)
Definition node (i ty : string) : Engine.WorkflowNode :=
  Engine.mkNode i i ty false None false Engine.IDLE None None 1 0 [].

(** An environment whose observers do not fail and in which nobody
    intervenes; the executor of the node [i] behaves as [b k i] says at
    interaction [k]. *)
Definition env_of (b : nat -> string -> Engine.ExecBehaviour) : Engine.Env :=
  Engine.mkEnv (fun k n _ _ => b k (Engine.id n)) (fun _ _ _ => None) None (fun _ _ => None)
               plain_libs.

Definition says (text : string) : Engine.Env :=
  env_of (fun _ _ => Engine.ExOk (Some text)).

(** An observer callback fails when the first node is about to start. *)
Definition observer_fails : Engine.Env :=
  Engine.mkEnv (fun _ _ _ _ => Engine.ExOk (Some "x"%string)) (fun _ _ _ => None) None
               (fun _ _ => Some "observer failed"%string) plain_libs.

(** One agent. *)
Definition single : Engine.Workflow :=
  Engine.mkWorkflow [("a", node "a" "agent")]%string [].

(** Two branches [u] and [w] that join in [v]. *)
Definition diamond : Engine.Workflow :=
  Engine.mkWorkflow
    [("u", node "u" "agent"); ("w", node "w" "agent"); ("v", node "v" "output")]%string
    [Engine.mkEdge "u" "v" false; Engine.mkEdge "w" "v" false].

Definition u_fails : Engine.Env :=
  env_of (fun _ i => if String.eqb i "u"
                     then Engine.ExFail (Some "provider unavailable"%string)
                     else Engine.ExOk (Some "fine"%string)).

(** A writer, a critic that audits it and may send it back over a feedback
    edge, and an output. *)
Definition review_loop : Engine.Workflow :=
  Engine.mkWorkflow
    [("writer", node "writer" "agent"); ("critic", node "critic" "auditor");
     ("out", node "out" "output")]%string
    [Engine.mkEdge "writer" "critic" false; Engine.mkEdge "critic" "writer" true;
     Engine.mkEdge "critic" "out" false].

Definition critic_rejects : Engine.Env :=
  env_of (fun _ i => if String.eqb i "critic"
                     then Engine.ExOk (Some "needs_rework: too short"%string)
                     else Engine.ExOk (Some "draft"%string)).

(** A worker that reports to a director, who sends it back to work. *)
Definition redispatch (worker_kind : string) : Engine.Workflow :=
  Engine.mkWorkflow
    [("worker", node "worker" worker_kind); ("boss", node "boss" "director")]%string
    [Engine.mkEdge "worker" "boss" false].

Definition boss_redispatches : Engine.Env :=
  env_of (fun _ i =>
            if String.eqb i "boss"
            then Engine.ExOk (Some "<dispatch_task node='worker'>once more</dispatch_task>"%string)
            else Engine.ExOk (Some "report"%string)).

(** [v] is queued by [w] and waits for [p], which is never queued because
    its only predecessor [a] fails. *)
Definition starved : Engine.Workflow :=
  Engine.mkWorkflow
    [("a", node "a" "agent"); ("w", node "w" "agent");
     ("p", node "p" "agent"); ("v", node "v" "output")]%string
    [Engine.mkEdge "a" "p" false; Engine.mkEdge "p" "v" false; Engine.mkEdge "w" "v" false].

Definition a_fails : Engine.Env :=
  env_of (fun _ i => if String.eqb i "a"
                     then Engine.ExFail (Some "provider unavailable"%string)
                     else Engine.ExOk (Some "fine"%string)).

(** The run of [diamond] when [u] has just been taken from the queue. *)
Definition diamond_start : Engine.State :=
  Engine.mkState (Engine.nodes diamond) ∅ [("__input__", "topic")]%string ["w"%string] ∅
                 false None [] 0 [].

Definition done_node (i ty out : string) : Engine.WorkflowNode :=
  Engine.mkNode i i ty false None false Engine.COMPLETE (Some out) None 1 1 [].

End Samples.

(* ===================================================================== *)
(** ** The vocabulary of the properties *)
(* ===================================================================== *)

(** *** Validator *)



(** *** Tool processor *)

(** The path arguments of a tag. *)
Definition tag_paths (t : Tools.FileTag) : list string :=
  match t with
  | Tools.TWriteFile p _ | Tools.TAppendFile p _ => [p]
  | Tools.TReadFile p | Tools.TListDir p | Tools.TCreateDir p
  | Tools.TDeleteFile p | Tools.TDeleteDir p => [p]
  | Tools.TCopy a b | Tools.TMove a b => [a; b]
  end.

(** The path escapes the base directory: its normalized join with the base
    does not begin with the base. *)
Definition escapes_base (base_dir path : string) : Prop :=
  PyStr.startswith base_dir (PosixPath.normpath (PosixPath.join base_dir path)) = false.

(** Every path a call changes begins with the base directory. *)
Definition within_base (base_dir : string) (op : Tools.FsOp) : Prop :=
  Forall (fun p => PyStr.startswith base_dir p = true) (Tools.mutating_target op).

(** *** Failover manager *)

(** The events that are neither a call of the task nor a sleep. *)
Definition silent (e : Failover.Event) : Prop :=
  match e with
  | Failover.EvTask _ _ _ | Failover.EvSleep _ => False
  | _ => True
  end.

Definition key_of_pair (a : string * string) : string := Failover.key_of (fst a) (snd a).

(** Between two consecutive calls of the task there is exactly one sleep, of
    length [d]; a sleep may also follow the last call. *)
Inductive well_spaced (d : Q) : list Failover.Event -> Prop :=
  | ws_nil : well_spaced d []
  | ws_one p m o : well_spaced d [Failover.EvTask p m o]
  | ws_cons p m o rest :
      well_spaced d rest ->
      well_spaced d (Failover.EvTask p m o :: Failover.EvSleep d :: rest).

Definition answer_value (a : Failover.Answer) : Py.value := fst (fst a).
Definition answer_pair (a : Failover.Answer) : string * string := (snd (fst a), snd a).

(** What a run of the attempt loop guarantees about the events it adds. *)
Record loop_post (d : Q) (n : nat) (attempts : list (string * string))
       (new : list Failover.Event) (ans : Failover.Answer) : Prop := mkPost {
  post_bound : (length (Failover.task_calls new) <= n)%nat;
  post_distinct : NoDup (map key_of_pair (removelast attempts ++ Failover.task_calls new));
  post_spaced : well_spaced d (Failover.skeleton new);
  post_success_last :
    forall p m o, Failover.EvTask p m o ∈ new -> Failover.succeeded o <> None ->
                  last (Failover.skeleton new) = Some (Failover.EvTask p m o);
  post_answer :
    forall p m o, last (Failover.skeleton new) = Some (Failover.EvTask p m o) ->
                  answer_pair ans = (p, m)
                  /\ match Failover.succeeded o with
                     | Some v => answer_value ans = v
                     | None => exists e, answer_value ans
                                         = Py.VStr (Failover.exhausted_message e)
                     end;
  post_exhausted :
    (forall p m o, last (Failover.skeleton new) <> Some (Failover.EvTask p m o)) ->
    exists e, answer_value ans = Py.VStr (Failover.exhausted_message e)
}.

(** The processing [AgentNode.execute] applies to an output text. *)
Definition agent_processing (libs : Validator.Libs) (rules : list Validator.AgreementRule)
           (out : string) : Agent.Pass :=
  match Validator.validate libs (Agent._strip_thinking out) rules with
  | Py.Raise e => Agent.PExcept e
  | Py.Ok res =>
      if Validator.passed res
      then Agent.PReturn (Agent.mkResult true (Some (Agent._strip_thinking out)) None)
      else Agent.PFailedRules (Validator.failed_required res)
  end.

(** *** Engine *)

(** The entry nodes in the words of the specification: the nodes with no
    incoming non-feedback edge. *)
Definition spec_entry_nodes (wf : Engine.Workflow) : list string :=
  List.filter
    (fun nid => negb (existsb (fun e => String.eqb (Engine.target_id e) nid
                                        && negb (Engine.feedback e))
                              (Engine.edges wf)))
    (Dict.keys (Engine.nodes wf)).

(** A trace without the contexts: [(i, None)] when node [i] is handed to
    its executor, [(i, Some s)] when its step ends with status [s]. *)
Definition outline (tr : list Engine.Event) : list (string * option Engine.NodeStatus) :=
  flat_map (fun e => match e with
                     | Engine.EvStart i _ => [(i, None)]
                     | Engine.EvStatus i s => [(i, Some s)]
                     | Engine.EvSleep _ => []
                     end) tr.

(** The nodes handed to their executors, in order. *)
Definition starts (tr : list Engine.Event) : list string :=
  flat_map (fun e => match e with Engine.EvStart i _ => [i] | _ => [] end) tr.

(** The status, the iteration count and the bound of a node after a run. *)
Definition node_summary (r : Engine.Run) (nid : string)
  : option (Engine.NodeStatus * Z * Z) :=
  option_map (fun n => (Engine.status n, Engine.iteration_count n, Engine.max_iterations n))
             (Dict.get nid (Engine.run_nodes r)).


(* ===================================================================== *)
(** ** Editing and checking a workflow graph ([class Workflow]) *)
(* ===================================================================== *)

Module Graph.
Import Engine.

(** [del d[k]] for a key that is present *)
Fixpoint del {V} (k : string) (d : Dict.t V) : Dict.t V :=
  match d with
  | [] => []
  | (k', v) :: d' => if String.eqb k k' then d' else (k', v) :: del k d'
  end.

(** [Workflow.add_node]: [self.nodes[node.id] = node]. *)
Definition add_node (node : WorkflowNode) (wf : Workflow) : Workflow :=
  mkWorkflow (Dict.set (id node) node (nodes wf)) (edges wf).

(** [Workflow.remove_node] *)
Definition remove_node (node_id : string) (wf : Workflow) : Workflow :=
  if Dict.mem node_id (nodes wf) then
    mkWorkflow (del node_id (nodes wf))
               (List.filter (fun e => negb (String.eqb (source_id e) node_id)
                                      && negb (String.eqb (target_id e) node_id))
                            (edges wf))
  else wf.

(** [Workflow.add_edge]; the identifier it returns is a field of the edge
    that [WorkflowEdge] above does not carry. *)
Definition add_edge (edge : WorkflowEdge) (wf : Workflow) : Py.Res Workflow :=
  if negb (Dict.mem (source_id edge) (nodes wf)) || negb (Dict.mem (target_id edge) (nodes wf))
  then Py.Raise (Py.mkExn Py.ValueError "Edge references non-existent nodes")
  else Py.Ok (mkWorkflow (nodes wf) (edges wf ++ [edge])).

(** The [successors] list of [is_cyclic]: the targets of the edges that
    leave [v] and are not feedback edges. *)
Definition forward (es : list WorkflowEdge) (v : string) : list string :=
  map target_id (List.filter (fun e => String.eqb (source_id e) v && negb (feedback e)) es).

(** What a call of [is_cyclic] leaves behind: its answer and the two sets
    [visited] and [current_stack] it has mutated; [set.remove] raises a
    KeyError on an element that is not in the set. *)
Definition Marks : Type := bool * gset string * gset string.

(** The loop [for neighbor in successors]; [rec] is the recursive call. *)
Fixpoint neighbours (rec : string -> gset string -> gset string -> option (Py.Res Marks))
         (ns : list string) (visited stack : gset string) : option (Py.Res Marks) :=
  match ns with
  | [] => Some (Py.Ok (false, visited, stack))
  | neighbor :: rest =>
      if negb (bool_decide (neighbor ∈ visited)) then
        match rec neighbor visited stack with
        | Some (Py.Ok (false, visited', stack')) => neighbours rec rest visited' stack'
        | r => r
        end
      else if bool_decide (neighbor ∈ stack) then Some (Py.Ok (true, visited, stack))
      else neighbours rec rest visited stack
  end.

(** The nested function [is_cyclic] of [validate]; [depth] bounds the
    nesting of the recursive calls, [None] tells that the bound was hit.
    The recursion limit of the interpreter is not modelled. *)
Fixpoint is_cyclic (es : list WorkflowEdge) (depth : nat) (v : string)
         (visited stack : gset string) : option (Py.Res Marks) :=
  match depth with
  | O => None
  | S depth' =>
      match neighbours (is_cyclic es depth') (forward es v)
                       ({[ v ]} ∪ visited) ({[ v ]} ∪ stack) with
      | Some (Py.Ok (false, visited', stack')) =>
          if bool_decide (v ∈ stack')
          then Some (Py.Ok (false, visited', stack' ∖ {[ v ]}))
          else Some (Py.Raise (Py.mkExn Py.KeyError v))
      | r => r
      end
  end.

(** The loop [for node_id in self.nodes] of [validate]. *)
Fixpoint validate_loop (es : list WorkflowEdge) (depth : nat)
         (ns : list (string * WorkflowNode)) (visited stack : gset string)
  : option (Py.Res bool) :=
  match ns with
  | [] => Some (Py.Ok true)
  | (node_id, node) :: rest =>
      if negb (bool_decide (node_id ∈ visited)) then
        match is_cyclic es depth node_id visited stack with
        | Some (Py.Ok (true, _, _)) =>
            Some (Py.Raise (Py.mkExn Py.ValueError
                              ("Cycle detected involving node " +:+ name node)))
        | Some (Py.Ok (false, visited', stack')) => validate_loop es depth rest visited' stack'
        | Some (Py.Raise e) => Some (Py.Raise e)
        | None => None
        end
      else validate_loop es depth rest visited stack
  end.

(** [Workflow.validate].  Every recursive call of [is_cyclic] marks a
    vertex that was not marked before, and a vertex is a node or the target
    of an edge, so the nesting never exceeds the bound given here. *)
Definition validate (wf : Workflow) (allow_cycles : bool) : option (Py.Res bool) :=
  if allow_cycles then Some (Py.Ok true)
  else validate_loop (edges wf) (S (length (nodes wf) + length (edges wf)))
                     (nodes wf) ∅ ∅.

End Graph.

(* ===================================================================== *)
(** ** [ModelTierManager] (core/model_tiers.py) *)
(* ===================================================================== *)

Module Tiers.

(** [class TaskCategory] *)
Inductive TaskCategory := CODING | WRITING | DESIGNING | GRAPHICS | ART | GENERAL.

(** [TaskCategory(value)]: the member with that value, if there is one. *)
Definition category_of (value : string) : option TaskCategory :=
  if String.eqb value "coding" then Some CODING
  else if String.eqb value "writing" then Some WRITING
  else if String.eqb value "designing" then Some DESIGNING
  else if String.eqb value "graphics" then Some GRAPHICS
  else if String.eqb value "art" then Some ART
  else if String.eqb value "general" then Some GENERAL
  else None.

(** [TIERS[category]]: the lists of the tiers S, A, B, C and D, which is
    the order in which [get_best_available_model] goes through them. *)
Definition TIERS (category : TaskCategory) : list (list string) :=
  match category with
  | CODING =>
      [ ["claude-sonnet"; "gpt-oss:120b"];
        ["deepseek-r1:32b"; "qwen3:30b"; "groq_free:llama-3.3-70b-versatile"];
        ["qwen2.5-coder:32b"; "gemma3:12b"; "phi4:14b"];
        ["ollama:llama3.1:70b"; "mistral-small3.2:24b"; "deepseek-v3:671b"];
        ["ollama:llama3.2:3b"; "ollama:phi3"; "ollama:smollm:1.7b"] ]
  | WRITING =>
      [ ["claude-sonnet"];
        ["google_ai_free:gemini-1.5-pro"; "claude_haiku_free:claude-3-haiku-20240307";
         "deepseek-r1:14b"];
        ["ollama:llama3.1:70b"; "qwen3:8b"; "gpt-oss:20b"];
        ["google_ai_free:gemini-1.5-flash"; "mistral-small3.2:24b"; "gemma3:4b"];
        ["ollama:llama3.2:3b"; "ollama:phi3"; "ollama:smollm:360m"] ]
  | DESIGNING =>
      [ ["claude-sonnet"];
        ["google_ai_free:gemini-1.5-pro"; "qwen3-vl:30b"; "llama3.2-vision:90b"];
        ["google_ai_free:gemini-2.0-flash"; "claude_haiku_free:claude-3-haiku-20240307";
         "deepseek-r1:14b"];
        ["ollama:llama3.1:70b"; "qwen2.5vl:32b"; "gemma3:12b"];
        ["ollama:smollm:1.7b"; "ollama:llama3.2:3b"] ]
  | GRAPHICS | ART =>
      [ ["claude-sonnet"];
        ["google_ai_free:gemini-1.5-pro"; "deepseek-r1:14b"; "qwen3:8b"];
        ["claude_haiku_free:claude-3-haiku-20240307"; "ollama:llama3.1:70b";
         "google_ai_free:gemini-1.5-flash"];
        ["gemma3:4b"; "mistral-small3.2:24b"; "phi4:14b"];
        ["ollama:llama3.2:3b"; "ollama:smollm:1.7b"] ]
  | GENERAL =>
      [ ["claude-sonnet"; "gpt-oss:120b"];
        ["deepseek-r1:14b"; "google_ai_free:gemini-1.5-pro"; "groq_free:llama-3.3-70b-versatile"];
        ["claude_haiku_free:claude-3-haiku-20240307"; "ollama:llama3.1:70b"; "qwen3:8b"];
        ["google_ai_free:gemini-1.5-flash"; "mistral-small3.2:24b"; "gpt-oss:20b"];
        ["ollama:llama3.2:3b"; "ollama:phi3"; "ollama:smollm:1.7b"] ]
  end%string.

(** The two dictionaries of the manager: [limit_cooldowns] and
    [current_usage]. *)
Record Manager := mkManager {
  limit_cooldowns : gmap string Q;
  current_usage : gmap string Z
}.

(** [ModelTierManager()] *)
Definition fresh : Manager := mkManager ∅ ∅.

Definition free_providers : list string :=
  ["groq_free"; "google_ai_free"; "claude_haiku_free"]%string.

(** [_has_capacity] *)
Definition _has_capacity (mgr : Manager) (provider_id : string) : bool :=
  if str_in provider_id free_providers then
    default 0 (current_usage mgr !! provider_id) <? 1000
  else if String.eqb provider_id "ollama" then true
  else if PyStr.contains "opencode" provider_id then true
  else true.

(** [record_usage] *)
Definition record_usage (provider_id : string) (mgr : Manager) : Manager :=
  mkManager (limit_cooldowns mgr)
            (<[ provider_id := default 0 (current_usage mgr !! provider_id) + 1 ]>
               (current_usage mgr)).

(** [reset_usage] *)
Definition reset_usage (provider_id : string) (mgr : Manager) : Manager :=
  match current_usage mgr !! provider_id with
  | Some _ => mkManager (limit_cooldowns mgr) (<[ provider_id := 0 ]> (current_usage mgr))
  | None => mgr
  end.


(** The two nested loops of [get_best_available_model] over the
    specifications of the category, from tier S down.  A specification
    without a colon is skipped; so is one whose provider is in cooldown; a
    cooldown that has run out is deleted. *)
Fixpoint scan (now : Q) (current_provider : option string) (specs : list string)
         (mgr : Manager) : option string * Manager :=
  match specs with
  | [] => (None, mgr)
  | model_spec :: rest =>
      match Failover.split_colon model_spec EmptyString with
      | None => scan now current_provider rest mgr
      | Some (provider_id, model_name) =>
          let verdict :=
            match limit_cooldowns mgr !! provider_id with
            | Some until =>
                if negb (Qle_bool until now) then None
                else Some (mkManager (delete provider_id (limit_cooldowns mgr))
                                     (current_usage mgr))
            | None => Some mgr
            end in
          match verdict with
          | None => scan now current_provider rest mgr
          | Some mgr' =>
              if bool_decide (current_provider = Some provider_id) then (Some model_spec, mgr')
              else if _has_capacity mgr' provider_id then (Some model_spec, mgr')
              else scan now current_provider rest mgr'
          end
      end
  end.

(** [get_best_available_model]; [now] is its reading of the clock. *)
Definition get_best_available_model (now : Q) (category : TaskCategory)
           (current_provider : option string) (mgr : Manager) : option string * Manager :=
  scan now current_provider (concat (TIERS category)) mgr.

End Tiers.

(* ===================================================================== *)
(** ** [ToolProcessor]: the command tag (core/tools/tool_processor.py) *)
(* ===================================================================== *)

Module Commands.




(** [self.results["commands_run"]], the commands handed to the shell with
    their timeouts, and the lines logged, each without the pictograph it
    begins with. *)
Record State := mkState {
  commands_run : list string;
  shell_calls : list (string * Z);
  logs : list string
}.



End Commands.

(* ===================================================================== *)
(** ** [WorkflowEngine]: the usage estimate (core/workflow.py) *)
(* ===================================================================== *)

Module Usage.

(** The dictionary [_calculate_usage] returns. *)
Record t := mk {
  input_tokens : Z;
  output_tokens : Z;
  total_tokens : Z
}.

Definition len (s : string) : Z := Z.of_nat (String.length s).

(** [WorkflowEngine._calculate_usage]; [//] is the floor division. *)
Definition _calculate_usage (input_text output_text : string) : t :=
  mk (len input_text / 4) (len output_text / 4) ((len input_text + len output_text) / 4).

End Usage.

(* ===================================================================== *)
(** ** The vocabulary of the further properties *)
(* ===================================================================== *)

(** *** Workflow graph *)

(** Every edge joins two nodes of the workflow. *)
Definition edges_closed (wf : Engine.Workflow) : Prop :=
  Forall (fun e => Dict.mem (Engine.source_id e) (Engine.nodes wf) = true
                   /\ Dict.mem (Engine.target_id e) (Engine.nodes wf) = true)
         (Engine.edges wf).

(** An edge that is not a feedback edge leads from [u] to [v]. *)
Definition leads (es : list Engine.WorkflowEdge) (u v : string) : Prop :=
  v ∈ Graph.forward es u.

(** Some node of the workflow reaches, along edges that are not feedback
    edges, a vertex that lies on a cycle of such edges. *)
Definition cyclic (wf : Engine.Workflow) : Prop :=
  exists nid u, nid ∈ Dict.keys (Engine.nodes wf)
                /\ rtc (leads (Engine.edges wf)) nid u
                /\ tc (leads (Engine.edges wf)) u u.

(** During the search for a cycle: the vertices that are marked and no
    longer on the stack are closed under the edges and lie on no cycle. *)
Definition settled (es : list Engine.WorkflowEdge) (visited stack : gset string) : Prop :=
  forall u, u ∈ visited -> u ∉ stack ->
    (forall w, leads es u w -> w ∈ visited /\ w ∉ stack)
    /\ ~ tc (leads es) u u.

(** What a call of [is_cyclic] with nesting bound [d] does, when the
    vertices it can meet are those of [universe]: it returns; when it
    answers [False] it has marked [v] and more, restored the stack and left
    the marked vertices settled; when it answers [True], [v] reaches a
    cycle. *)
Definition call_spec (es : list Engine.WorkflowEdge) (universe : gset string) (d : nat) : Prop :=
  forall v visited stack,
    stack ⊆ visited -> v ∉ visited -> v ∈ universe ->
    settled es visited stack ->
    (forall u, u ∈ stack -> rtc (leads es) u v) ->
    (size (universe ∖ visited) < d)%nat ->
    exists b visited' stack',
      Graph.is_cyclic es d v visited stack = Some (Py.Ok (b, visited', stack'))
      /\ (b = false ->
          visited ⊆ visited' /\ v ∈ visited' /\ stack' = stack /\ settled es visited' stack')
      /\ (b = true -> exists u, rtc (leads es) v u /\ tc (leads es) u u).

(** *** Engine *)

(** A queued node that cannot start: it is a node of the workflow, it is
    not COMPLETE, and some required predecessor is not in [completed]. *)
Definition blocked (es : list Engine.WorkflowEdge) (st : Engine.State) (v : string) : Prop :=
  exists n, Dict.get v (Engine.st_nodes st) = Some n
            /\ Engine.status n <> Engine.COMPLETE
            /\ Engine.ready es v st = false.

(** *** Failover manager *)

(** The priorities of the candidates, read from the health records as the
    sort keys of [_get_fallback_candidates] read them, never go down along
    the list. *)
Fixpoint ascending (f : string * string -> Z) (l : list (string * string)) : Prop :=
  match l with
  | a :: (b :: _) as rest => f a <= f b /\ ascending f rest
  | _ => True
  end.

Definition priority_of (st : Failover.State) (c : string * string) : Z :=
  Failover.priority (Failover.health_of st c).

(** The key is registered with the manager. *)
Definition registered (st : Failover.State) (c : string * string) : Prop :=
  Dict.mem (key_of_pair c) (Failover.providers st) = true.

(** The records a pass of the automatic chain looks at, in order: those
    that are not filed under [key]. *)
Definition examined (key : string) (entries : list (string * Failover.ProviderHealth))
  : list (string * Failover.ProviderHealth) :=
  List.filter (fun e => negb (String.eqb (fst e) key)) entries.

(** What a pass of the automatic chain that begins at the clock reading
    [k0] lets through: the provider and model of the [i]-th record it looks
    at, when that record is out of its cooldown at the reading [k0 + i],
    which is the one [is_available] makes for it, and passes [keep]. *)
Definition let_through (w : Failover.World) (key : string)
           (entries : list (string * Failover.ProviderHealth)) (k0 : nat)
           (keep : Failover.ProviderHealth -> bool) (c : string * string) : Prop :=
  exists i pkey h,
    examined key entries !! i = Some (pkey, h)
    /\ c = (Failover.provider_id h, Failover.model h)
    /\ (Failover.cooldown_until h < Failover.clock w (k0 + i))%Q
    /\ keep h = true.

(** *** Model tiers *)

(** The first specification with a provider in the table of a category,
    and its provider. *)
Definition first_spec (category : Tiers.TaskCategory) : string :=
  match category with
  | Tiers.CODING | Tiers.GENERAL => "gpt-oss:120b"
  | _ => "google_ai_free:gemini-1.5-pro"
  end.

Definition first_provider (category : Tiers.TaskCategory) : string :=
  match category with
  | Tiers.CODING | Tiers.GENERAL => "gpt-oss"
  | _ => "google_ai_free"
  end.

(** *** Tool processor *)

(** A call stays inside the base directory: every path it is given begins
    with the base directory; [makedirs] may also be given the directory
    name of such a path. *)
Definition confined (base_dir : string) (op : Tools.FsOp) : Prop :=
  match op with
  | Tools.Makedirs p =>
      PyStr.startswith base_dir p = true
      \/ exists t, PyStr.startswith base_dir t = true /\ p = PosixPath.dirname t
  | _ => Forall (fun p => PyStr.startswith base_dir p = true) (Tools.op_paths op)
  end.

(** Consecutive elements of the list are joined by edges that are not
    feedback edges. *)
Fixpoint chain (es : list Engine.WorkflowEdge) (l : list string) : Prop :=
  match l with
  | a :: (b :: _) as rest => leads es a b /\ chain es rest
  | _ => True
  end.

(** *** Tags *)

(** The pattern begins with the literal character [<]. *)
Definition opens_with_lt (r : Re.regex) : Prop :=
  exists l r2, r = Re.Seq (Re.Lit (String "<"%char l)) r2
               \/ r = Re.Seq (Re.LitCI (String "<"%char l)) r2.

(** *** Durations *)

(** The string consists of decimal digits. *)
Fixpoint all_digits (s : string) : bool :=
  match s with
  | EmptyString => true
  | String c s' => PyStr.is_digit c && all_digits s'
  end.

(** The number a string of decimal digits spells, read after [acc]. *)
Fixpoint number_from (acc : Z) (s : string) : Z :=
  match s with
  | EmptyString => acc
  | String c s' => number_from (10 * acc + Z.of_nat (nat_of_ascii c - 48)) s'
  end.

Definition number_of (s : string) : Z := number_from 0 s.

(* ===================================================================== *)
(** ** Further sample data *)
(* ===================================================================== *)

Module Cases.

Definition failed_node (i ty err : string) : Engine.WorkflowNode :=
  Engine.mkNode i i ty false None false Engine.FAILED None (Some err) 1 1 [].

Definition waiting_node (i ty : string) : Engine.WorkflowNode :=
  Engine.mkNode i i ty true None false Engine.WAITING_FOR_APPROVAL None None 1 1 [].

(** The run of [Samples.starved] when [a] has failed and [w] has completed:
    [v] is queued and waits for [p], which nothing will start. *)
Definition starved_waiting : Engine.State :=
  Engine.mkState
    [("a", failed_node "a" "agent" "provider unavailable");
     ("w", Samples.done_node "w" "agent" "fine");
     ("p", Samples.node "p" "agent"); ("v", Samples.node "v" "output")]%string
    {[ "w"%string ]} [("__input__", "topic"); ("w", "fine")]%string ["v"%string] ∅
    false None [] 0 [].

(** A workflow as an interrupted run left it: [in] is COMPLETE, [draft]
    FAILED, [review] waits for approval and [out] is IDLE. *)
Definition interrupted : Engine.Workflow :=
  Engine.mkWorkflow
    [("in", Samples.done_node "in" "input" "topic");
     ("draft", failed_node "draft" "agent" "provider unavailable");
     ("review", waiting_node "review" "agent");
     ("out", Samples.node "out" "output")]%string
    [Engine.mkEdge "in" "draft" false; Engine.mkEdge "in" "review" false;
     Engine.mkEdge "draft" "out" false; Engine.mkEdge "review" "out" false].

(** A record of three successes and one failure. *)
Definition used_health : Failover.ProviderHealth :=
  Failover.mkHealth "groq" "groq" "llama3-8b-8192" 3 1 0 0 0 20 0.

(** The failover manager in front of the tier manager of model_tiers.py,
    which has recorded no usage and no cooldown; every call of the task
    returns a rate-limit error and the clock stands at one second. *)
Definition tiered_world : Failover.World :=
  Failover.mkWorld
    (fun _ => 1%Q)
    (fun _ _ _ => Failover.TReturn (Py.VStr "Error: rate limit exceeded"))
    true
    (fun _ cat current =>
       match Tiers.category_of cat with
       | Some c => fst (Tiers.get_best_available_model 1 c (Some current) Tiers.fresh)
       | None => None
       end).

(** A node that may run [n] times. *)
Definition looping_node (i ty : string) (n : Z) : Engine.WorkflowNode :=
  Engine.mkNode i i ty false None false Engine.IDLE None None n 0 [].

(** The review loop: the writer and the critic may each run three times;
    the critic sends a draft back over the feedback edge or lets it through
    to the output. *)
Definition revising_loop : Engine.Workflow :=
  Engine.mkWorkflow
    [("in", Samples.node "in" "input"); ("writer", looping_node "writer" "agent" 3);
     ("critic", looping_node "critic" "auditor" 3); ("out", Samples.node "out" "output")]%string
    [Engine.mkEdge "in" "writer" false; Engine.mkEdge "writer" "critic" false;
     Engine.mkEdge "critic" "writer" true; Engine.mkEdge "critic" "out" false].

(** The digit 9, [n] times. *)
Fixpoint nines (n : nat) : string :=
  match n with
  | O => EmptyString
  | S n' => String "9"%char (nines n')
  end.

End Cases.
(* ===================================================================== *)
(** ** Properties of the agreement validator *)
(* ===================================================================== *)

Section ValidatorProps.
Import Validator.
Variable libs : Libs.



End ValidatorProps.



(** What the counterexample evaluates to. *)
Example validate_default_value_exception :
  Validator.validate Samples.plain_libs "two words" [Samples.rule_min_words_default]
  = Py.Raise (Py.mkExn Py.TypeError
      "int() argument must be a string, a bytes-like object or a real number, not 'NoneType'").
Proof. reflexivity. Qed.

(* ===================================================================== *)
(** ** Properties of the tool processor *)
(* ===================================================================== *)

Section ToolsProps.
Import Tools.
Variable base_dir : string.
Variable fs : Fs.

Lemma safe_path_none path :
  escapes_base base_dir path -> _safe_path base_dir path = None.
Proof. unfold escapes_base, _safe_path. by intros ->. Qed.

Lemma safe_path_some path target :
  _safe_path base_dir path = Some target -> PyStr.startswith base_dir target = true.
Proof.
  unfold _safe_path.
  destruct (PyStr.startswith base_dir _) eqn:H; simpl; [|discriminate].
  by intros [= <-].
Qed.

(** C4.  A file tag one of whose path arguments escapes the base directory
    is rejected: no call to the file system is issued for it, nothing is
    recorded as created or deleted, and a blocked [write_file] adds an
    entry to [results.errors]. *)
Theorem escaping_tag_rejected (t : FileTag) (st : State) :
  (exists p, In p (tag_paths t) /\ escapes_base base_dir p) ->
  ops (run_tag base_dir fs t st) = ops st
  /\ files_created (run_tag base_dir fs t st) = files_created st
  /\ files_deleted (run_tag base_dir fs t st) = files_deleted st
  /\ dirs_created (run_tag base_dir fs t st) = dirs_created st
  /\ (forall p c, t = TWriteFile p c ->
        errors (run_tag base_dir fs t st) = errors st ++ ["Blocked write: " +:+ p]).
Proof.
  intros [p [Hin Hesc]]. apply safe_path_none in Hesc.
  destruct t as [q c|q|q|q|q|q|q c|a b|a b]; simpl in Hin;
    repeat match goal with
           | H : _ \/ _ |- _ => destruct H as [H|H]
           | H : False |- _ => destruct H
           end; subst;
    cbn [run_tag]; unfold write_file, read_file, list_dir, create_dir, delete_file,
      delete_dir, append_file, copy, move;
    rewrite ?Hesc; try (destruct (_safe_path base_dir a));
    try (rewrite Hesc); simpl; repeat split; try reflexivity; try discriminate.
  intros p' c' [= -> ->]. reflexivity.
Qed.

Lemma attempt_within calls :
  forall st,
    Forall (within_base base_dir) calls -> Forall (within_base base_dir) (ops st) ->
    Forall (within_base base_dir) (ops (fst (attempt fs calls st))).
Proof.
  induction calls as [|op calls IH]; intros st Hcalls Hst; simpl; [done|].
  inversion Hcalls; subst.
  assert (Forall (within_base base_dir) (ops (issue op st))).
  { simpl. apply Forall_app. split; [done | by constructor]. }
  destruct (fs_fails fs op); simpl; [done | by apply IH].
Qed.

Ltac attempt_case :=
  match goal with
  | |- context [attempt fs ?calls ?st] =>
      let H := fresh "Hatt" in
      assert (H : Forall (within_base base_dir) (ops (fst (attempt fs calls st))));
      [ apply attempt_within; [repeat constructor; auto | assumption]
      | destruct (attempt fs calls st) as [? [?|]]; simpl in *; assumption ]
  end.

Lemma run_tag_within t st :
  Forall (within_base base_dir) (ops st) ->
  Forall (within_base base_dir) (ops (run_tag base_dir fs t st)).
Proof.
  intros Hst.
  destruct t as [q c|q|q|q|q|q|q c|a b|a b]; cbn [run_tag];
    unfold write_file, read_file, list_dir, create_dir, delete_file, delete_dir,
      append_file, copy, move.
  - destruct (_safe_path base_dir q) as [target|] eqn:Hs; [|done].
    apply safe_path_some in Hs. destruct (String.eqb _ _); [done|]. attempt_case.
  - destruct (_safe_path base_dir q) as [target|] eqn:Hs; [|done].
    destruct (fs_exists fs target); [|done]. attempt_case.
  - destruct (_safe_path base_dir q) as [target|] eqn:Hs; [|done].
    destruct (fs_exists fs target && fs_isdir fs target); [|done]. attempt_case.
  - destruct (_safe_path base_dir q) as [target|] eqn:Hs; [|done]. attempt_case.
  - destruct (_safe_path base_dir q) as [target|] eqn:Hs; [|done].
    apply safe_path_some in Hs.
    destruct (fs_exists fs target && fs_isfile fs target); [|done]. attempt_case.
  - destruct (_safe_path base_dir q) as [target|] eqn:Hs; [|done].
    apply safe_path_some in Hs.
    destruct (fs_exists fs target && fs_isdir fs target); [|done]. attempt_case.
  - destruct (_safe_path base_dir q) as [target|] eqn:Hs; [|done].
    apply safe_path_some in Hs. attempt_case.
  - destruct (_safe_path base_dir a) as [src|] eqn:Ha; [|done].
    destruct (_safe_path base_dir b) as [dst|] eqn:Hb; [|done].
    apply safe_path_some in Ha, Hb.
    destruct (fs_isdir fs src); attempt_case.
  - destruct (_safe_path base_dir a) as [src|] eqn:Ha; [|done].
    destruct (_safe_path base_dir b) as [dst|] eqn:Hb; [|done].
    apply safe_path_some in Ha, Hb. attempt_case.
Qed.

(** After [process_all], every write, append, deletion, copy or move that
    a file tag issued has its target under the base directory. *)
Lemma process_all_within output :
  Forall (within_base base_dir) (ops (process_all base_dir fs output)).
Proof.
  unfold process_all.
  assert (H : Forall (within_base base_dir) (ops init_state)) by constructor.
  revert H. generalize init_state.
  induction (file_tags output) as [|t ts IH]; intros st Hst; simpl; [done|].
  apply IH. by apply run_tag_within.
Qed.
End ToolsProps.

Lemma escaping_tag_rejected_witness :
  let t := Tools.TWriteFile "../etc/passwd" "x" in
  Tools.ops (Tools.run_tag "/srv/app" Samples.quiet_fs t Tools.init_state) = []
  /\ Tools.errors (Tools.run_tag "/srv/app" Samples.quiet_fs t Tools.init_state)
     = ["Blocked write: ../etc/passwd"%string].
Proof.
  intros t.
  destruct (escaping_tag_rejected "/srv/app" Samples.quiet_fs t Tools.init_state)
    as [Hops [_ [_ [_ Herr]]]].
  - exists "../etc/passwd"%string. split; [left; reflexivity | reflexivity].
  - split; [exact Hops | exact (Herr _ _ eq_refl)].
Defined.

(** The output of an agent asks for a write outside the base directory:
    the write is blocked and logged, the other tags are carried out. *)
Example sandbox_scenario :
  let st := Tools.process_all "/srv/app" Samples.quiet_fs
              "Saving. <write_file path='../etc/passwd'>x</write_file> <create_dir path='docs'/>" in
  Tools.ops st = [Tools.Makedirs "/srv/app/docs"]
  /\ Tools.files_created st = []
  /\ Tools.errors st = ["Blocked write: ../etc/passwd"%string]
  /\ Tools.logs st = ["Security: blocked write to ../etc/passwd"%string;
                      "Created directory: docs"%string].
Proof. vm_compute. repeat split. Qed.

(* ===================================================================== *)
(** ** Properties of the failover manager *)
(* ===================================================================== *)

Section FailoverProps.
Import Failover.
Variable w : World.
Variable config : FailoverConfig.

(** The trace only grows, and only the loop itself adds calls and sleeps. *)

Lemma update_health_success_trace key e st :
  trace (update_health key (record_success w e) st) = trace st.
Proof. unfold update_health. by destruct (Dict.get key (providers st)). Qed.

Lemma update_health_failure_trace key r st :
  trace (update_health key (record_failure w r) st) = trace st.
Proof. unfold update_health. by destruct (Dict.get key (providers st)). Qed.

Lemma collect_trace key keep entries :
  forall st, trace (snd (collect w key keep entries st)) = trace st.
Proof.
  induction entries as [|[pkey h] rest IH]; intros st; simpl; [done|].
  destruct (String.eqb pkey key); [apply IH|].
  destruct (negb (Qle_bool _ _)); simpl.
  - destruct (keep h).
    + specialize (IH (tick st)). destruct (collect w key keep rest (tick st)). simpl in *. done.
    + by rewrite IH.
  - by rewrite IH.
Qed.

Lemma automatic_trace pid m st :
  trace (snd (automatic_candidates w config pid m st)) = trace st.
Proof.
  unfold automatic_candidates.
  destruct (group_of config m) as [grp|].
  - pose proof (collect_trace (key_of pid m)
           (fun h => str_in (PyStr.lower (model h)) (lower_all (snd grp)))
           (providers st) st) as H1.
    destruct (collect w _ _ (providers st) st) as [same st1]. simpl in H1.
    destruct (sort_by _ same); simpl; [|done].
    pose proof (collect_trace (key_of pid m) (fun _ => true) (providers st1) st1) as H2.
    destruct (collect w _ _ (providers st1) st1) as [anyone st2]. simpl in *. congruence.
  - simpl.
    pose proof (collect_trace (key_of pid m) (fun _ => true) (providers st) st) as H2.
    destruct (collect w _ _ (providers st) st) as [anyone st2]. simpl in *. congruence.
Qed.

Lemma candidates_trace pid m cat st :
  exists extra,
    trace (snd (_get_fallback_candidates w config pid m cat st)) = trace st ++ extra
    /\ Forall silent extra.
Proof.
  unfold _get_fallback_candidates.
  destruct (Dict.get _ (fallback_chains st)).
  { exists []. by rewrite app_nil_r. }
  destruct (tier_answer w pid m cat st) as [[fb|]|].
  - exists [EvLimitHit pid]. split; [reflexivity | by repeat constructor].
  - exists []. rewrite app_nil_r. split; [|constructor]. by rewrite automatic_trace.
  - exists []. rewrite app_nil_r. split; [|constructor]. by rewrite automatic_trace.
Qed.

(** The fallback that is chosen has a key that was not attempted. *)
Lemma find_next_spec fallbacks attempts :
  forall st,
    trace (snd (find_next w fallbacks attempts st)) = trace st
    /\ forall nxt, fst (find_next w fallbacks attempts st) = Some nxt ->
                   ~ In (key_of_pair nxt) (map key_of_pair attempts).
Proof.
  induction fallbacks as [|[fp fm] rest IH]; intros st; simpl.
  - split; [done | discriminate].
  - destruct (str_in (key_of fp fm) _) eqn:Hin; simpl; [apply IH|].
    destruct (Dict.get (key_of fp fm) (providers st)) as [h|]; [|apply IH].
    destruct (negb (Qle_bool _ _)); simpl.
    + split; [done|]. intros nxt [= <-]. intros Hmem.
      assert (str_in (key_of fp fm) (map (fun a => key_of (fst a) (snd a)) attempts) = true).
      { unfold str_in. apply existsb_exists. exists (key_of fp fm). split; [exact Hmem|].
        apply String.eqb_refl. }
      congruence.
    + destruct (IH (tick st)) as [H1 H2]. split; [exact H1 | exact H2].
Qed.

Lemma skeleton_app a b : skeleton (a ++ b) = skeleton a ++ skeleton b.
Proof. unfold skeleton. apply List.filter_app. Qed.

Lemma task_calls_app a b : task_calls (a ++ b) = task_calls a ++ task_calls b.
Proof. unfold task_calls. apply flat_map_app. Qed.

Lemma silent_skeleton l : Forall silent l -> skeleton l = [].
Proof.
  induction 1 as [|e l He _ IH]; [done|].
  destruct e; simpl in *; try contradiction; exact IH.
Qed.

Lemma silent_task_calls l : Forall silent l -> task_calls l = [].
Proof.
  induction 1 as [|e l He _ IH]; [done|].
  destruct e; simpl in *; try contradiction; exact IH.
Qed.

Lemma silent_no_task l p m o : Forall silent l -> EvTask p m o ∉ l.
Proof.
  intros Hs Hin. rewrite Forall_forall in Hs. by specialize (Hs _ Hin).
Qed.

Lemma skeleton_subset e tr : e ∈ skeleton tr -> e ∈ tr.
Proof.
  unfold skeleton. intros H. apply list_elem_of_In in H. apply filter_In in H as [H _].
  by apply list_elem_of_In.
Qed.

Lemma classify_inl o v : classify o = inl v -> succeeded o = Some v.
Proof.
  unfold classify, succeeded, is_error_result.
  destruct o as [[| | |s|]|]; try (by intros [= <-]); try discriminate.
  destruct (PyStr.startswith "Error:" s); [discriminate | by intros [= <-]].
Qed.

Lemma classify_inr o e : classify o = inr e -> succeeded o = None.
Proof.
  unfold classify, succeeded, is_error_result.
  destruct o as [[| | |s|]|]; try discriminate; try done.
  by destruct (PyStr.startswith "Error:" s).
Qed.

Lemma attempts_split (attempts : list (string * string)) first :
  attempts <> [] -> attempts = removelast attempts ++ [List.last attempts first].
Proof. apply app_removelast_last. Qed.

(** The invariant of the loop, by induction on the iterations left. *)
Lemma attempt_loop_inv n cb cat first :
  forall attempts last_error st,
    attempts <> [] ->
    NoDup (map key_of_pair attempts) ->
    exists new,
      trace (snd (attempt_loop w config n cb cat first attempts last_error st))
      = trace st ++ new
      /\ loop_post (retry_delay config) n attempts new
                   (fst (attempt_loop w config n cb cat first attempts last_error st)).
Proof.
  induction n as [|n IH]; intros attempts last_error st Hne Hnd.
  - exists []. simpl. rewrite app_nil_r. split; [done|].
    constructor.
    + simpl. lia.
    + simpl. rewrite app_nil_r. rewrite (attempts_split attempts first Hne), map_app in Hnd.
      by apply NoDup_app in Hnd as [Hnd _].
    + constructor.
    + intros ? ? ? Hin. by apply elem_of_nil in Hin.
    + discriminate.
    + intros _. eexists. reflexivity.
  - cbn [attempt_loop].
    destruct (List.last attempts first) as [cp cm] eqn:Hlast.
    assert (Hsplit : attempts = removelast attempts ++ [(cp, cm)]).
    { rewrite <- Hlast. by apply attempts_split. }
    cbn [now fst snd].
    set (outcome := task w (step (tick st)) cp cm).
    set (st2 := emit (EvTask cp cm outcome) (tick (tick st))).
    assert (Hst2 : trace st2 = trace st ++ [EvTask cp cm outcome]) by reflexivity.
    destruct (classify outcome) as [v|err] eqn:Hcl.
    + (* the call succeeded *)
      apply classify_inl in Hcl.
      exists [EvTask cp cm outcome]. cbn [fst snd].
      rewrite update_health_success_trace. split; [exact Hst2|].
      constructor.
      * simpl. lia.
      * simpl. by rewrite <- Hsplit.
      * constructor.
      * intros p m o Hin _. apply list_elem_of_singleton in Hin. by rewrite Hin.
      * intros p m o [= <- <- <-]. split; [done|]. by rewrite Hcl.
      * intros H. by specialize (H cp cm outcome).
    + (* the call failed *)
      apply classify_inr in Hcl.
      set (st3 := update_health (key_of cp cm)
                                (record_failure w (detect_failure_reason err)) st2).
      assert (Hst3 : trace st3 = trace st ++ [EvTask cp cm outcome]).
      { unfold st3. by rewrite update_health_failure_trace. }
      destruct (candidates_trace cp cm cat st3) as [extra [Hextra Hsilent]].
      destruct (_get_fallback_candidates w config cp cm cat st3) as [fallbacks st4].
      cbn [snd] in Hextra.
      destruct (find_next_spec fallbacks attempts st4) as [Htr5 Hfresh].
      destruct (find_next w fallbacks attempts st4) as [[[np nm]|] st5].
      * (* a fallback was found *)
        cbn [fst snd] in Htr5, Hfresh.
        specialize (Hfresh _ eq_refl).
        set (st6 := if cb then emit (EvOnFailover cp cm np nm
                                       (reason_value (detect_failure_reason err))) st5
                    else st5).
        assert (Hst6 : exists cbev, trace st6 = trace st5 ++ cbev /\ Forall silent cbev).
        { unfold st6. destruct cb.
          - eexists [_]. split; [reflexivity | by repeat constructor].
          - exists []. by rewrite app_nil_r. }
        destruct Hst6 as [cbev [Hcb Hcbs]].
        set (st7 := emit (EvSleep (retry_delay config)) st6).
        destruct (IH (attempts ++ [(np, nm)]) (Some err) st7) as [rec [Hrec Hpost]].
        { by destruct attempts. }
        { rewrite map_app. apply NoDup_app. split; [done|]. split; [|apply NoDup_singleton].
          intros k Hk Hk'. apply list_elem_of_singleton in Hk'. subst k.
          apply Hfresh. by apply list_elem_of_In. }
        set (quiet := extra ++ cbev).
        assert (Hq : Forall silent quiet) by (by apply Forall_app).
        exists (EvTask cp cm outcome :: quiet ++ EvSleep (retry_delay config) :: rec).
        split.
        { rewrite Hrec. unfold st7. simpl. rewrite Hcb, Htr5, Hextra, Hst3. unfold quiet.
          rewrite <- ?app_assoc. simpl. by rewrite <- ?app_assoc. }
        destruct Hpost as [Hb Hd Hs Hsl Ha He].
        assert (Hsk : skeleton (EvTask cp cm outcome
                                  :: quiet ++ EvSleep (retry_delay config) :: rec)
                      = EvTask cp cm outcome :: EvSleep (retry_delay config) :: skeleton rec).
        { change (EvTask cp cm outcome :: quiet ++ EvSleep (retry_delay config) :: rec)
            with ([EvTask cp cm outcome] ++ quiet ++ [EvSleep (retry_delay config)] ++ rec).
          rewrite !skeleton_app, (silent_skeleton quiet Hq). reflexivity. }
        assert (Htc : task_calls (EvTask cp cm outcome
                                    :: quiet ++ EvSleep (retry_delay config) :: rec)
                      = (cp, cm) :: task_calls rec).
        { change (EvTask cp cm outcome :: quiet ++ EvSleep (retry_delay config) :: rec)
            with ([EvTask cp cm outcome] ++ quiet ++ [EvSleep (retry_delay config)] ++ rec).
          rewrite !task_calls_app, (silent_task_calls quiet Hq). reflexivity. }
        constructor; rewrite ?Hsk, ?Htc.
        -- simpl. lia.
        -- rewrite removelast_last in Hd. rewrite Hsplit in Hd.
           by rewrite <- app_assoc in Hd.
        -- by constructor.
        -- intros p m o Hin Hsucc.
           apply elem_of_cons in Hin as [Heq|Hin]; [injection Heq as -> -> ->; congruence|].
           apply elem_of_app in Hin as [Hin|Hin]; [by apply silent_no_task in Hin|].
           apply elem_of_cons in Hin as [Heq|Hin]; [discriminate|].
           specialize (Hsl p m o Hin Hsucc).
           rewrite !last_cons, Hsl. reflexivity.
        -- intros p m o. rewrite !last_cons.
           destruct (last (skeleton rec)) as [e|] eqn:Hl; [|discriminate].
           intros [= ->]. by apply Ha.
        -- intros Hno. apply He. intros p m o Hl. apply (Hno p m o).
           by rewrite !last_cons, Hl.
      * (* no fallback is left *)
        cbn [fst snd] in Htr5 |- *.
        exists (EvTask cp cm outcome :: extra). split.
        { rewrite Htr5, Hextra, Hst3. by rewrite <- app_assoc. }
        assert (Hsk : skeleton (EvTask cp cm outcome :: extra) = [EvTask cp cm outcome]).
        { change (EvTask cp cm outcome :: extra) with ([EvTask cp cm outcome] ++ extra).
          rewrite skeleton_app, (silent_skeleton extra Hsilent). reflexivity. }
        assert (Htc : task_calls (EvTask cp cm outcome :: extra) = [(cp, cm)]).
        { change (EvTask cp cm outcome :: extra) with ([EvTask cp cm outcome] ++ extra).
          rewrite task_calls_app, (silent_task_calls extra Hsilent). reflexivity. }
        constructor; rewrite ?Hsk, ?Htc.
        -- simpl. lia.
        -- by rewrite <- Hsplit.
        -- constructor.
        -- intros p m o Hin Hsucc.
           apply elem_of_cons in Hin as [Heq|Hin]; [by rewrite Heq|].
           by apply silent_no_task in Hin.
        -- intros p m o [= <- <- <-]. rewrite Hcl. split; [done|].
           eexists. reflexivity.
        -- intros H. by specialize (H cp cm outcome).
Qed.

Lemma execute_enabled pid m cb cat st :
  enabled config = true ->
  execute_with_failover w config pid m cb cat st
  = (Py.Ok (fst (attempt_loop w config (Z.to_nat (max_retries config + 1)) cb cat
                              (pid, m) [(pid, m)] None st)),
     snd (attempt_loop w config (Z.to_nat (max_retries config + 1)) cb cat
                       (pid, m) [(pid, m)] None st)).
Proof.
  intros Hen. unfold execute_with_failover. rewrite Hen. cbn [negb].
  by destruct (attempt_loop w config _ cb cat (pid, m) [(pid, m)] None st).
Qed.

(** C5 (amended).  With failover enabled, [execute_with_failover] calls
    the task at most [max_retries + 1] times, never twice for the same
    key, sleeps [retry_delay] between two consecutive calls, and when a
    call succeeds it is the last one and its result is returned together
    with the pair it was made with. *)
Theorem failover_attempts (pid m : string) (cb : bool) (cat : option string) (st : State) :
  enabled config = true ->
  exists ans st' new,
    execute_with_failover w config pid m cb cat st = (Py.Ok ans, st')
    /\ trace st' = trace st ++ new
    /\ (length (task_calls new) <= Z.to_nat (max_retries config + 1))%nat
    /\ NoDup (map key_of_pair (task_calls new))
    /\ well_spaced (retry_delay config) (skeleton new)
    /\ (forall p m' o v, EvTask p m' o ∈ new -> succeeded o = Some v ->
          last (skeleton new) = Some (EvTask p m' o) /\ ans = (v, p, m')).
Proof.
  intros Hen. rewrite (execute_enabled pid m cb cat st Hen).
  destruct (attempt_loop_inv (Z.to_nat (max_retries config + 1)) cb cat (pid, m)
                             [(pid, m)] None st) as [new [Htr Hpost]].
  { discriminate. }
  { apply NoDup_singleton. }
  destruct (attempt_loop w config _ cb cat (pid, m) [(pid, m)] None st) as [ans st'].
  cbn [fst snd] in *.
  exists ans, st', new. destruct Hpost as [Hb Hd Hs Hsl Ha He].
  split; [done|]. split; [done|]. split; [done|]. split; [done|]. split; [done|].
  intros p m' o v Hin Hsucc.
  assert (Hl : last (skeleton new) = Some (EvTask p m' o)) by (apply Hsl; [done | congruence]).
  split; [done|].
  destruct (Ha _ _ _ Hl) as [Hp Hv]. rewrite Hsucc in Hv.
  destruct ans as [[v' p'] m'']. unfold answer_pair, answer_value in *. simpl in *. congruence.
Qed.

Lemma exhausted_prefix e :
  PyStr.startswith "All failover attempts exhausted." (exhausted_message e) = true.
Proof. reflexivity. Qed.

(** C10 (amended).  With failover enabled, [execute_with_failover] does
    not raise, whatever the task does.  When every call of the task failed
    it returns a string that begins with "All failover attempts
    exhausted."; when the run ends on a call of the task (no fallback was
    found after it), the pair returned is the one of that call.
    [AgentNode.execute] binds the string to [output] and processes it like
    any other output: without agreement rules the node reports success
    with the error text as its output. *)
Theorem failover_exhaustion_is_a_value (pid m : string) (cb : bool)
        (cat : option string) (st : State) :
  enabled config = true ->
  exists ans st' new,
    execute_with_failover w config pid m cb cat st = (Py.Ok ans, st')
    /\ trace st' = trace st ++ new
    /\ ((forall p m' o, EvTask p m' o ∈ new -> succeeded o = None) ->
        exists e, answer_value ans = Py.VStr (exhausted_message e)
                  /\ PyStr.startswith "All failover attempts exhausted."
                                      (exhausted_message e) = true)
    /\ (forall p m' o, last (skeleton new) = Some (EvTask p m' o) -> answer_pair ans = (p, m'))
    /\ (forall libs base fs rules tools backoffs out,
          cb = true ->
          answer_value ans = Py.VStr out ->
          fst (Agent.one_pass w config libs base fs pid m cat rules
                              (Agent.mkState st tools backoffs))
          = agent_processing libs rules out)
    /\ (forall libs out,
          agent_processing libs [] out
          = Agent.PReturn (Agent.mkResult true (Some (Agent._strip_thinking out)) None)).
Proof.
  intros Hen.
  pose proof (attempt_loop_inv (Z.to_nat (max_retries config + 1)) cb cat (pid, m)
                               [(pid, m)] None st) as Hinv.
  destruct Hinv as [new [Htr Hpost]]; [discriminate | apply NoDup_singleton |].
  pose proof (execute_enabled pid m cb cat st Hen) as Hrun.
  destruct (attempt_loop w config _ cb cat (pid, m) [(pid, m)] None st) as [ans st'].
  cbn [fst snd] in *.
  exists ans, st', new. destruct Hpost as [Hb Hd Hs Hsl Ha He].
  split; [exact Hrun|]. split; [exact Htr|]. split; [|split; [|split]].
  - intros Hall.
    assert (Hex : exists e, answer_value ans = Py.VStr (exhausted_message e)).
    { destruct (last (skeleton new)) as [[p m' o|d|? ? ? ? ?|?]|] eqn:Hl;
        try (apply He; intros; discriminate).
      assert (Hin : EvTask p m' o ∈ new).
      { apply skeleton_subset. by apply last_Some_elem_of. }
      specialize (Hall _ _ _ Hin). destruct (Ha _ _ _ eq_refl) as [_ Hv].
      by rewrite Hall in Hv. }
    destruct Hex as [e He']. exists e. split; [exact He' | apply exhausted_prefix].
  - intros p m' o Hl. by destruct (Ha _ _ _ Hl).
  - intros libs base fs rules tools backoffs out -> Hout.
    unfold Agent.one_pass. cbn [Agent.failover]. rewrite Hrun.
    destruct ans as [[v p'] m'']. unfold answer_value in Hout. simpl in Hout. subst v.
    unfold agent_processing.
    destruct (Validator.validate libs (Agent._strip_thinking out) rules) as [res|e]; [|done].
    by destruct (Validator.passed res).
  - intros libs out. reflexivity.
Qed.
End FailoverProps.

Lemma failover_attempts_witness :
  exists ans st',
    Failover.execute_with_failover Samples.primary_down_world Failover.default_config
      "claude_code" "opus" true None Failover.global_manager = (Py.Ok ans, st')
    /\ Failover.task_calls (Failover.trace st')
       = [("claude_code", "opus"); ("claude_code", "sonnet")]%string
    /\ ans = (Py.VStr "ok", "claude_code", "sonnet")%string.
Proof.
  destruct (failover_attempts Samples.primary_down_world Failover.default_config
              "claude_code" "opus" true None Failover.global_manager eq_refl)
    as [ans [st' [new [Hrun _]]]].
  exists ans, st'. split; [exact Hrun|].
  vm_compute in Hrun. injection Hrun as <- <-. split; reflexivity.
Defined.

(** C5, as stated, fails: with the default [max_retries = 3] and the
    fallback chain of the global manager, four pairs are tried when each of
    them fails. *)
Lemma failover_four_attempts :
  ~ (length (Failover.task_calls (Failover.trace (snd
        (Failover.execute_with_failover Samples.failing_world Failover.default_config
           "claude_code" "opus" true None Failover.global_manager))))
     <= Z.to_nat (Failover.max_retries Failover.default_config))%nat.
Proof. vm_compute. lia. Qed.

(** The four calls of that run, and the pair it hands back, which is the
    fifth of the chain and was never called. *)
Example failover_four_attempts_run :
  let run := Failover.execute_with_failover Samples.failing_world Failover.default_config
               "claude_code" "opus" true None Failover.global_manager in
  Failover.task_calls (Failover.trace (snd run))
  = [("claude_code", "opus"); ("claude_code", "sonnet");
     ("groq", "llama-3.3-70b-versatile"); ("google_ai", "gemini-1.5-pro")]%string
  /\ fst run
     = Py.Ok (Py.VStr "All failover attempts exhausted. Last error: Error: rate limit exceeded",
              "ollama", "deepseek-r1")%string.
Proof. vm_compute. split; reflexivity. Qed.

Lemma failover_exhaustion_is_a_value_witness :
  exists ans st',
    Failover.execute_with_failover Samples.failing_world Failover.default_config
      "groq" "mixtral-8x7b-32768" true None Samples.no_fallback_manager = (Py.Ok ans, st')
    /\ ans = (Py.VStr "All failover attempts exhausted. Last error: Error: rate limit exceeded",
              "groq", "mixtral-8x7b-32768")%string.
Proof.
  destruct (failover_exhaustion_is_a_value Samples.failing_world Failover.default_config
              "groq" "mixtral-8x7b-32768" true None Samples.no_fallback_manager eq_refl)
    as [ans [st' [new [Hrun _]]]].
  exists ans, st'. split; [exact Hrun|].
  vm_compute in Hrun. by injection Hrun as <- <-.
Defined.

(** C10, as stated, fails: with failover disabled in the configuration the
    task is called directly and its exception reaches the caller. *)
Lemma failover_disabled_raises :
  fst (Failover.execute_with_failover Samples.raising_world Samples.disabled_config
         "claude_code" "opus" true None Failover.global_manager)
  = Py.Raise (Py.mkExn Py.PlainException "connection refused").
Proof. reflexivity. Qed.

(** The agent node on a manager whose every attempt fails: the error text
    comes back as the output of a successful node. *)
Example agent_reports_exhaustion_as_output :
  fst (Agent.execute Samples.failing_world Failover.default_config Samples.plain_libs
         "/srv/app" Samples.quiet_fs "groq" "mixtral-8x7b-32768" None []
         (Agent.mkState Samples.no_fallback_manager [] 0))
  = Agent.mkResult true
      (Some "All failover attempts exhausted. Last error: Error: rate limit exceeded"%string)
      None.
Proof. vm_compute. reflexivity. Qed.
(* ===================================================================== *)
(** ** Properties of the workflow engine *)
(* ===================================================================== *)

Section EngineProps.
Import Engine.

Lemma while_queue_finished env es input fuel :
  forall st st', while_queue env es input fuel st = Finished st' -> queue st' = [].
Proof.
  induction fuel as [|fuel IH]; intros st st'; simpl.
  - destruct (queue st) eqn:Hq; [by intros [= <-] | discriminate].
  - destruct (queue st) eqn:Hq; [by intros [= <-]|].
    destruct (for_pass env es input _ _) as [st1|e]; [apply IH | discriminate].
Qed.

Lemma get_update_node key f d :
  Dict.get key (update_node key f d) = option_map f (Dict.get key d).
Proof.
  induction d as [|[k n] d IH]; simpl; [done|].
  destruct (String.eqb key k) eqn:Hk; simpl; rewrite Hk; [done | exact IH].
Qed.

Lemma inner_execute_node_queue env node_id node input ctx st :
  queue (snd (inner_execute_node env node_id node input ctx st)) = queue st.
Proof.
  unfold inner_execute_node.
  destruct (String.eqb (type node) "output").
  { destruct (save_path node) as [path|]; [|done].
    destruct (String.eqb path EmptyString); [done|].
    by destruct (save_output env (step st) path _). }
  destruct (String.eqb (type node) "input"); [done|].
  destruct (has_sub_workflows node); [done|].
  by destruct (runs_agent_node (type node)).
Qed.

Lemma execute_node_queue env node_id node input ctx st :
  queue (snd (_execute_node env node_id node input ctx st)) = queue st.
Proof.
  unfold _execute_node. destruct (escapes env (step st) node_id); [done|].
  pose proof (inner_execute_node_queue env node_id
                (default node (Dict.get node_id
                   (st_nodes (mutate node_id (set_status RUNNING) (tick st)))))
                input ctx (mutate node_id (set_status RUNNING) (tick st))) as H.
  destruct (inner_execute_node env node_id _ input ctx _) as [r st2]. exact H.
Qed.

(** After a failed step nothing is dispatched and nothing is routed. *)
Lemma finish_failed es node_id st r :
  result st = Some r -> success r = false ->
  (forall n, Dict.get node_id (st_nodes st) = Some n -> status n = FAILED) ->
  exists st',
    finish es node_id st = Py.Ok st'
    /\ queue st' = queue st /\ st_nodes st' = st_nodes st.
Proof.
  intros Hres Hfail Hstat. unfold finish.
  set (s := match Dict.get node_id (st_nodes st) with Some n => status n | None => IDLE end).
  set (st2 := with_completed _ _).
  assert (Hd : dispatch st2 = Py.Ok st2).
  { unfold dispatch. change (result st2) with (result st). by rewrite Hres, Hfail. }
  rewrite Hd. cbn [mbind res_bind Py.bind].
  eexists. split; [reflexivity|].
  assert (Hroute : route es node_id st2 = st2).
  { unfold route. change (st_nodes st2) with (st_nodes st).
    destruct (Dict.get node_id (st_nodes st)) as [n|] eqn:Hg; [|done].
    by rewrite (Hstat n eq_refl). }
  rewrite Hroute. by split.
Qed.

(** A run that finished with some fuel finishes in the same way with more. *)
Lemma while_queue_more_fuel env es input fuel :
  forall st st' extra,
    while_queue env es input fuel st = Finished st' ->
    while_queue env es input (fuel + extra) st = Finished st'.
Proof.
  induction fuel as [|fuel IH]; intros st st' extra; simpl.
  - destruct (queue st) eqn:Hq; [|discriminate]. intros [= <-].
    destruct extra; simpl; by rewrite Hq.
  - destruct (queue st) eqn:Hq; [done|].
    destruct (for_pass env es input _ _) as [st1|e]; [apply IH | discriminate].
Qed.

Lemma execute_more_fuel env wf input resume fuel extra r :
  execute env wf input resume fuel = Finished r ->
  execute env wf input resume (fuel + extra) = Finished r.
Proof.
  unfold execute.
  destruct (initial_state wf input resume) as [st0|e]; [|discriminate].
  destruct (while_queue env (edges wf) input fuel st0) as [st| |] eqn:Hw; try discriminate.
  intros [= <-]. by rewrite (while_queue_more_fuel _ _ _ _ _ _ extra Hw).
Qed.

(** When [execute] returns, the queue is empty and [success] is true
    exactly when every node of the workflow has status COMPLETE; the bound
    on the number of passes plays no part in the result.  A step in which
    the executor reports a failure marks the node FAILED, raises nothing and
    leaves the rest of the queue in place. *)
Lemma success_iff_all_complete :
  (forall env wf input resume fuel r,
      execute env wf input resume fuel = Finished r ->
      queue (run_final r) = []
      /\ run_nodes r = st_nodes (run_final r)
      /\ (run_success r = true <->
          forall n, In n (values (run_nodes r)) -> status n = COMPLETE)
      /\ forall extra, execute env wf input resume (fuel + extra) = Finished r)
  /\ (forall env es input node_id node ctx st r st1,
        _execute_node env node_id node input ctx st = (Returned r, st1) ->
        success r = false ->
        exists st',
          run_node env es input node_id node ctx st = Py.Ok st'
          /\ queue st' = queue st
          /\ forall n, Dict.get node_id (st_nodes st') = Some n -> status n = FAILED).
Proof.
  split.
  - intros env wf input resume fuel r Hrun.
    assert (Hmore : forall extra, execute env wf input resume (fuel + extra) = Finished r).
    { intros extra. by apply execute_more_fuel. }
    assert (Hend : queue (run_final r) = []
                   /\ run_nodes r = st_nodes (run_final r)
                   /\ (run_success r = true <->
                       forall n, In n (values (run_nodes r)) -> status n = COMPLETE)).
    { clear Hmore. revert Hrun. unfold execute.
      destruct (initial_state wf input resume) as [st0|e]; [|discriminate].
      destruct (while_queue env (edges wf) input fuel st0) as [st| |] eqn:Hw; try discriminate.
      intros [= <-]. simpl. split; [by apply while_queue_finished in Hw|]. split; [done|].
      unfold all_complete. rewrite forallb_forall. split; intros H n Hn; specialize (H n Hn).
      - by destruct (status n).
      - by rewrite H. }
    destruct Hend as [Hq [Hn Hiff]].
    split; [exact Hq|]. split; [exact Hn|]. split; [exact Hiff | exact Hmore].
  - intros env es input node_id node ctx st r st1 Hex Hfail.
    pose proof (execute_node_queue env node_id node input ctx st) as Hq.
    unfold run_node. rewrite Hex in *. simpl in Hq. rewrite Hfail.
    destruct (finish_failed es node_id
                (mark_failed node_id (r_error r) (with_result (Some r) st1)) r)
      as [st' [Hfin [Hqueue Hnodes]]]; [done | done | |].
    { intros n. cbn [mark_failed mutate with_nodes st_nodes with_result].
      rewrite get_update_node.
      destruct (Dict.get node_id (st_nodes st1)); simpl; [by intros [= <-] | discriminate]. }
    exists st'. split; [exact Hfin|]. split; [by rewrite Hqueue|].
    intros n. rewrite Hnodes. cbn [mark_failed mutate with_nodes st_nodes with_result].
    rewrite get_update_node.
    destruct (Dict.get node_id (st_nodes st1)); simpl; [by intros [= <-] | discriminate].
Qed.

(** The readiness test looks at the non-feedback edges only. *)
Lemma ready_ignores_feedback es node_id st :
  ready es node_id st = ready (List.filter (fun e => negb (feedback e)) es) node_id st.
Proof.
  unfold ready, required_predecessors.
  assert (H : List.filter (fun e => String.eqb (target_id e) node_id && negb (feedback e)) es
              = List.filter (fun e => String.eqb (target_id e) node_id && negb (feedback e))
                            (List.filter (fun e => negb (feedback e)) es)).
  { induction es as [|[src tgt fb] es IH]; [done|].
    cbn [List.filter feedback target_id].
    destruct fb; cbn [negb List.filter feedback target_id].
    - rewrite andb_false_r. exact IH.
    - rewrite andb_true_r.
      destruct (String.eqb tgt node_id); [f_equal|]; exact IH. }
  by rewrite <- H.
Qed.

(** A node that is dequeued while some required predecessor is not in
    [completed] goes back to the end of the queue and nothing else happens. *)
Lemma not_ready_is_requeued env es input node_id node st :
  Dict.get node_id (st_nodes st) = Some node ->
  status node <> COMPLETE ->
  ready es node_id st = false ->
  body env es input node_id st
  = Py.Ok (enqueue node_id (with_logged ({[ node_id ]} ∪ logged_waiting st) st)).
Proof.
  intros Hget Hstat Hready. unfold body. rewrite Hget.
  destruct (status_eqb (status node) COMPLETE) eqn:Hs.
  { by destruct (status node). }
  by rewrite Hready.
Qed.

Lemma while_queue_step env es input fuel st :
  queue st <> [] ->
  while_queue env es input (S fuel) st
  = match for_pass env es input (length (queue st)) (with_progress false st) with
    | Py.Raise e => Raised e
    | Py.Ok st' => while_queue env es input fuel (after_pass st')
    end.
Proof. intros Hq. simpl. by destruct (queue st). Qed.

(** A queue that holds one node that is not ready never empties. *)
Lemma lone_waiting_node_never_runs env es input v :
  forall fuel st n,
    queue st = [v] ->
    Dict.get v (st_nodes st) = Some n ->
    status n <> COMPLETE ->
    ready es v st = false ->
    while_queue env es input fuel st = OutOfFuel.
Proof.
  induction fuel as [|fuel IH]; intros st n Hq Hget Hstat Hready.
  - simpl. by rewrite Hq.
  - rewrite while_queue_step by (rewrite Hq; discriminate).
    rewrite Hq. cbn [length for_pass queue with_progress].
    rewrite Hq.
    rewrite (not_ready_is_requeued env es input v n) by done.
    cbn [mbind res_bind Py.bind].
    apply (IH _ n); done.
Qed.

(** With [resume = False] every node is reset and the queue is what
    [get_entry_nodes] returns. *)
Lemma fresh_start wf input :
  exists st,
    initial_state wf input false = Py.Ok st
    /\ queue st = get_entry_nodes wf
    /\ Forall (fun n => status n = IDLE /\ output n = None /\ error n = None)
              (values (st_nodes st)).
Proof.
  unfold initial_state. cbn [negb mbind res_bind Py.bind].
  eexists. split; [reflexivity|]. split; [reflexivity|].
  cbn [st_nodes]. unfold values. rewrite map_map.
  apply Forall_forall. intros n Hn. apply list_elem_of_In, in_map_iff in Hn as [kn [<- _]].
  by repeat split.
Qed.

(** Where no edge is a feedback edge, [get_entry_nodes] returns the entry
    nodes of the specification. *)
Lemma entry_nodes_without_feedback wf :
  Forall (fun e => feedback e = false) (edges wf) ->
  get_entry_nodes wf = spec_entry_nodes wf.
Proof.
  intros Hfb. unfold get_entry_nodes, spec_entry_nodes.
  apply filter_ext. intros nid. f_equal.
  unfold str_in. induction Hfb as [|e es He _ IH]; simpl; [done|].
  rewrite He, andb_true_r, IH. f_equal. apply String.eqb_sym.
Qed.

(** A node that is dequeued while COMPLETE with its iterations used up is
    skipped: the step changes nothing. *)
Lemma spent_node_is_skipped env es input node_id node st :
  Dict.get node_id (st_nodes st) = Some node ->
  status node = COMPLETE ->
  max_iterations node <= iteration_count node ->
  body env es input node_id st = Py.Ok st.
Proof.
  intros Hget Hstat Hle. unfold body. rewrite Hget, Hstat. cbn [status_eqb].
  destruct (iteration_count node <? max_iterations node) eqn:Hlt; [|done].
  apply Z.ltb_lt in Hlt. lia.
Qed.

End EngineProps.

(** A run need not end: in [starved] the node [v] is queued by [w] and then
    waits for [p] for ever, however many passes are allowed. *)
Lemma starved_run_never_ends :
  forall fuel,
    Engine.execute Samples.a_fails Samples.starved "topic" false fuel = Engine.OutOfFuel.
Proof.
  intros [|[|fuel]]; [reflexivity | vm_compute; reflexivity |].
  unfold Engine.execute.
  destruct (Engine.initial_state Samples.starved "topic" false) as [st0|e] eqn:Hinit;
    [|vm_compute in Hinit; discriminate].
  assert (Hq0 : Engine.queue st0 = ["a"; "w"]%string).
  { vm_compute in Hinit. by injection Hinit as <-. }
  rewrite while_queue_step by (rewrite Hq0; discriminate).
  rewrite Hq0.
  destruct (Engine.for_pass Samples.a_fails (Engine.edges Samples.starved) "topic" _ _)
    as [st1|e] eqn:Hpass.
  2: { vm_compute in Hinit. injection Hinit as <-. vm_compute in Hpass. discriminate. }
  assert (Hst1 : Engine.queue (Engine.after_pass st1) = ["v"%string]
                 /\ Dict.get "v" (Engine.st_nodes (Engine.after_pass st1))
                    = Some (Samples.node "v" "output")
                 /\ Engine.ready (Engine.edges Samples.starved) "v" (Engine.after_pass st1)
                    = false).
  { vm_compute in Hinit. injection Hinit as <-. vm_compute in Hpass. injection Hpass as <-.
    vm_compute. repeat split. }
  destruct Hst1 as [Hq1 [Hget Hready]].
  by rewrite (lone_waiting_node_never_runs _ _ _ "v" (S fuel) _ _ Hq1 Hget).
Qed.

(** C2, at a failing input.  In [starved] the node [a] fails.  Its step
    raises nothing and marks it FAILED, and the pass goes on with [w], which
    completes and queues [v].  But [p], the successor of the failed node, is
    never queued, since successors are queued after a COMPLETE step only,
    and [v] waits for it: every later pass puts [v] back and sleeps, and
    [execute] does not return, however many passes are allowed, so no
    result with [success] false is produced.  When no node fails, the same
    workflow runs to its end and the result has [success] true. *)
Lemma failed_node_starves_the_run :
  (exists st0 st1,
      Engine.initial_state Samples.starved "topic" false = Py.Ok st0
      /\ Engine.for_pass Samples.a_fails (Engine.edges Samples.starved) "topic" 2
                         (Engine.with_progress false st0) = Py.Ok st1
      /\ outline (Engine.trace st1)
         = [("a", None); ("a", Some Engine.FAILED);
            ("w", None); ("w", Some Engine.COMPLETE)]%string
      /\ map (fun kn => (fst kn, Engine.status (snd kn))) (Engine.st_nodes st1)
         = [("a", Engine.FAILED); ("w", Engine.COMPLETE);
            ("p", Engine.IDLE); ("v", Engine.IDLE)]%string
      /\ Engine.queue st1 = ["v"%string])
  /\ (forall fuel,
        Engine.execute Samples.a_fails Samples.starved "topic" false fuel = Engine.OutOfFuel)
  /\ exists r,
       Engine.execute (Samples.says "fine") Samples.starved "topic" false 10
       = Engine.Finished r
       /\ starts (Engine.run_trace r) = ["a"; "w"; "p"; "v"]%string
       /\ Engine.run_success r = true.
Proof.
  split; [|split; [exact starved_run_never_ends|]].
  - eexists _, _. split; [vm_compute; reflexivity|]. split; [vm_compute; reflexivity|].
    vm_compute. repeat split.
  - eexists. split; [vm_compute; reflexivity|]. vm_compute. repeat split.
Qed.

(** C6, at a failing input.  In the review loop the critic completes with
    a rejection marker in its output.  The feedback edge to the writer is
    not queued: the writer has run and is in [completed], and the routing
    loop passes over an edge whose target is in [completed] before it looks
    at the markers.  So the writer, which may run three times, runs once;
    the output node is not queued either and stays IDLE, and the run ends
    without success.  No output of an auditor queues a node that is in
    [completed], which every node that has run is. *)
Lemma rejected_draft_is_not_sent_back :
  PyStr.contains_any Engine.rejection_markers (PyStr.lower "needs_rework: too short") = true
  /\ (exists r,
        Engine.execute Samples.critic_rejects Cases.revising_loop "topic" false 10
        = Engine.Finished r
        /\ starts (Engine.run_trace r) = ["in"; "writer"; "critic"]%string
        /\ node_summary r "writer" = Some (Engine.COMPLETE, 1, 3)
        /\ node_summary r "critic" = Some (Engine.COMPLETE, 1, 3)
        /\ option_map Engine.output (Dict.get "critic" (Engine.run_nodes r))
           = Some (Some "needs_rework: too short"%string)
        /\ node_summary r "out" = Some (Engine.IDLE, 0, 1)
        /\ Engine.run_success r = false)
  /\ forall node_id out_lower st e,
       Engine.in_completed (Engine.target_id e) st = true ->
       Engine.route_edge node_id true out_lower st e = st.
Proof.
  split; [reflexivity|]. split.
  - eexists. split; [vm_compute; reflexivity|]. vm_compute. repeat split.
  - intros node_id out_lower st e Hc. unfold Engine.route_edge. rewrite Hc.
    by destruct (negb (String.eqb (Engine.source_id e) node_id)).
Qed.

(** C1, at a failing input.  In the diamond [u -> v <- w], [u] fails and [w]
    completes: [v] is handed to its executor although [u] never had status
    COMPLETE, because the engine adds a node to [completed] after its step
    whatever the outcome. *)
Lemma failed_predecessor_does_not_block :
  exists r,
    Engine.execute Samples.u_fails Samples.diamond "topic" false 10 = Engine.Finished r
    /\ outline (Engine.run_trace r)
       = [("u", None); ("u", Some Engine.FAILED);
          ("w", None); ("w", Some Engine.COMPLETE);
          ("v", None); ("v", Some Engine.COMPLETE)]%string
    /\ node_summary r "u" = Some (Engine.FAILED, 1, 1)
    /\ bool_decide ("u"%string ∈ Engine.completed (Engine.run_final r)) = true.
Proof.
  eexists. split; [vm_compute; reflexivity|]. vm_compute. repeat split.
Qed.

(** C3, at failing inputs.  The output of the only node carries a [sleep]
    tag whose duration is not a number: the ValueError of [int] leaves
    [execute].  And when an exception reaches the [except] of the first
    step, the statement after it reads [result], which was never assigned:
    an UnboundLocalError leaves [execute]. *)
Lemma execute_raises :
  Engine.execute (Samples.says "Done. <sleep duration='soon'/>") Samples.single "topic" false 10
  = Engine.Raised (Py.mkExn Py.ValueError "invalid literal for int() with base 10: 'oon'")
  /\ Engine.execute Samples.observer_fails Samples.single "topic" false 10
     = Engine.Raised (Py.mkExn Py.UnboundLocalError
         "cannot access local variable 'result' where it is not associated with a value").
Proof. split; vm_compute; reflexivity. Qed.

(** C7, at a failing input.  The writer of the review loop has one incoming
    edge, the feedback edge from the critic.  By the words of the
    specification it is an entry node; [get_entry_nodes] looks at all edges
    and finds none, so the queue starts empty and the run ends at once. *)
Lemma feedback_only_node_is_not_seeded :
  spec_entry_nodes Samples.review_loop = ["writer"%string]
  /\ Engine.get_entry_nodes Samples.review_loop = []
  /\ (exists st, Engine.initial_state Samples.review_loop "topic" false = Py.Ok st
                 /\ Engine.queue st = []
                 /\ Forall (fun n => Engine.status n = Engine.IDLE)
                           (Engine.values (Engine.st_nodes st)))
  /\ exists r,
       Engine.execute Samples.critic_rejects Samples.review_loop "topic" false 10
       = Engine.Finished r
       /\ Engine.run_trace r = [] /\ Engine.run_success r = false.
Proof.
  split; [reflexivity|]. split; [reflexivity|]. split.
  - eexists. split; [vm_compute; reflexivity|]. split; [reflexivity|]. repeat constructor.
  - eexists. split; [vm_compute; reflexivity|]. split; reflexivity.
Qed.

(** C9, at failing inputs.  The director sends the worker back to work: the
    dispatch resets the worker to IDLE, so the test on [iteration_count],
    which is made for COMPLETE nodes only, is not reached.  An agent worker
    ends with [iteration_count = 2] above [max_iterations = 1]; a script
    worker also runs twice and its [iteration_count] stays 0, since only
    [AgentNode] counts. *)
Lemma redispatched_worker_exceeds_max_iterations :
  (exists r,
      Engine.execute Samples.boss_redispatches (Samples.redispatch "agent") "topic" false 10
      = Engine.Finished r
      /\ starts (Engine.run_trace r) = ["worker"; "boss"; "worker"]%string
      /\ node_summary r "worker" = Some (Engine.COMPLETE, 2, 1))
  /\ (exists r,
        Engine.execute Samples.boss_redispatches (Samples.redispatch "script") "topic" false 10
        = Engine.Finished r
        /\ starts (Engine.run_trace r) = ["worker"; "boss"; "worker"]%string
        /\ node_summary r "worker" = Some (Engine.COMPLETE, 0, 1)).
Proof.
  split; (eexists; split; [vm_compute; reflexivity|]; vm_compute; repeat split).
Qed.

(* ===================================================================== *)
(** ** Properties of the workflow graph *)
(* ===================================================================== *)

(* [set_solver] clears hypotheses that are gone by then. *)
#[local] Set Warnings "-clear-no-such-hyp".

Section CycleCheck.
Import Engine Graph.
Variable es : list WorkflowEdge.

(** The vertices the search can meet. *)
Variable universe : gset string.
Hypothesis targets_in_universe : forall u v, leads es u v -> v ∈ universe.

Lemma settled_reach visited stack u x :
  settled es visited stack -> u ∈ visited -> u ∉ stack -> rtc (leads es) u x ->
  x ∈ visited /\ x ∉ stack.
Proof.
  intros Hs Hu Hn Hr. induction Hr as [|a b c Hab _ IH]; [done|].
  destruct (Hs a Hu Hn) as [Hcl _]. destruct (Hcl b Hab). by apply IH.
Qed.

Lemma size_shrinks (visited : gset string) v :
  v ∈ universe -> v ∉ visited ->
  (size (universe ∖ ({[ v ]} ∪ visited)) < size (universe ∖ visited))%nat.
Proof.
  intros Hu Hv. apply subset_size. set_solver.
Qed.

Lemma size_mono (visited visited' : gset string) :
  visited ⊆ visited' -> (size (universe ∖ visited') <= size (universe ∖ visited))%nat.
Proof. intros H. apply subseteq_size. set_solver. Qed.

Lemma neighbours_spec d v :
  call_spec es universe d ->
  forall ns visited stack,
    (forall w, w ∈ ns -> leads es v w) ->
    v ∈ stack -> stack ⊆ visited ->
    settled es visited stack ->
    (forall u, u ∈ stack -> rtc (leads es) u v) ->
    (size (universe ∖ visited) < d)%nat ->
    exists b visited' stack',
      neighbours (is_cyclic es d) ns visited stack = Some (Py.Ok (b, visited', stack'))
      /\ (b = false ->
          visited ⊆ visited' /\ stack' = stack /\ settled es visited' stack'
          /\ forall w, w ∈ ns -> w ∈ visited' /\ w ∉ stack)
      /\ (b = true -> exists u, rtc (leads es) v u /\ tc (leads es) u u).
Proof.
  intros Hcall. induction ns as [|n rest IH]; intros visited stack Hns Hv Hsub Hset Hpath Hsize.
  - exists false, visited, stack. cbn. split; [done|]. split; [|done].
    intros _. split; [done|]. split; [done|]. split; [done|]. intros w Hw. set_solver.
  - cbn [neighbours].
    assert (Hn : leads es v n) by (apply Hns; set_solver).
    assert (Hrest : forall w, w ∈ rest -> leads es v w) by (intros; apply Hns; set_solver).
    destruct (decide (n ∈ visited)) as [Hin|Hnin].
    + rewrite (bool_decide_eq_true_2 _ Hin). cbn [negb].
      destruct (decide (n ∈ stack)) as [Hst|Hnst].
      * rewrite (bool_decide_eq_true_2 _ Hst).
        exists true, visited, stack. split; [done|]. split; [done|]. intros _.
        exists n. split; [by apply rtc_once|].
        eapply tc_rtc_l; [apply Hpath, Hst|]. by apply tc_once.
      * rewrite (bool_decide_eq_false_2 _ Hnst).
        destruct (IH visited stack Hrest Hv Hsub Hset Hpath Hsize)
          as (b & vi & s & Heq & Hf & Ht).
        exists b, vi, s. split; [done|]. split; [|done].
        intros Hb. destruct (Hf Hb) as (H1 & H2 & H3 & H4).
        split; [done|]. split; [done|]. split; [done|].
        intros w Hw. apply elem_of_cons in Hw as [->|Hw]; [|by apply H4].
        split; [set_solver|done].
    + rewrite (bool_decide_eq_false_2 _ Hnin). cbn [negb].
      destruct (Hcall n visited stack Hsub Hnin (targets_in_universe _ _ Hn) Hset)
        as (b & vi & s & Heq & Hf & Ht); [|done|].
      { intros u Hu. eapply rtc_r; [by apply Hpath|done]. }
      rewrite Heq. destruct b.
      * exists true, vi, s. split; [done|]. split; [done|]. intros _.
        destruct (Ht eq_refl) as (u & Hr & Hc). exists u. split; [|done].
        by eapply rtc_l.
      * destruct (Hf eq_refl) as (H1 & H2 & -> & H4).
        destruct (IH vi stack Hrest Hv) as (b & vi' & s' & Heq' & Hf' & Ht'); try done.
        { set_solver. }
        { eapply Nat.le_lt_trans; [by apply size_mono|done]. }
        exists b, vi', s'. split; [done|]. split; [|done].
        intros Hb. destruct (Hf' Hb) as (G1 & G2 & G3 & G4).
        split; [set_solver|]. split; [done|]. split; [done|].
        intros w Hw. apply elem_of_cons in Hw as [->|Hw]; [|by apply G4].
        split; set_solver.
Qed.

Lemma is_cyclic_spec d : call_spec es universe d.
Proof.
  induction d as [|d IH]; intros v visited stack Hsub Hv Hu Hset Hpath Hsize; [lia|].
  cbn [is_cyclic].
  destruct (neighbours_spec d v IH (forward es v) ({[ v ]} ∪ visited) ({[ v ]} ∪ stack))
    as (b & vi & s & Heq & Hf & Ht).
  - done.
  - set_solver.
  - set_solver.
  - intros u Hu1 Hu2. destruct (Hset u) as [Hcl Hcy]; [set_solver..|].
    split; [|done]. intros w Hw. destruct (Hcl w Hw). split; [set_solver|].
    intros Hin. apply elem_of_union in Hin as [Hin|Hin]; [|done].
    apply elem_of_singleton in Hin. subst w. done.
  - intros u Hin. apply elem_of_union in Hin as [Hin|Hin]; [|by apply Hpath].
    apply elem_of_singleton in Hin. by subst u.
  - pose proof (size_shrinks visited v Hu Hv). lia.
  - rewrite Heq. destruct b.
    + exists true, vi, s. split; [done|]. split; [done|]. intros _. by apply Ht.
    + destruct (Hf eq_refl) as (H1 & -> & H3 & H4).
      rewrite bool_decide_eq_true_2 by set_solver.
      assert (Hvs : v ∉ stack) by set_solver.
      assert (Hstack : ({[ v ]} ∪ stack) ∖ {[ v ]} = stack).
      { apply set_eq. intros x. set_solver. }
      rewrite Hstack.
      exists false, vi, stack. split; [done|]. split; [|done]. intros _.
      split; [set_solver|]. split; [set_solver|]. split; [done|].
      intros u Hu1 Hu2.
      destruct (decide (u = v)) as [->|Hne].
      * split.
        -- intros w Hw. destruct (H4 w Hw). set_solver.
        -- intros Hc.
           assert (exists w, leads es v w /\ rtc (leads es) w v) as (w & Hw & Hr).
           { inversion Hc as [? ? Hl|? w ? Hl Ht']; subst.
             - exists v. by split.
             - exists w. split; [done|]. by apply tc_rtc. }
           destruct (H4 w Hw) as [Hwv Hws].
           destruct (settled_reach vi ({[ v ]} ∪ stack) w v H3 Hwv Hws Hr) as [_ Hbad].
           set_solver.
      * destruct (H3 u) as [Hcl Hcy]; [done|set_solver|].
        split; [|done]. intros w Hw. destruct (Hcl w Hw). set_solver.
Qed.

End CycleCheck.

Section ValidateProps.
Import Engine Graph.

Lemma leads_target es u v : leads es u v -> v ∈ map target_id es.
Proof.
  unfold leads, forward. intros H. apply list_elem_of_In in H. apply list_elem_of_In.
  apply in_map_iff in H as (e & <- & He). apply filter_In in He as [He _].
  by apply in_map.
Qed.

Lemma size_list_to_set_le (l : list string) :
  (size (list_to_set l : gset string) <= length l)%nat.
Proof.
  induction l as [|x l IH]; cbn.
  - by rewrite size_empty.
  - rewrite size_union_alt, size_singleton.
    assert (Hsub : list_to_set l ∖ {[ x ]} ⊆ (list_to_set l : gset string)) by set_solver.
    apply subseteq_size in Hsub. lia.
Qed.

Lemma validate_loop_spec es (universe : gset string) d :
  (forall u v, leads es u v -> v ∈ universe) ->
  (size universe < d)%nat ->
  forall ns visited,
    (forall kn, kn ∈ ns -> fst kn ∈ universe) ->
    settled es visited ∅ ->
    (exists visited',
        validate_loop es d ns visited ∅ = Some (Py.Ok true)
        /\ visited ⊆ visited' /\ settled es visited' ∅
        /\ forall kn, kn ∈ ns -> fst kn ∈ visited')
    \/ (exists nid node u,
           (nid, node) ∈ ns /\ rtc (leads es) nid u /\ tc (leads es) u u
           /\ validate_loop es d ns visited ∅
              = Some (Py.Raise (Py.mkExn Py.ValueError
                                  ("Cycle detected involving node " +:+ name node)))).
Proof.
  intros Huniv Hsize. induction ns as [|[nid node] rest IH]; intros visited Hns Hset.
  - left. exists visited. cbn. split; [done|]. split; [done|]. split; [done|].
    intros kn Hkn. by apply elem_of_nil in Hkn.
  - cbn [validate_loop].
    assert (Hrest : forall kn, kn ∈ rest -> fst kn ∈ universe).
    { intros kn Hkn. apply Hns. by apply list_elem_of_further. }
    destruct (decide (nid ∈ visited)) as [Hin|Hnin].
    + rewrite (bool_decide_eq_true_2 _ Hin). cbn [negb].
      destruct (IH visited Hrest Hset) as [(vi & Heq & H1 & H2 & H3)|(n & nd & u & Hn & Hr & Hc & Heq)].
      * left. exists vi. split; [done|]. split; [done|]. split; [done|].
        intros kn Hkn. apply elem_of_cons in Hkn as [->|Hkn]; [|by apply H3].
        cbn. by apply H1.
      * right. exists n, nd, u. split; [by apply list_elem_of_further|]. done.
    + rewrite (bool_decide_eq_false_2 _ Hnin). cbn [negb].
      assert (Hnu : nid ∈ universe).
      { apply (Hns (nid, node)). apply list_elem_of_here. }
      assert (Hpath : forall u : string, u ∈ (∅ : gset string) -> rtc (leads es) u nid).
      { intros u Hu. by apply elem_of_empty in Hu. }
      assert (Hfuel : (size (universe ∖ visited) < d)%nat).
      { eapply Nat.le_lt_trans; [|exact Hsize]. apply subseteq_size.
        intros x Hx. apply elem_of_difference in Hx. tauto. }
      assert (Hempty : (∅ : gset string) ⊆ visited).
      { intros x Hx. by apply elem_of_empty in Hx. }
      destruct (is_cyclic_spec es universe Huniv d nid visited ∅ Hempty Hnin Hnu Hset Hpath Hfuel)
        as (b & vi & s & Heq & Hf & Ht).
      rewrite Heq. destruct b.
      * right. destruct (Ht eq_refl) as (u & Hr & Hc).
        exists nid, node, u. split; [apply list_elem_of_here|]. done.
      * destruct (Hf eq_refl) as (H1 & H2 & -> & H4).
        destruct (IH vi Hrest H4) as [(vi' & Heq' & G1 & G2 & G3)|(n & nd & u & Hn & Hr & Hc & Heq')].
        -- left. exists vi'. split; [done|]. split; [by etrans|]. split; [done|].
           intros kn Hkn. apply elem_of_cons in Hkn as [->|Hkn]; [|by apply G3].
           cbn. by apply G1.
        -- right. exists n, nd, u. split; [by apply list_elem_of_further|]. done.
Qed.

End ValidateProps.

(** The two ways in which [validate] ends when cycles are not allowed. *)
Lemma validate_outcome (wf : Engine.Workflow) :
  (Graph.validate wf false = Some (Py.Ok true) /\ ~ cyclic wf)
  \/ (exists nid node u,
         (nid, node) ∈ Engine.nodes wf
         /\ rtc (leads (Engine.edges wf)) nid u /\ tc (leads (Engine.edges wf)) u u
         /\ Graph.validate wf false
            = Some (Py.Raise (Py.mkExn Py.ValueError
                                ("Cycle detected involving node " +:+ Engine.name node)))).
Proof.
  set (es := Engine.edges wf).
  set (universe := list_to_set (Dict.keys (Engine.nodes wf) ++ map Engine.target_id es) : gset string).
  assert (Huniv : forall u v, leads es u v -> v ∈ universe).
  { intros u v H. apply leads_target in H. apply elem_of_list_to_set, elem_of_app. by right. }
  assert (Hsize : (size universe < S (length (Engine.nodes wf) + length es))%nat).
  { pose proof (size_list_to_set_le (Dict.keys (Engine.nodes wf) ++ map Engine.target_id es)) as H.
    rewrite length_app in H. unfold Dict.keys in H. rewrite !length_map in H.
    apply Nat.lt_succ_r. exact H. }
  assert (Hkeys : forall kn, kn ∈ Engine.nodes wf -> fst kn ∈ universe).
  { intros kn Hkn. apply elem_of_list_to_set, elem_of_app. left.
    unfold Dict.keys. apply list_elem_of_fmap. by exists kn. }
  assert (Hstart : settled es ∅ ∅).
  { intros u Hu. by apply elem_of_empty in Hu. }
  unfold Graph.validate. cbn [negb].
  destruct (validate_loop_spec es universe _ Huniv Hsize (Engine.nodes wf) ∅ Hkeys Hstart)
    as [(vi & Heq & _ & Hset & Hall)|(nid & node & u & Hn & Hr & Hc & Heq)].
  - left. split; [done|].
    intros (nid & u & Hnid & Hr & Hc).
    apply list_elem_of_fmap in Hnid as (kn & -> & Hkn).
    assert (Hv : fst kn ∈ vi) by by apply Hall.
    destruct (settled_reach es vi ∅ (fst kn) u Hset Hv) as [Hu _]; [set_solver|done|].
    destruct (Hset u Hu) as [_ Hcy]; [set_solver|]. done.
  - right. by exists nid, node, u.
Qed.

(** X1.  [Workflow.validate] (workflow.py, lines 229-260).  With
    [allow_cycles] it answers [True] for every workflow.  Without, it always
    comes to an end within the nesting bound, never with a KeyError from
    [current_stack.remove], and it raises the ValueError ["Cycle detected
    involving node ..."] exactly when some node of the workflow reaches a
    cycle of edges that are not feedback edges; the node it names is one
    that reaches such a cycle.  Otherwise it returns [True]. *)
Theorem validate_detects_cycles (wf : Engine.Workflow) :
  Graph.validate wf true = Some (Py.Ok true)
  /\ (Graph.validate wf false = Some (Py.Ok true) <-> ~ cyclic wf)
  /\ ((exists nid node u,
          (nid, node) ∈ Engine.nodes wf
          /\ rtc (leads (Engine.edges wf)) nid u /\ tc (leads (Engine.edges wf)) u u
          /\ Graph.validate wf false
             = Some (Py.Raise (Py.mkExn Py.ValueError
                                 ("Cycle detected involving node " +:+ Engine.name node))))
      <-> cyclic wf).
Proof.
  split; [done|].
  destruct (validate_outcome wf) as [[Heq Hno]|(nid & node & u & Hn & Hr & Hc & Heq)].
  - split; [by split|]. split; [|done].
    intros (nid & node & u & _ & _ & _ & Heq'). congruence.
  - assert (Hyes : cyclic wf).
    { exists nid, u. split; [|done]. unfold Dict.keys. apply list_elem_of_fmap.
      by exists (nid, node). }
    split.
    + split; [|done]. intros Heq'. congruence.
    + split; [done|]. intros _. by exists nid, node, u.
Qed.

Section GraphEdits.
Import Engine Graph.

Lemma dict_get_set_same {V} k (v : V) d : Dict.get k (Dict.set k v d) = Some v.
Proof.
  induction d as [|[k' v'] d IH]; cbn.
  - by rewrite String.eqb_refl.
  - destruct (String.eqb k k') eqn:E; cbn; rewrite ?String.eqb_refl, ?E; done.
Qed.

Lemma dict_get_set_other {V} k k' (v : V) d :
  k' <> k -> Dict.get k' (Dict.set k v d) = Dict.get k' d.
Proof.
  intros Hne. induction d as [|[k0 v0] d IH]; cbn.
  - destruct (String.eqb k' k) eqn:E; [|done]. apply String.eqb_eq in E. done.
  - destruct (String.eqb k k0) eqn:E; cbn.
    + apply String.eqb_eq in E. subst k0.
      destruct (String.eqb k' k) eqn:E'; [|done]. apply String.eqb_eq in E'. done.
    + by rewrite IH.
Qed.

Lemma dict_mem_set {V} k k' (v : V) d :
  Dict.mem k' d = true -> Dict.mem k' (Dict.set k v d) = true.
Proof.
  unfold Dict.mem. destruct (String.eqb_spec k' k) as [->|Hne].
  - by rewrite dict_get_set_same.
  - by rewrite dict_get_set_other.
Qed.

Lemma dict_get_del_other {V} k k' (d : Dict.t V) :
  k' <> k -> Dict.get k' (del k d) = Dict.get k' d.
Proof.
  intros Hne. induction d as [|[k0 v0] d IH]; cbn; [done|].
  destruct (String.eqb k k0) eqn:E; cbn.
  - apply String.eqb_eq in E. subst k0.
    destruct (String.eqb k' k) eqn:E'; [|done]. apply String.eqb_eq in E'. done.
  - by rewrite IH.
Qed.

Lemma dict_get_none_keys {V} k (d : Dict.t V) :
  Dict.get k d = None <-> k ∉ Dict.keys d.
Proof.
  induction d as [|[k0 v0] d IH]; cbn.
  - split; [|done]. intros _ H. by apply elem_of_nil in H.
  - destruct (String.eqb_spec k k0) as [->|Hne].
    + split; [done|]. intros H. exfalso. apply H. apply list_elem_of_here.
    + rewrite IH. split.
      * intros H Hin. apply elem_of_cons in Hin as [?|?]; done.
      * intros H Hin. apply H. by apply list_elem_of_further.
Qed.

Lemma dict_get_del_same {V} k (d : Dict.t V) :
  NoDup (Dict.keys d) -> Dict.get k (del k d) = None.
Proof.
  induction d as [|[k0 v0] d IH]; cbn; [done|]. intros Hnd.
  apply NoDup_cons in Hnd as [Hk0 Hnd].
  destruct (String.eqb_spec k k0) as [->|Hne].
  - by apply dict_get_none_keys.
  - cbn. destruct (String.eqb_spec k k0); [done|]. by apply IH.
Qed.

Lemma del_absent {V} k (d : Dict.t V) : Dict.get k d = None -> del k d = d.
Proof.
  induction d as [|[k0 v0] d IH]; cbn; [done|].
  destruct (String.eqb k k0); [done|]. intros H. by rewrite IH.
Qed.

Lemma del_set_fresh {V} k (v : V) d : Dict.get k d = None -> del k (Dict.set k v d) = d.
Proof.
  induction d as [|[k0 v0] d IH]; cbn.
  - by rewrite String.eqb_refl.
  - destruct (String.eqb k k0) eqn:E; [done|]. intros H. cbn. rewrite E. by rewrite IH.
Qed.

(** X2.  [Workflow.add_node], [add_edge] and [remove_node] (workflow.py,
    lines 183-202): [add_edge] raises its ValueError exactly for an edge
    one of whose ends is not a node, and each of the three edits, applied to
    a workflow all of whose edges join nodes of the workflow, yields such a
    workflow again. *)
Theorem edits_keep_edges_closed (wf : Workflow) :
  edges_closed wf ->
  (forall node, edges_closed (add_node node wf))
  /\ (forall edge,
        (Dict.mem (source_id edge) (nodes wf) && Dict.mem (target_id edge) (nodes wf) = false
         -> add_edge edge wf
            = Py.Raise (Py.mkExn Py.ValueError "Edge references non-existent nodes"))
        /\ (Dict.mem (source_id edge) (nodes wf) && Dict.mem (target_id edge) (nodes wf) = true
            -> exists wf', add_edge edge wf = Py.Ok wf'
                           /\ nodes wf' = nodes wf /\ edges wf' = edges wf ++ [edge]
                           /\ edges_closed wf'))
  /\ (forall node_id, edges_closed (remove_node node_id wf)).
Proof.
  intros Hc. split; [|split].
  - intros node. unfold edges_closed, add_node in *. cbn.
    eapply Forall_impl; [exact Hc|]. intros e [Hs Ht]. split; by apply dict_mem_set.
  - intros edge. unfold add_edge. split.
    + intros H. apply andb_false_iff in H as [->| ->]; cbn; [done|].
      by rewrite orb_true_r.
    + intros H. apply andb_true_iff in H as [Hs Ht]. rewrite Hs, Ht. cbn.
      eexists. split; [done|]. cbn. split; [done|]. split; [done|].
      unfold edges_closed in *. cbn. apply Forall_app. split; [done|].
      by apply Forall_singleton.
  - intros node_id. unfold remove_node.
    destruct (Dict.mem node_id (nodes wf)) eqn:Hm; [|done].
    unfold edges_closed in *. cbn.
    apply Forall_forall. intros e He. apply list_elem_of_In, filter_In in He as [He Hf].
    apply andb_true_iff in Hf as [Hs Ht].
    apply negb_true_iff in Hs, Ht.
    apply list_elem_of_In in He.
    pose proof (proj1 (Forall_forall _ _) Hc e He) as [Hes Het].
    unfold Dict.mem in *.
    assert (Hsn : source_id e <> node_id).
    { intros E. rewrite E, String.eqb_refl in Hs. done. }
    assert (Htn : target_id e <> node_id).
    { intros E. rewrite E, String.eqb_refl in Ht. done. }
    by rewrite !dict_get_del_other.
Qed.

(** X3.  [Workflow.remove_node] (workflow.py, lines 189-194).  Removing a
    node of the workflow leaves no entry for it and no edge from or to it,
    keeps every other node and keeps the other edges in their order;
    removing an identifier that is not a node changes nothing, whatever the
    edges mention. *)
Theorem remove_node_erases (wf : Workflow) (node_id : string) :
  NoDup (Dict.keys (nodes wf)) ->
  let wf' := remove_node node_id wf in
  Dict.get node_id (nodes wf') = None
  /\ (forall other, other <> node_id -> Dict.get other (nodes wf') = Dict.get other (nodes wf))
  /\ (Dict.mem node_id (nodes wf) = true ->
      edges wf'
      = List.filter (fun e => negb (String.eqb (source_id e) node_id)
                              && negb (String.eqb (target_id e) node_id)) (edges wf)
      /\ (forall other, (node_id ∉ get_successors (edges wf') other)
                        /\ (node_id ∉ get_predecessors (edges wf') other))
      /\ get_successors (edges wf') node_id = []
      /\ get_predecessors (edges wf') node_id = [])
  /\ (Dict.mem node_id (nodes wf) = false -> wf' = wf).
Proof.
  intros Hnd wf'. subst wf'. unfold remove_node.
  destruct (Dict.mem node_id (nodes wf)) eqn:Hm; cbn.
  - split; [by apply dict_get_del_same|].
    split; [intros other Hne; by apply dict_get_del_other|].
    split; [|done]. intros _. split; [done|].
    set (keep := fun e => negb (String.eqb (source_id e) node_id)
                          && negb (String.eqb (target_id e) node_id)).
    assert (Hkept : forall e, In e (List.filter keep (edges wf)) ->
                              source_id e <> node_id /\ target_id e <> node_id).
    { intros e He. apply filter_In in He as [_ Hk]. unfold keep in Hk.
      apply andb_true_iff in Hk as [Hs Ht]. apply negb_true_iff in Hs, Ht.
      split; intros E; [rewrite E, String.eqb_refl in Hs|rewrite E, String.eqb_refl in Ht]; done. }
    split; [|split].
    + intros other. unfold get_successors, get_predecessors. split.
      * intros Hin. apply list_elem_of_In, in_map_iff in Hin as (e & Heq & He).
        apply filter_In in He as [He _]. by destruct (Hkept e He).
      * intros Hin. apply list_elem_of_In, in_map_iff in Hin as (e & Heq & He).
        apply filter_In in He as [He _]. by destruct (Hkept e He).
    + unfold get_successors.
      destruct (List.filter _ (List.filter keep (edges wf))) as [|e l] eqn:E; [done|].
      assert (He : In e (List.filter (fun e0 => String.eqb (source_id e0) node_id)
                                     (List.filter keep (edges wf)))) by (rewrite E; by left).
      apply filter_In in He as [He Hs]. apply String.eqb_eq in Hs.
      by destruct (Hkept e He).
    + unfold get_predecessors.
      destruct (List.filter _ (List.filter keep (edges wf))) as [|e l] eqn:E; [done|].
      assert (He : In e (List.filter (fun e0 => String.eqb (target_id e0) node_id)
                                     (List.filter keep (edges wf)))) by (rewrite E; by left).
      apply filter_In in He as [He Hs]. apply String.eqb_eq in Hs.
      by destruct (Hkept e He).
  - unfold Dict.mem in Hm. destruct (Dict.get node_id (nodes wf)) eqn:Hg; [done|].
    split; [done|]. split; [done|]. split; [done|]. done.
Qed.

(** X4.  [Workflow.add_node] followed by [remove_node] (workflow.py, lines
    183-194): the node added is found under its identifier, the other
    entries and the edges are untouched, and removing it again gives back
    the workflow it was added to, provided the identifier was new and no edge
    mentioned it. *)
Theorem add_then_remove_node (wf : Workflow) (node : WorkflowNode) :
  Dict.get (id node) (nodes wf) = None ->
  Forall (fun e => source_id e <> id node /\ target_id e <> id node) (edges wf) ->
  Dict.get (id node) (nodes (add_node node wf)) = Some node
  /\ (forall other, other <> id node ->
                    Dict.get other (nodes (add_node node wf)) = Dict.get other (nodes wf))
  /\ edges (add_node node wf) = edges wf
  /\ remove_node (id node) (add_node node wf) = wf.
Proof.
  intros Hfresh Hedges. split; [apply dict_get_set_same|].
  split; [intros other Hne; by apply dict_get_set_other|]. split; [done|].
  unfold remove_node, add_node, Dict.mem. cbn. rewrite dict_get_set_same.
  rewrite del_set_fresh by done.
  destruct wf as [ns es]. cbn in *. f_equal.
  induction es as [|e es IH]; cbn; [done|].
  apply Forall_cons in Hedges as [[Hs Ht] Hrest].
  apply String.eqb_neq in Hs, Ht. rewrite Hs, Ht. cbn. f_equal. by apply IH.
Qed.

End GraphEdits.

(* ===================================================================== *)
(** ** Further properties of the engine's loop *)
(* ===================================================================== *)

Section QueueProps.
Import Engine.

Lemma str_in_elem_of x (l : list string) : str_in x l = true <-> x ∈ l.
Proof.
  unfold str_in. rewrite existsb_exists. split.
  - intros (y & Hy & E). apply String.eqb_eq in E. subst y. by apply list_elem_of_In.
  - intros H. exists x. split; [by apply list_elem_of_In|apply String.eqb_refl].
Qed.

Lemma NoDup_snoc_fresh (l : list string) x : NoDup l -> x ∉ l -> NoDup (l ++ [x]).
Proof.
  intros Hl Hx. apply NoDup_app. split; [done|]. split; [|apply NoDup_singleton].
  intros y Hy Hy'. apply list_elem_of_singleton in Hy'. by subst y.
Qed.

Lemma run_instr_queue st i st' :
  NoDup (queue st) -> run_instr st i = Py.Ok st' -> NoDup (queue st').
Proof.
  intros Hnd. destruct i as [target input|duration]; cbn [run_instr].
  - destruct (find _ (st_nodes st)) as [[k target_node]|]; [|by intros [= <-]].
    match goal with |- context [str_in ?t (queue ?s)] => destruct (str_in t (queue s)) eqn:Hq end.
    + by intros [= <-].
    + intros [= <-]. cbn. apply NoDup_snoc_fresh; [done|].
      intros Hin. apply str_in_elem_of in Hin. cbn [queue with_outputs with_completed with_nodes] in Hq.
      congruence.
  - destruct (sleep_seconds duration) as [z|e]; [|done]. cbn [mbind res_bind Py.bind].
    destruct (PyStr.format_int z) as [text|e]; [|done]. cbn [mbind res_bind Py.bind].
    unfold asyncio_sleep. destruct (z <=? 0); [by intros [= <-]|].
    destruct (float_overflow <=? z); [done|by intros [= <-]].
Qed.

Lemma run_instrs_queue instrs :
  forall st st', NoDup (queue st) -> run_instrs st instrs = Py.Ok st' -> NoDup (queue st').
Proof.
  induction instrs as [|i rest IH]; intros st st' Hnd; cbn [run_instrs].
  - by intros [= <-].
  - destruct (run_instr st i) as [st1|e] eqn:Hi; [|done]. cbn.
    intros H. eapply IH; [|exact H]. by eapply run_instr_queue.
Qed.

Lemma route_edge_queue node_id aud out st e :
  NoDup (queue st) -> NoDup (queue (route_edge node_id aud out st e)).
Proof.
  intros Hnd. unfold route_edge.
  destruct (negb (String.eqb (source_id e) node_id)); [done|].
  destruct (in_completed (target_id e) st); [done|]. cbn [orb].
  destruct (str_in (target_id e) (queue st)) eqn:Hq; [done|].
  assert (Hfresh : NoDup (queue (enqueue (target_id e) st))).
  { cbn. apply NoDup_snoc_fresh; [done|]. intros Hin. apply str_in_elem_of in Hin. congruence. }
  destruct aud, (feedback e); cbn [andb negb];
    repeat match goal with |- context [if ?c then _ else _] => destruct c end; done.
Qed.

Lemma route_queue es node_id st : NoDup (queue st) -> NoDup (queue (route es node_id st)).
Proof.
  intros Hnd. unfold route. destruct (Dict.get node_id (st_nodes st)) as [node|]; [|done].
  destruct (status_eqb (status node) COMPLETE); [|done].
  revert st Hnd. induction es as [|e es IH]; intros st Hnd; cbn [fold_left]; [done|].
  apply IH. by apply route_edge_queue.
Qed.

Lemma finish_queue es node_id st st' :
  NoDup (queue st) -> finish es node_id st = Py.Ok st' -> NoDup (queue st').
Proof.
  intros Hnd. unfold finish.
  match goal with |- context [dispatch ?s] => destruct (dispatch s) as [st3|e] eqn:Hd; [|done] end.
  cbn. intros [= <-]. cbn. apply route_queue.
  unfold dispatch in Hd. cbn [result with_completed emit] in Hd.
  destruct (result st) as [r|]; [|done].
  destruct (success r && truthy (r_output r)).
  - eapply run_instrs_queue; [|exact Hd]. done.
  - by injection Hd as <-.
Qed.

Lemma poll_approval_queue env es node_id st :
  NoDup (queue st) -> node_id ∉ queue st -> NoDup (queue (poll_approval env es node_id st)).
Proof.
  intros Hnd Hfresh. unfold poll_approval.
  assert (Hre : forall s, queue s = queue st -> NoDup (queue (enqueue node_id s))).
  { intros s Hs. cbn. rewrite Hs. by apply NoDup_snoc_fresh. }
  destruct (check_intervention env) as [check|]; [|by apply Hre].
  set (st2 := if truthy _ then _ else _).
  assert (Hq2 : queue st2 = queue st) by (subst st2; by destruct (truthy _)).
  destruct (check (step st) node_id) as [decision|]; [|by apply Hre].
  destruct (String.eqb decision "APPROVE").
  - match goal with |- context [fold_left ?f _ _] =>
      assert (Hfold : forall succs s0, NoDup (queue s0) -> NoDup (queue (fold_left f succs s0))) end.
    { induction succs as [|x succs IH]; intros s Hs; cbn [fold_left]; [done|]. apply IH.
      destruct (in_completed x s); [done|]. cbn [orb].
      destruct (str_in x (queue s)) eqn:Hq; [done|]. cbn.
      apply NoDup_snoc_fresh; [done|]. intros Hin. apply str_in_elem_of in Hin. congruence. }
    apply Hfold. cbn. by rewrite Hq2.
  - destruct (String.eqb decision "REJECT"); [cbn; by rewrite Hq2|by apply Hre].
Qed.

Lemma run_node_queue env es input node_id node ctx st st' :
  NoDup (queue st) -> node_id ∉ queue st ->
  run_node env es input node_id node ctx st = Py.Ok st' -> NoDup (queue st').
Proof.
  intros Hnd Hfresh. unfold run_node.
  pose proof (execute_node_queue env node_id node input ctx st) as Hq.
  destruct (_execute_node env node_id node input ctx st) as [outcome st1]. cbn in Hq.
  assert (Hnd1 : NoDup (queue st1)) by by rewrite Hq.
  destruct outcome as [r|msg]; [|by apply finish_queue].
  destruct (success r); [|by apply finish_queue].
  destruct (r_output r) as [out|]; [|by apply finish_queue].
  destruct (requires_approval node).
  - intros [= <-]. cbn. rewrite Hq. by apply NoDup_snoc_fresh.
  - destruct (agreement_rules node) as [|rule rules]; [by apply finish_queue|].
    destruct (Validator.validate _ _ _); by apply finish_queue.
Qed.

Lemma body_queue env es input node_id st st' :
  NoDup (queue st) -> node_id ∉ queue st ->
  body env es input node_id st = Py.Ok st' -> NoDup (queue st').
Proof.
  intros Hnd Hfresh. unfold body.
  destruct (Dict.get node_id (st_nodes st)) as [node|]; [|by intros [= <-]].
  set (recycled := if status_eqb _ _ then _ else _).
  assert (Hrec : forall st1, recycled = Some st1 -> queue st1 = queue st).
  { subst recycled. intros st1. destruct (status_eqb (status node) COMPLETE).
    - destruct (iteration_count node <? max_iterations node); [|done]. by intros [= <-].
    - by intros [= <-]. }
  destruct recycled as [st1|]; [|by intros [= <-]].
  specialize (Hrec st1 eq_refl).
  destruct (negb (ready es node_id st1)).
  { intros [= <-]. cbn. rewrite Hrec. by apply NoDup_snoc_fresh. }
  destruct (status_eqb _ WAITING_FOR_APPROVAL).
  { intros [= <-]. apply poll_approval_queue; by rewrite Hrec. }
  destruct (build_context es node_id _) as [ctx|e]; [|done]. cbn.
  apply run_node_queue; cbn; by rewrite Hrec.
Qed.

Lemma for_pass_queue env es input n :
  forall st st', NoDup (queue st) -> for_pass env es input n st = Py.Ok st' -> NoDup (queue st').
Proof.
  induction n as [|n IH]; intros st st' Hnd; cbn [for_pass]; [by intros [= <-]|].
  destruct (queue st) as [|node_id rest] eqn:Hq; [intros [= <-]; by rewrite Hq|].
  apply NoDup_cons in Hnd as [Hfresh Hrest].
  destruct (body env es input node_id (with_queue rest st)) as [st1|e] eqn:Hb; [|done]. cbn.
  apply IH. eapply body_queue; [| |exact Hb]; done.
Qed.

Lemma filter_NoDup (p : string -> bool) (l : list string) : NoDup l -> NoDup (List.filter p l).
Proof.
  induction 1 as [|x l Hx Hl IH]; cbn; [constructor|].
  destruct (p x); [|done]. constructor; [|done].
  intros Hin. apply Hx. apply list_elem_of_In in Hin. apply filter_In in Hin as [Hin _].
  by apply list_elem_of_In.
Qed.

Lemma idle_successors_queue ns succs :
  forall q q', NoDup q -> idle_successors ns succs q = Py.Ok q' -> NoDup q'.
Proof.
  induction succs as [|s rest IH]; intros q q' Hq; cbn [idle_successors]; [by intros [= <-]|].
  destruct (Dict.get s ns) as [n|]; [|done]. apply IH.
  destruct (status_eqb (status n) IDLE); [|done]. cbn [andb].
  destruct (str_in s q) eqn:Hin; [done|]. cbn [negb].
  apply NoDup_snoc_fresh; [done|]. intros H. apply str_in_elem_of in H. congruence.
Qed.

Lemma resume_queue_NoDup (ns : Dict.t WorkflowNode) es done' :
  NoDup (Dict.keys ns) -> NoDup (resume_queue ns es done').
Proof.
  unfold resume_queue, Dict.keys.
  induction ns as [|[k n] ns IH]; cbn [flat_map map fst]; [intros; constructor|].
  intros Hnd. apply NoDup_cons in Hnd as [Hk Hnd]. specialize (IH Hnd).
  assert (Hsub : forall x, x ∈ flat_map
                   (fun kn : string * WorkflowNode =>
                      let (nid, node) := kn in
                      if status_eqb (status node) WAITING_FOR_APPROVAL then [nid]
                      else if status_eqb (status node) IDLE then
                        match get_predecessors es nid with
                        | [] => []
                        | _ :: _ =>
                            if forallb (fun p => bool_decide (p ∈ done')) (get_predecessors es nid)
                            then [nid] else []
                        end
                      else []) ns -> x ∈ map fst ns).
  { intros x Hx. apply list_elem_of_In, in_flat_map in Hx as ([k' n'] & Hin & Hx).
    apply list_elem_of_In. apply in_map_iff. exists (k', n'). split; [|done]. cbn.
    repeat match type of Hx with
           | In _ (if ?c then _ else _) => destruct c
           | In _ (match ?l with [] => _ | _ :: _ => _ end) => destruct l
           end; cbn in Hx; intuition. }
  assert (Hhead : forall l : list string, (l = [] \/ l = [k]) -> NoDup (l ++ flat_map
                   (fun kn : string * WorkflowNode =>
                      let (nid, node) := kn in
                      if status_eqb (status node) WAITING_FOR_APPROVAL then [nid]
                      else if status_eqb (status node) IDLE then
                        match get_predecessors es nid with
                        | [] => []
                        | _ :: _ =>
                            if forallb (fun p => bool_decide (p ∈ done')) (get_predecessors es nid)
                            then [nid] else []
                        end
                      else []) ns)).
  { intros l [-> | ->]; cbn; [done|]. constructor; [|done]. intros Hin. by apply Hk, Hsub. }
  apply Hhead.
  destruct (status_eqb (status n) WAITING_FOR_APPROVAL); [by right|].
  destruct (status_eqb (status n) IDLE); [|by left].
  destruct (get_predecessors es k); [by left|].
  destruct (forallb _ _); [by right|by left].
Qed.

Lemma initial_state_queue wf input resume st0 :
  NoDup (Dict.keys (nodes wf)) ->
  initial_state wf input resume = Py.Ok st0 -> NoDup (queue st0).
Proof.
  intros Hnd. unfold initial_state.
  set (ns := if resume then _ else _).
  assert (Hkeys : Dict.keys ns = Dict.keys (nodes wf)).
  { subst ns. destruct resume; [done|]. unfold Dict.keys. rewrite map_map. done. }
  set (done' := list_to_set _).
  destruct resume; cbn [negb].
  - pose proof (resume_queue_NoDup ns (edges wf) done') as Hrq.
    rewrite Hkeys in Hrq. specialize (Hrq Hnd).
    destruct (resume_queue ns (edges wf) done') as [|x q] eqn:Hq.
    + destruct (idle_successors ns _ []) as [q'|e] eqn:Hi; [|done]. cbn.
      intros [= <-]. cbn. eapply idle_successors_queue; [|exact Hi]. constructor.
    + cbn. by intros [= <-].
  - cbn. intros [= <-]. cbn. unfold get_entry_nodes. by apply filter_NoDup.
Qed.

End QueueProps.

(** X5.  The queue of [WorkflowEngine.execute] (workflow.py, lines 517-541
    and 546-856) never holds a node twice: the queue a run starts with has
    no duplicates, fresh or resumed, and a pass of the loop over the queue
    turns a queue without duplicates into a queue without duplicates,
    whatever the nodes do (requeueing, approval, dispatch, routing). *)
Theorem queue_never_holds_duplicates :
  (forall wf input resume st0,
      NoDup (Dict.keys (Engine.nodes wf)) ->
      Engine.initial_state wf input resume = Py.Ok st0 -> NoDup (Engine.queue st0))
  /\ (forall env es input n st st',
         NoDup (Engine.queue st) ->
         Engine.for_pass env es input n st = Py.Ok st' -> NoDup (Engine.queue st')).
Proof.
  split.
  - intros wf input resume st0. apply initial_state_queue.
  - intros env es input n st st'. apply for_pass_queue.
Qed.

Section Livelock.
Import Engine.

Lemma ready_same es v st1 st2 :
  completed st1 = completed st2 -> ready es v st1 = ready es v st2.
Proof.
  intros H. unfold ready, in_completed. by rewrite H.
Qed.

Lemma blocked_same es v st1 st2 :
  st_nodes st1 = st_nodes st2 -> completed st1 = completed st2 ->
  blocked es st1 v -> blocked es st2 v.
Proof.
  intros Hn Hc (n & Hg & Hs & Hr). exists n. rewrite <- Hn.
  split; [done|]. split; [done|]. by rewrite <- (ready_same es v st1 st2 Hc).
Qed.

Lemma pass_over_blocked env es input :
  forall suf pre st,
    queue st = suf ++ pre ->
    Forall (blocked es st) suf ->
    exists st',
      for_pass env es input (length suf) st = Py.Ok st'
      /\ queue st' = pre ++ suf
      /\ st_nodes st' = st_nodes st /\ completed st' = completed st
      /\ progress_made st' = progress_made st /\ trace st' = trace st.
Proof.
  induction suf as [|v suf IH]; intros pre st Hq Hb.
  - exists st. cbn. rewrite app_nil_r. by rewrite Hq.
  - cbn [length for_pass]. rewrite Hq. cbn [app].
    apply Forall_cons in Hb as [(n & Hg & Hs & Hr) Hrest].
    rewrite (not_ready_is_requeued env es input v n); [|done|done|].
    2:{ by rewrite (ready_same es v _ st). }
    cbn [mbind res_bind Py.bind].
    set (st1 := enqueue v _).
    destruct (IH (pre ++ [v]) st1) as (st' & Hf & H1 & H2 & H3 & H4 & H5).
    + subst st1. cbn. by rewrite app_assoc.
    + eapply Forall_impl; [exact Hrest|]. intros x Hx. by apply (blocked_same es x st).
    + exists st'. split; [done|]. rewrite H1, H2, H3, H4, H5.
      split; [by rewrite <- app_assoc|]. done.
Qed.

End Livelock.

(** X6.  The loop [while queue] of [WorkflowEngine.execute] (workflow.py,
    lines 546-600 and 870-875).  When every queued node is blocked, being a
    node that is not COMPLETE and has a required predecessor outside
    [completed], a pass over the queue puts every node back, in the same
    order, changes neither the nodes nor [completed], and is followed by a
    sleep of half a second; so the loop never ends: it runs out of any
    bound on the number of passes. *)
Theorem blocked_queue_never_drains env es input (st : Engine.State) :
  Engine.queue st <> [] ->
  Forall (blocked es st) (Engine.queue st) ->
  (exists st',
      Engine.for_pass env es input (length (Engine.queue st)) (Engine.with_progress false st)
      = Py.Ok st'
      /\ Engine.queue st' = Engine.queue st
      /\ Engine.st_nodes st' = Engine.st_nodes st
      /\ Engine.completed st' = Engine.completed st
      /\ Engine.trace (Engine.after_pass st') = Engine.trace st ++ [Engine.EvSleep (1 # 2)])
  /\ forall fuel, Engine.while_queue env es input fuel st = Engine.OutOfFuel.
Proof.
  intros Hne Hb.
  assert (Hpass : forall s, Engine.queue s <> [] -> Forall (blocked es s) (Engine.queue s) ->
            exists st',
              Engine.for_pass env es input (length (Engine.queue s)) (Engine.with_progress false s)
              = Py.Ok st'
              /\ Engine.queue st' = Engine.queue s
              /\ Engine.st_nodes st' = Engine.st_nodes s
              /\ Engine.completed st' = Engine.completed s
              /\ Engine.after_pass st' = Engine.emit (Engine.EvSleep (1 # 2)) st'
              /\ Engine.trace st' = Engine.trace s).
  { intros s Hs Hbs.
    destruct (pass_over_blocked env es input (Engine.queue s) [] (Engine.with_progress false s))
      as (st' & Hf & H1 & H2 & H3 & H4 & H5).
    - cbn. by rewrite app_nil_r.
    - eapply Forall_impl; [exact Hbs|]. intros x Hx. by apply (blocked_same es x s).
    - exists st'. split; [done|]. cbn in H1. split; [done|]. split; [done|]. split; [done|].
      split; [|done]. unfold Engine.after_pass. rewrite H4. cbn.
      rewrite H1. by destruct (Engine.queue s). }
  split.
  - destruct (Hpass st Hne Hb) as (st' & Hf & H1 & H2 & H3 & H4 & H5).
    exists st'. split; [done|]. split; [done|]. split; [done|]. split; [done|].
    rewrite H4. cbn. by rewrite H5.
  - intros fuel. revert st Hne Hb. induction fuel as [|fuel IH]; intros st Hne Hb.
    + cbn. by destruct (Engine.queue st).
    + rewrite while_queue_step by done.
      destruct (Hpass st Hne Hb) as (st' & Hf & H1 & H2 & H3 & H4 & H5).
      rewrite Hf, H4. apply IH.
      * cbn. by rewrite H1.
      * cbn [Engine.queue Engine.emit]. rewrite H1.
        eapply Forall_impl; [exact Hb|]. intros x Hx.
        apply (blocked_same es x st); [by rewrite <- H2|by rewrite <- H3|done].
Qed.

(* ===================================================================== *)
(** ** Further properties of the failover manager *)
(* ===================================================================== *)


(* ===================================================================== *)
(** ** Properties of the division of integers *)
(* ===================================================================== *)

Section FloatProps.
Import PyFloat.

Lemma log2_floor_le n d : log2_floor n d <= Z.log2 n - Z.log2 d.
Proof. unfold log2_floor. destruct (_ <? _); lia. Qed.

Lemma log2_floor_below n d : 0 < n -> n < d -> log2_floor n d <= -1.
Proof.
  intros Hn Hd. unfold log2_floor.
  assert (Hk : Z.log2 n <= Z.log2 d) by (apply Z.log2_le_mono; lia).
  destruct (Z.eq_dec (Z.log2 n - Z.log2 d) 0) as [E|E].
  - rewrite E. change (Z.max 0 (- 0)) with 0. change (Z.max 0 0) with 0.
    rewrite Z.pow_0_r, !Z.mul_1_r.
    destruct (n <? d) eqn:Hlt; [lia|]. apply Z.ltb_ge in Hlt. lia.
  - destruct (_ <? _); lia.
Qed.

Lemma round_half_even_bounds a b :
  0 <= a -> 0 < b -> a / b <= round_half_even a b <= a / b + 1.
Proof.
  intros Ha Hb. unfold round_half_even.
  destruct (2 * (a mod b) <? b); [lia|].
  destruct (b <? 2 * (a mod b)); [lia|]. destruct (Z.even (a / b)); lia.
Qed.

Lemma round_half_even_exact b N : 0 < b -> round_half_even (b * N) b = N.
Proof.
  intros Hb. unfold round_half_even.
  rewrite (Z.mul_comm b N), Z_mod_mult, Z_div_mult by lia.
  destruct (2 * 0 <? b) eqn:E; [done|]. apply Z.ltb_ge in E. lia.
Qed.

Lemma round_half_even_le a b N :
  0 <= a -> 0 < b -> a <= b * N -> round_half_even a b <= N.
Proof.
  intros Ha Hb Hle. destruct (Z.eq_dec a (b * N)) as [->|Hne].
  - by rewrite round_half_even_exact.
  - pose proof (round_half_even_bounds a b Ha Hb) as [_ H].
    assert (a / b < N) by (apply Z.div_lt_upper_bound; lia). lia.
Qed.

Lemma round_half_even_lt a b N :
  0 <= a -> 0 < b -> a < b * (N - 1) -> round_half_even a b < N.
Proof.
  intros Ha Hb Hlt. pose proof (round_half_even_bounds a b Ha Hb) as [_ H].
  assert (a / b < N - 1) by (apply Z.div_lt_upper_bound; lia). lia.
Qed.

Lemma round_half_even_pos a b : 0 < b -> b <= a -> 1 <= round_half_even a b.
Proof.
  intros Hb Hle. pose proof (round_half_even_bounds a b ltac:(lia) Hb) as [H _].
  assert (1 <= a / b) by (apply Z.div_le_lower_bound; lia). lia.
Qed.

(** The double of a quotient that is at most 1: the exponent is negative. *)
Lemma nearest_double_small n d :
  0 < n -> n <= d ->
  exists e m,
    e = Z.max (log2_floor n d - 52) (- 1074) /\ e <= -52
    /\ m = round_half_even (n * 2 ^ (- e)) d
    /\ nearest_double n d = Qmake m (Z.to_pos (2 ^ (- e)))
    /\ 0 < 2 ^ (- e).
Proof.
  intros Hn Hd. unfold nearest_double.
  set (e := Z.max (log2_floor n d - 52) (- 1074)).
  assert (HL : log2_floor n d <= 0).
  { pose proof (log2_floor_le n d). pose proof (Z.log2_le_mono n d). lia. }
  assert (He : e <= -52) by lia.
  exists e, (round_half_even (n * 2 ^ (- e)) d).
  split; [done|]. split; [done|]. split; [done|].
  rewrite (Z.max_r 0 (- e)) by lia. rewrite (Z.max_l 0 e) by lia.
  rewrite Z.pow_0_r, Z.mul_1_r.
  destruct (0 <=? e) eqn:E; [apply Z.leb_le in E; lia|].
  split; [done|]. apply Z.pow_pos_nonneg; lia.
Qed.

Lemma div_unit_interval n d : 0 <= n -> n <= d -> 0 < d -> (0 <= div n d)%Q /\ (div n d <= 1)%Q.
Proof.
  intros Hn Hle Hd. unfold div. destruct n as [|p|p]; [done| |lia].
  destruct (nearest_double_small (Z.pos p) d) as (e & m & _ & He & Hm & -> & Hpow); [lia|lia|].
  assert (0 <= Z.pos p * 2 ^ (- e)) by lia.
  pose proof (round_half_even_bounds (Z.pos p * 2 ^ (- e)) d ltac:(lia) Hd) as [Hlo _].
  assert (0 <= Z.pos p * 2 ^ (- e) / d) by (apply Z.div_pos; lia).
  assert (m <= 2 ^ (- e)).
  { subst m. apply round_half_even_le; [lia|lia|]. nia. }
  unfold Qle. cbn [Qnum Qden]. rewrite Z2Pos.id by done. lia.
Qed.

Lemma div_same d : 0 < d -> (div d d == 1)%Q.
Proof.
  intros Hd. unfold div. destruct d as [|p|p]; [lia| |lia].
  unfold nearest_double, log2_floor. rewrite Z.sub_diag.
  change (Z.max 0 (- 0)) with 0. change (Z.max 0 0) with 0.
  rewrite Z.pow_0_r, Z.mul_1_r, Z.ltb_irrefl.
  change (Z.max (0 - 52) (- 1074)) with (- 52).
  change (Z.max 0 (- - 52)) with 52. change (Z.max 0 (- 52)) with 0.
  rewrite Z.pow_0_r, Z.mul_1_r. change (0 <=? - 52) with false. cbv iota.
  rewrite round_half_even_exact by lia. reflexivity.
Qed.

Lemma div_below_one n d : 0 <= n -> n < d -> d < 2 ^ 53 -> ~ (div n d == 1)%Q.
Proof.
  intros Hn Hlt Hd. unfold div. destruct n as [|p|p]; [done| |lia].
  destruct (nearest_double_small (Z.pos p) d) as (e & m & He & _ & Hm & -> & Hpow); [lia|lia|].
  pose proof (log2_floor_below (Z.pos p) d ltac:(lia) Hlt) as HL.
  assert (Hbig : 2 ^ 53 <= 2 ^ (- e)) by (apply Z.pow_le_mono_r; lia).
  assert (m < 2 ^ (- e)).
  { subst m. apply round_half_even_lt; [lia|lia|]. nia. }
  unfold Qeq. cbn [Qnum Qden]. rewrite Z2Pos.id by done. lia.
Qed.

Lemma div_positive n d : 0 < n -> n <= d -> d < 2 ^ 53 -> ~ (div n d == 0)%Q.
Proof.
  intros Hn Hle Hd. unfold div. destruct n as [|p|p]; [lia| |lia].
  destruct (nearest_double_small (Z.pos p) d) as (e & m & He & He' & Hm & -> & Hpow); [lia|lia|].
  assert (1 <= m).
  { subst m. apply round_half_even_pos; [lia|].
    destruct (Z.max_spec (log2_floor (Z.pos p) d - 52) (- 1074)) as [[_ E]|[_ E]];
      rewrite E in He.
    - assert (2 ^ 53 <= 2 ^ (- e)) by (apply Z.pow_le_mono_r; lia). nia.
    - pose proof (log2_floor_le (Z.pos p) d) as HL.
      pose proof (Z.log2_spec (Z.pos p) ltac:(lia)) as [Hp _].
      pose proof (Z.log2_spec d ltac:(lia)) as [_ Hd'].
      pose proof (Z.log2_nonneg (Z.pos p)). pose proof (Z.log2_nonneg d).
      assert (Hexp : 2 ^ Z.log2 (Z.pos p) * 2 ^ (- e) = 2 ^ (Z.log2 (Z.pos p) + - e))
        by (rewrite Z.pow_add_r; lia).
      assert (2 ^ Z.succ (Z.log2 d) <= 2 ^ (Z.log2 (Z.pos p) + - e))
        by (apply Z.pow_le_mono_r; lia).
      nia. }
  unfold Qeq. cbn [Qnum Qden]. lia.
Qed.

End FloatProps.

(** X8.  [ProviderHealth.success_rate] (failover_manager.py, lines 59-63):
    the float nearest to [success_count / total].  With counters that are
    not negative the rate lies between 0 and 1; it is 1 for a provider that
    has never been tried and whenever no request has failed, and 0 when
    requests have failed and none has succeeded.  As long as fewer than
    [2^53] requests are counted, nothing else rounds to 1 or to 0: the rate
    is 1 exactly when no request has failed and 0 exactly when none has
    succeeded. *)
Theorem success_rate_bounds (h : Failover.ProviderHealth) :
  0 <= Failover.success_count h -> 0 <= Failover.failure_count h ->
  (0 <= Failover.success_rate h)%Q /\ (Failover.success_rate h <= 1)%Q
  /\ (Failover.success_count h + Failover.failure_count h = 0 -> Failover.success_rate h = 1%Q)
  /\ (Failover.failure_count h = 0 -> (Failover.success_rate h == 1)%Q)
  /\ (Failover.success_count h = 0 -> 0 < Failover.failure_count h ->
      (Failover.success_rate h == 0)%Q)
  /\ (Failover.success_count h + Failover.failure_count h < 2 ^ 53 ->
      ((Failover.success_rate h == 1)%Q <-> Failover.failure_count h = 0)
      /\ ((Failover.success_rate h == 0)%Q
          <-> Failover.success_count h = 0 /\ 0 < Failover.failure_count h)).
Proof.
  intros Hs Hf. unfold Failover.success_rate.
  set (s := Failover.success_count h) in *. set (f := Failover.failure_count h) in *.
  destruct (0 <? s + f) eqn:Ht.
  - apply Z.ltb_lt in Ht.
    destruct (div_unit_interval s (s + f)) as [H0 H1]; [lia..|].
    assert (Hone : f = 0 -> (PyFloat.div s (s + f) == 1)%Q).
    { intros ->. rewrite Z.add_0_r. apply div_same. lia. }
    assert (Hzero : s = 0 -> (PyFloat.div s (s + f) == 0)%Q) by (by intros ->).
    split; [exact H0|]. split; [exact H1|]. split; [lia|]. split; [exact Hone|].
    split; [intros E _; by apply Hzero|]. intros Hsmall. split; split.
    + intros E. destruct (Z.eq_dec f 0) as [|Hne]; [done|].
      destruct (div_below_one s (s + f)); [lia..|exact E].
    + exact Hone.
    + intros E. destruct (Z.eq_dec s 0) as [->|Hne]; [lia|].
      destruct (div_positive s (s + f)); [lia..|exact E].
    + intros [E _]. by apply Hzero.
  - apply Z.ltb_ge in Ht. assert (s = 0) by lia. assert (f = 0) by lia.
    split; [done|]. split; [apply Qle_refl|]. split; [done|]. split; [done|].
    split; [lia|]. intros _. split; split; try done; try lia.
Qed.

Lemma error_prefix_lower s :
  PyStr.startswith "Error:" s = true -> PyStr.startswith "error" (PyStr.lower s) = true.
Proof.
  intros H.
  do 5 (destruct s as [|c s]; [discriminate|];
        cbn [PyStr.startswith] in H;
        match type of H with (if Ascii.eqb ?a c then _ else _) = true =>
          destruct (Ascii.eqb_spec a c) as [<-|]; [|discriminate] end).
  reflexivity.
Qed.

(** X9.  [execute_with_failover] with [detect_failure_reason]
    (failover_manager.py, lines 241-258 and 297-310).  A result of the task
    that the manager treats as a failure because it is a string beginning
    with ["Error:"] is never classified UNKNOWN: its text mentions
    ["error"], so the reason is API_ERROR unless one of the more specific
    reasons, which are tested first, applies. *)
Theorem error_result_reason_known (v : Py.value) (s : string) :
  Failover.is_error_result v = Some s ->
  Failover.detect_failure_reason s <> Failover.UNKNOWN
  /\ (Failover.detect_failure_reason s = Failover.API_ERROR
      <-> PyStr.contains_any
            ["rate limit"; "too many requests"; "429"; "throttl"; "timeout"; "timed out";
             "quota"; "exceeded"; "limit exceeded"; "auth"; "unauthorized"; "401"; "403";
             "api key"; "not found"; "404"; "unavailable"; "does not exist"]%string
            (PyStr.lower s) = false).
Proof.
  unfold Failover.is_error_result. destruct v as [| | |s'|]; try discriminate.
  destruct (PyStr.startswith "Error:" s') eqn:Hp; [|discriminate]. intros [= <-].
  apply error_prefix_lower in Hp.
  assert (Herr : PyStr.contains_any ["error"; "500"; "502"; "503"]%string (PyStr.lower s') = true).
  { unfold PyStr.contains_any. cbn [existsb]. apply orb_true_iff. left.
    destruct (PyStr.lower s'); cbn [PyStr.contains]; by rewrite Hp. }
  unfold Failover.detect_failure_reason. rewrite Herr.
  change (PyStr.contains_any
            ["rate limit"; "too many requests"; "429"; "throttl"; "timeout"; "timed out";
             "quota"; "exceeded"; "limit exceeded"; "auth"; "unauthorized"; "401"; "403";
             "api key"; "not found"; "404"; "unavailable"; "does not exist"]%string
            (PyStr.lower s'))
    with (PyStr.contains_any
            (["rate limit"; "too many requests"; "429"; "throttl"]%string
             ++ ["timeout"; "timed out"]%string
             ++ ["quota"; "exceeded"; "limit exceeded"]%string
             ++ ["auth"; "unauthorized"; "401"; "403"; "api key"]%string
             ++ ["not found"; "404"; "unavailable"; "does not exist"]%string)%list
            (PyStr.lower s')).
  unfold PyStr.contains_any in *. rewrite !existsb_app.
  repeat match goal with
         | |- context [existsb ?f ?l] =>
             let b := fresh "b" in generalize (existsb f l); intros b
         end.
  repeat match goal with b : bool |- _ => destruct b end; cbn; split; try done;
    split; done.
Qed.

Section CandidateProps.
Import Failover.
Variable w : World.
Variable config : FailoverConfig.

Lemma ascending_cons f a l :
  ascending f (a :: l)
  <-> match l with [] => True | b :: _ => f a <= f b end /\ ascending f l.
Proof. destruct l as [|b l]; cbn; tauto. Qed.

Lemma insert_by_ascending f (le : string * string -> string * string -> bool) x :
  (forall a b, le a b = true -> f a <= f b) ->
  (forall a b, le a b = false -> f b <= f a) ->
  forall l, ascending f l -> ascending f (insert_by le x l).
Proof.
  intros Ht Hf. induction l as [|y l IH]; intros Hl; [done|].
  cbn [insert_by]. destruct (le x y) eqn:E.
  - apply ascending_cons. split; [by apply Ht|done].
  - apply ascending_cons in Hl as [Hhead Hl]. apply ascending_cons. split; [|by apply IH].
    destruct l as [|z l]; cbn [insert_by].
    + by apply Hf.
    + destruct (le x z); [by apply Hf|done].
Qed.

Lemma sort_by_ascending f (le : string * string -> string * string -> bool) :
  (forall a b, le a b = true -> f a <= f b) ->
  (forall a b, le a b = false -> f b <= f a) ->
  forall l, ascending f (sort_by le l).
Proof.
  intros Ht Hf. induction l as [|x l IH]; [done|].
  cbn [sort_by fold_right]. by apply insert_by_ascending.
Qed.

Lemma insert_by_elem {A} (le : A -> A -> bool) x l c :
  c ∈ insert_by le x l <-> c = x \/ c ∈ l.
Proof.
  induction l as [|y l IH]; cbn [insert_by].
  - rewrite list_elem_of_singleton. split; [by left|]. intros [?|H]; [done|].
    by apply elem_of_nil in H.
  - destruct (le x y).
    + by rewrite elem_of_cons.
    + rewrite elem_of_cons, IH, elem_of_cons. tauto.
Qed.

Lemma sort_by_elem {A} (le : A -> A -> bool) l c : c ∈ sort_by le l <-> c ∈ l.
Proof.
  induction l as [|x l IH]; [done|].
  cbn [sort_by fold_right]. rewrite insert_by_elem. fold (sort_by le l).
  rewrite IH, elem_of_cons. tauto.
Qed.

Lemma collect_exact key keep entries :
  forall st,
    providers (snd (collect w key keep entries st)) = providers st
    /\ step (snd (collect w key keep entries st))
       = (step st + length (examined key entries))%nat
    /\ forall c, c ∈ fst (collect w key keep entries st)
                 <-> let_through w key entries (step st) keep c.
Proof.
  induction entries as [|[pkey health] rest IH]; intros st; cbn [collect].
  { split; [done|]. split; [cbn; lia|]. intros c. split; [by intros H%elem_of_nil|].
    by intros (i & k & h & H & _). }
  assert (Hex : examined key ((pkey, health) :: rest)
                = if String.eqb pkey key then examined key rest
                  else (pkey, health) :: examined key rest).
  { unfold examined. cbn [List.filter fst]. by destruct (String.eqb pkey key). }
  destruct (String.eqb_spec pkey key) as [->|Hne].
  { destruct (IH st) as (H1 & H2 & H3). split; [done|]. rewrite Hex. split; [done|].
    intros c. rewrite H3. unfold let_through. by rewrite Hex. }
  rewrite Hex.
  assert (Hshift : forall c,
             let_through w key rest (S (step st)) keep c
             <-> exists i pk h, examined key rest !! i = Some (pk, h)
                                /\ c = (provider_id h, model h)
                                /\ (cooldown_until h < clock w (step st + S i))%Q
                                /\ keep h = true).
  { intros c. unfold let_through. split; intros (i & pk & h & H1 & H2 & H3 & H4);
      exists i, pk, h; (split; [done|]); (split; [done|]); (split; [|done]).
    - by replace (step st + S i)%nat with (S (step st) + i)%nat by lia.
    - by replace (S (step st) + i)%nat with (step st + S i)%nat by lia. }
  assert (Hcons : forall c,
             let_through w key ((pkey, health) :: rest) (step st) keep c
             <-> (c = (provider_id health, model health)
                  /\ (cooldown_until health < clock w (step st))%Q /\ keep health = true)
                 \/ let_through w key rest (S (step st)) keep c).
  { intros c. rewrite Hshift. unfold let_through. rewrite Hex. split.
    - intros ([|i] & pk & h & H1 & H2 & H3 & H4).
      + cbn in H1. injection H1 as <- <-. left. rewrite Nat.add_0_r in H3. done.
      + right. exists i, pk, h. done.
    - intros [(H2 & H3 & H4)|(i & pk & h & H1 & H2 & H3 & H4)].
      + exists 0%nat, pkey, health. rewrite Nat.add_0_r. done.
      + exists (S i), pk, h. done. }
  unfold is_available, now. cbn [fst snd].
  destruct (IH (tick st)) as (Hp & Hs & Hmem). cbn [tick step providers] in Hp, Hs, Hmem.
  assert (Hav : negb (Qle_bool (clock w (step st)) (cooldown_until health)) = true
                <-> (cooldown_until health < clock w (step st))%Q).
  { rewrite negb_true_iff. split.
    - intros H. apply Qnot_le_lt. intros Hle. apply Qle_bool_iff in Hle. congruence.
    - intros H. destruct (Qle_bool _ _) eqn:E; [|done]. apply Qle_bool_iff in E.
      by apply Qlt_not_le in H. }
  destruct (negb (Qle_bool (clock w (step st)) (cooldown_until health))) eqn:Ha; cbn [negb].
  - destruct (keep health) eqn:Hk.
    + destruct (collect w key keep rest (tick st)) as [more st2]. cbn [fst snd] in *.
      split; [done|]. split; [cbn [length]; lia|]. intros c.
      rewrite Hcons, elem_of_cons, Hmem. split.
      * intros [->|H]; [left|by right]. split; [done|]. split; [by apply Hav|done].
      * intros [(-> & _)|H]; [by left|by right].
    + split; [done|]. split; [cbn [length]; lia|]. intros c. rewrite Hcons, Hmem. split.
      * by right.
      * intros [(_ & _ & H)|H]; [congruence|done].
  - split; [done|]. split; [cbn [length]; lia|]. intros c. rewrite Hcons, Hmem. split.
    + by right.
    + intros [(_ & H & _)|H]; [|done]. apply Hav in H. congruence.
Qed.

Lemma le_priority_rate_true st a b :
  le_priority_rate st a b = true -> priority_of st a <= priority_of st b.
Proof.
  unfold le_priority_rate, priority_of. intros H. apply orb_true_iff in H as [H|H].
  - apply Z.ltb_lt in H. lia.
  - apply andb_true_iff in H as [H _]. apply Z.eqb_eq in H. lia.
Qed.

Lemma le_priority_rate_false st a b :
  le_priority_rate st a b = false -> priority_of st b <= priority_of st a.
Proof.
  unfold le_priority_rate, priority_of. intros H. apply orb_false_iff in H as [H _].
  apply Z.ltb_ge in H. lia.
Qed.

Lemma priority_of_same st1 st2 c :
  providers st1 = providers st2 -> priority_of st1 c = priority_of st2 c.
Proof. intros H. unfold priority_of, health_of. by rewrite H. Qed.

Lemma ascending_ext f g l : (forall c, f c = g c) -> ascending f l -> ascending g l.
Proof.
  intros E. induction l as [|a l IH]; [done|]. rewrite !ascending_cons.
  intros [H1 H2]. split; [|by apply IH]. destruct l; [done|]. by rewrite <- !E.
Qed.

Lemma automatic_candidates_spec pid m st :
  ascending (priority_of st) (fst (automatic_candidates w config pid m st))
  /\ (step st <= step (snd (automatic_candidates w config pid m st)))%nat
  /\ providers (snd (automatic_candidates w config pid m st)) = providers st.
Proof.
  unfold automatic_candidates.
  set (first := match group_of config m with
                | Some grp => collect w (key_of pid m) _ (providers st) st
                | None => ([], st)
                end).
  assert (Hfirst : providers (snd first) = providers st
                   /\ (step st <= step (snd first))%nat).
  { subst first. destruct (group_of config m) as [grp|]; [|by split].
    destruct (collect_exact (key_of pid m)
                (fun h => str_in (PyStr.lower (model h)) (lower_all (snd grp)))
                (providers st) st) as (H1 & H2 & _).
    split; [done|]. rewrite H2. lia. }
  destruct first as [same_group st1]. cbn [fst snd] in Hfirst. destruct Hfirst as [Hp1 Hs1].
  destruct (sort_by (le_priority_rate st1) same_group) as [|c sorted] eqn:Hsort.
  - pose proof (collect_exact (key_of pid m) (fun _ => true) (providers st1) st1)
      as (Hp2 & Hs2 & _).
    destruct (collect w (key_of pid m) (fun _ => true) (providers st1) st1) as [anyone st2].
    cbn [fst snd] in *. split; [|split].
    + apply (ascending_ext (priority_of st2)).
      { intros c. apply priority_of_same. by rewrite Hp2. }
      apply sort_by_ascending.
      * intros a b H. unfold le_priority in H. apply Z.leb_le in H. exact H.
      * intros a b H. unfold le_priority in H. apply Z.leb_gt in H. unfold priority_of. lia.
    + rewrite Hs2. lia.
    + by rewrite Hp2.
  - cbn [fst snd]. rewrite <- Hsort. split; [|split].
    + apply (ascending_ext (priority_of st1)).
      { intros c'. by apply priority_of_same. }
      apply sort_by_ascending; [apply le_priority_rate_true|apply le_priority_rate_false].
    + done.
    + done.
Qed.

Lemma automatic_candidates_exact pid m st :
  exists k0 keep,
    (k0 = step st
     \/ k0 = (step st + length (examined (key_of pid m) (providers st)))%nat)
    /\ step (snd (automatic_candidates w config pid m st))
       = (k0 + length (examined (key_of pid m) (providers st)))%nat
    /\ ((forall h, keep h = true)
        \/ exists grp,
             group_of config m = Some grp
             /\ (forall h, keep h = str_in (PyStr.lower (model h)) (lower_all (snd grp)))
             /\ fst (automatic_candidates w config pid m st) <> [])
    /\ forall c, c ∈ fst (automatic_candidates w config pid m st)
                 <-> let_through w (key_of pid m) (providers st) k0 keep c.
Proof.
  unfold automatic_candidates.
  destruct (group_of config m) as [grp|] eqn:Hgrp.
  - pose proof (collect_exact (key_of pid m)
                  (fun h => str_in (PyStr.lower (model h)) (lower_all (snd grp)))
                  (providers st) st) as (Hp1 & Hs1 & Hm1).
    destruct (collect w (key_of pid m) _ (providers st) st) as [same_group st1].
    cbn [fst snd] in Hp1, Hs1, Hm1.
    destruct (sort_by (le_priority_rate st1) same_group) as [|c0 sorted] eqn:Hsort.
    + pose proof (collect_exact (key_of pid m) (fun _ => true) (providers st1) st1)
        as (Hp2 & Hs2 & Hm2).
      destruct (collect w (key_of pid m) (fun _ => true) (providers st1) st1) as [anyone st2].
      cbn [fst snd] in *. rewrite Hp1 in Hs2, Hm2.
      exists (step st1), (fun _ => true). split; [by right|]. split; [done|].
      split; [by left|]. intros c. by rewrite sort_by_elem, Hm2.
    + cbn [fst snd]. rewrite <- Hsort.
      exists (step st), (fun h => str_in (PyStr.lower (model h)) (lower_all (snd grp))).
      split; [by left|]. split; [done|]. split.
      * right. exists grp. split; [done|]. split; [done|]. by rewrite Hsort.
      * intros c. by rewrite sort_by_elem, Hm1.
  - cbn [sort_by fold_right].
    pose proof (collect_exact (key_of pid m) (fun _ => true) (providers st) st)
      as (Hp2 & Hs2 & Hm2).
    destruct (collect w (key_of pid m) (fun _ => true) (providers st) st) as [anyone st2].
    cbn [fst snd] in *.
    exists (step st), (fun _ => true). split; [by left|]. split; [done|].
    split; [by left|]. intros c. by rewrite sort_by_elem, Hm2.
Qed.

End CandidateProps.

(** X10.  The automatic fallback chain of [_get_fallback_candidates]
    (failover_manager.py, lines 205-239).  The candidates come in the order
    of their priority numbers, lowest first, and the records are left as
    they were.  The list is made in one pass over the records that are not
    filed under the key of the failing pair, the last pass of the call:
    when the pass begins at the clock reading [k0], the candidates are
    exactly the provider and model of every record that is out of its
    cooldown at the reading made for it, [k0 + i] for the [i]-th record,
    and that passes the test of the pass.  That test is membership in the
    capability group of the failing model, and then the list is not empty,
    or no test at all. *)
Theorem automatic_candidates_ordered (w : Failover.World) (config : Failover.FailoverConfig)
        (pid m : string) (st : Failover.State) :
  let cands := fst (Failover.automatic_candidates w config pid m st) in
  let st' := snd (Failover.automatic_candidates w config pid m st) in
  let looked_at := examined (Failover.key_of pid m) (Failover.providers st) in
  ascending (priority_of st) cands
  /\ Failover.providers st' = Failover.providers st
  /\ exists k0 keep,
       (k0 = Failover.step st \/ k0 = (Failover.step st + length looked_at)%nat)
       /\ Failover.step st' = (k0 + length looked_at)%nat
       /\ ((forall h, keep h = true)
           \/ exists grp,
                Failover.group_of config m = Some grp
                /\ (forall h, keep h = str_in (PyStr.lower (Failover.model h))
                                              (Failover.lower_all (snd grp)))
                /\ cands <> [])
       /\ forall c,
            c ∈ cands
            <-> exists i pkey h,
                  looked_at !! i = Some (pkey, h)
                  /\ c = (Failover.provider_id h, Failover.model h)
                  /\ (Failover.cooldown_until h < Failover.clock w (k0 + i))%Q
                  /\ keep h = true.
Proof.
  intros cands st' looked_at. subst cands st' looked_at.
  destruct (automatic_candidates_spec w config pid m st) as (H1 & _ & H3).
  split; [done|]. split; [done|]. apply automatic_candidates_exact.
Qed.

Lemma string_app_inv_head (a b c : string) : a +:+ b = a +:+ c -> b = c.
Proof.
  induction a as [|x a IH]; cbn; [done|]. intros [= H]. by apply IH.
Qed.

Lemma key_of_inj_model pid m m' : Failover.key_of pid m = Failover.key_of pid m' -> m = m'.
Proof.
  unfold Failover.key_of. intros H. apply string_app_inv_head in H.
  by apply (string_app_inv_head "/") in H.
Qed.

(** X11.  [FailoverManager.register_provider] (failover_manager.py, lines
    142-158).  After a registration every model of the list is filed under
    its key with a fresh record of the given priority: no success, no
    failure, no cooldown, whatever record was there before; the records
    under all other keys and the fallback chains are untouched. *)
Theorem register_provider_lookup (pid ptype : string) (models : list string) (prio : Z)
        (st : Failover.State) :
  let st' := Failover.register_provider pid ptype models prio st in
  (forall m, m ∈ models ->
             Dict.get (Failover.key_of pid m) (Failover.providers st')
             = Some (Failover.new_health pid ptype m prio))
  /\ (forall k, (forall m, m ∈ models -> k <> Failover.key_of pid m) ->
                Dict.get k (Failover.providers st') = Dict.get k (Failover.providers st))
  /\ Failover.fallback_chains st' = Failover.fallback_chains st.
Proof.
  cbn zeta. unfold Failover.register_provider.
  revert st. induction models as [|m0 models IH]; intros st.
  - cbn. split; [|done]. intros m Hm. by apply elem_of_nil in Hm.
  - cbn [fold_left].
    set (st1 := Failover.set_providers _ st).
    destruct (IH st1) as (H1 & H2 & H3). split; [|split].
    + intros m Hm.
      destruct (decide (m ∈ models)) as [Hin|Hnin]; [by apply H1|].
      apply elem_of_cons in Hm as [->|Hm]; [|done].
      rewrite H2.
      * subst st1. cbn. apply dict_get_set_same.
      * intros m' Hm' E. apply key_of_inj_model in E. by subst m'.
    + intros k Hk. rewrite H2.
      * subst st1. cbn. apply dict_get_set_other. apply Hk. apply list_elem_of_here.
      * intros m Hm. apply Hk. by apply list_elem_of_further.
    + by rewrite H3.
Qed.

Section RegisteredProps.
Import Failover.
Variable w : World.
Variable config : FailoverConfig.

Lemma dict_mem_set_existing {V} key (v v' : V) d k :
  Dict.get key d = Some v -> Dict.mem k (Dict.set key v' d) = Dict.mem k d.
Proof.
  intros Hg. unfold Dict.mem. destruct (String.eqb_spec k key) as [->|Hne].
  - by rewrite dict_get_set_same, Hg.
  - by rewrite dict_get_set_other.
Qed.

Lemma update_health_keys key f st k :
  (forall h s, providers (snd (f h s)) = providers s) ->
  Dict.mem k (providers (update_health key f st)) = Dict.mem k (providers st).
Proof.
  intros Hf. unfold update_health.
  destruct (Dict.get key (providers st)) as [h|] eqn:Hg; [|done].
  specialize (Hf h st). destruct (f h st) as [h' st']. cbn in *.
  rewrite Hf. by apply (dict_mem_set_existing key h).
Qed.

Lemma record_failure_providers r h s : providers (snd (record_failure w r h s)) = providers s.
Proof. done. Qed.

Lemma record_success_providers e h s : providers (snd (record_success w e h s)) = providers s.
Proof. done. Qed.

Lemma candidates_providers pid m cat st :
  providers (snd (_get_fallback_candidates w config pid m cat st)) = providers st.
Proof.
  unfold _get_fallback_candidates.
  destruct (Dict.get _ (fallback_chains st)); [done|].
  destruct (tier_answer w pid m cat st) as [[fb|]|]; [done| |].
  - by destruct (automatic_candidates_spec w config pid m (tick st)) as (_ & _ & ->).
  - by destruct (automatic_candidates_spec w config pid m st) as (_ & _ & ->).
Qed.

Lemma find_next_registered fallbacks attempts :
  forall st,
    providers (snd (find_next w fallbacks attempts st)) = providers st
    /\ forall nxt, fst (find_next w fallbacks attempts st) = Some nxt -> registered st nxt.
Proof.
  induction fallbacks as [|[fp fm] rest IH]; intros st; cbn [find_next].
  - split; [done|discriminate].
  - destruct (negb (str_in (key_of fp fm) _)); [|apply IH].
    destruct (Dict.get (key_of fp fm) (providers st)) as [h|] eqn:Hg; [|apply IH].
    unfold is_available, now. cbn.
    destruct (negb (Qle_bool _ _)).
    + split; [done|]. intros nxt [= <-]. unfold registered, key_of_pair, Dict.mem. cbn.
      by rewrite Hg.
    + destruct (IH (tick st)) as [H1 H2]. split; [exact H1|]. intros nxt Hn.
      specialize (H2 nxt Hn). exact H2.
Qed.

Lemma registered_same st1 st2 c :
  (forall k, Dict.mem k (providers st1) = Dict.mem k (providers st2)) ->
  registered st1 c -> registered st2 c.
Proof. unfold registered. intros H. by rewrite H. Qed.

Lemma attempt_loop_registered n cb cat first :
  forall attempts last_error st,
    exists new,
      trace (snd (attempt_loop w config n cb cat first attempts last_error st)) = trace st ++ new
      /\ (forall k, Dict.mem k (providers (snd (attempt_loop w config n cb cat first attempts
                                                             last_error st)))
                    = Dict.mem k (providers st))
      /\ match n with
         | O => task_calls new = []
         | S _ => exists rest, task_calls new = List.last attempts first :: rest
                               /\ Forall (registered st) rest
         end.
Proof.
  induction n as [|n IH]; intros attempts last_error st.
  - exists []. cbn. rewrite app_nil_r. split; [done|]. split; [done|]. done.
  - cbn [attempt_loop].
    destruct (List.last attempts first) as [cp cm] eqn:Hlast.
    cbn [now fst snd].
    set (outcome := task w (step (tick st)) cp cm).
    set (st2 := emit (EvTask cp cm outcome) (tick (tick st))).
    destruct (classify outcome) as [v|err].
    + exists [EvTask cp cm outcome]. cbn [fst snd].
      rewrite update_health_success_trace. split; [done|]. split.
      * intros k. by rewrite update_health_keys by apply record_success_providers.
      * exists []. by split.
    + set (st3 := update_health (key_of cp cm)
                                (record_failure w (detect_failure_reason err)) st2).
      assert (Hst3 : trace st3 = trace st ++ [EvTask cp cm outcome]).
      { unfold st3. by rewrite update_health_failure_trace. }
      assert (Hk3 : forall k, Dict.mem k (providers st3) = Dict.mem k (providers st)).
      { intros k. unfold st3. by rewrite update_health_keys by apply record_failure_providers. }
      destruct (candidates_trace w config cp cm cat st3) as [extra [Hextra Hsilent]].
      pose proof (candidates_providers cp cm cat st3) as Hp4.
      destruct (_get_fallback_candidates w config cp cm cat st3) as [fallbacks st4].
      cbn [snd] in Hextra, Hp4.
      destruct (find_next_spec w fallbacks attempts st4) as [Htr5 _].
      destruct (find_next_registered fallbacks attempts st4) as [Hp5 Hreg].
      destruct (find_next w fallbacks attempts st4) as [[[np nm]|] st5].
      * cbn [fst snd] in Htr5, Hp5, Hreg. specialize (Hreg _ eq_refl).
        set (st6 := if cb then emit (EvOnFailover cp cm np nm
                                       (reason_value (detect_failure_reason err))) st5
                    else st5).
        assert (Hst6 : exists cbev, trace st6 = trace st5 ++ cbev /\ Forall silent cbev).
        { unfold st6. destruct cb.
          - eexists [_]. split; [reflexivity | by repeat constructor].
          - exists []. by rewrite app_nil_r. }
        destruct Hst6 as [cbev [Hcb Hcbs]].
        assert (Hp6 : providers st6 = providers st5) by (unfold st6; by destruct cb).
        set (st7 := emit (EvSleep (retry_delay config)) st6).
        assert (Hk7 : forall k, Dict.mem k (providers st7) = Dict.mem k (providers st)).
        { intros k. unfold st7. cbn. by rewrite Hp6, Hp5, Hp4, Hk3. }
        destruct (IH (attempts ++ [(np, nm)]) (Some err) st7) as (rec & Hrec & Hkrec & Hcalls).
        set (quiet := extra ++ cbev).
        assert (Hq : Forall silent quiet) by (by apply Forall_app).
        exists (EvTask cp cm outcome :: quiet ++ EvSleep (retry_delay config) :: rec).
        split; [|split].
        { rewrite Hrec. unfold st7. simpl. rewrite Hcb, Htr5, Hextra, Hst3. unfold quiet.
          rewrite <- ?app_assoc. simpl. by rewrite <- ?app_assoc. }
        { intros k. by rewrite Hkrec, Hk7. }
        assert (Htc : task_calls (EvTask cp cm outcome
                                    :: quiet ++ EvSleep (retry_delay config) :: rec)
                      = (cp, cm) :: task_calls rec).
        { change (EvTask cp cm outcome :: quiet ++ EvSleep (retry_delay config) :: rec)
            with ([EvTask cp cm outcome] ++ quiet ++ [EvSleep (retry_delay config)] ++ rec).
          rewrite !task_calls_app, (silent_task_calls quiet Hq). reflexivity. }
        rewrite Htc. exists (task_calls rec). split; [done|].
        destruct n as [|n']; [rewrite Hcalls; constructor|].
        destruct Hcalls as (rest & -> & Hrest).
        rewrite last_last. constructor.
        -- apply (registered_same st4); [|done]. intros k. by rewrite Hp4, Hk3.
        -- eapply Forall_impl; [exact Hrest|]. intros c. by apply registered_same.
      * cbn [fst snd] in Htr5, Hp5 |- *.
        exists (EvTask cp cm outcome :: extra). split; [|split].
        { rewrite Htr5, Hextra, Hst3. by rewrite <- app_assoc. }
        { intros k. by rewrite Hp5, Hp4, Hk3. }
        exists [].
        change (EvTask cp cm outcome :: extra) with ([EvTask cp cm outcome] ++ extra).
        rewrite task_calls_app, (silent_task_calls extra Hsilent). by split.
Qed.

End RegisteredProps.

(** X12.  [FailoverManager.execute_with_failover] (failover_manager.py,
    lines 284-343).  With failover enabled and [max_retries] not negative,
    the first call of the task is made with the pair the caller named,
    registered or not; every later call is made with a pair that is
    registered with the manager, so a fallback that names an unregistered
    provider or model is passed over; and a run neither adds nor drops a
    health record. *)
Theorem failover_switches_to_registered (w : Failover.World) (config : Failover.FailoverConfig)
        (pid m : string) (cb : bool) (cat : option string) (st : Failover.State) :
  Failover.enabled config = true ->
  0 <= Failover.max_retries config ->
  let st' := snd (Failover.execute_with_failover w config pid m cb cat st) in
  exists new,
    Failover.trace st' = Failover.trace st ++ new
    /\ (exists rest, Failover.task_calls new = (pid, m) :: rest /\ Forall (registered st) rest)
    /\ (forall k, Dict.mem k (Failover.providers st') = Dict.mem k (Failover.providers st)).
Proof.
  intros Hen Hmax st'. subst st'. rewrite execute_enabled by done. cbn [snd].
  destruct (Z.to_nat (Failover.max_retries config + 1)) as [|n] eqn:Hn; [lia|].
  destruct (attempt_loop_registered w config (S n) cb cat (pid, m) [(pid, m)] None st)
    as (new & Htr & Hk & Hcalls).
  exists new. split; [done|]. split; [|done]. exact Hcalls.
Qed.

(* ===================================================================== *)
(** ** Properties of the model tier manager *)
(* ===================================================================== *)

Section TierProps.
Import Tiers.


End TierProps.



Lemma scan_skip now current spec rest mgr :
  Failover.split_colon spec EmptyString = None ->
  Tiers.scan now current (spec :: rest) mgr = Tiers.scan now current rest mgr.
Proof. intros H. cbn [Tiers.scan]. by rewrite H. Qed.

(** X14.  [get_best_available_model] and the table [TIERS]
    (model_tiers.py, lines 34-127).  In every category the entry of tier S,
    [claude-sonnet], names no provider and is skipped, so the answer is the
    first specification that does name one, [gpt-oss:120b] for coding and
    general tasks and [google_ai_free:gemini-1.5-pro] for the others,
    whenever its provider is not in a running cooldown and is the current
    provider or has capacity; [gpt-oss] always has capacity. *)
Theorem best_model_is_first_with_provider (now : Q) (category : Tiers.TaskCategory)
        (current : option string) (mgr : Tiers.Manager) :
  (forall until, Tiers.limit_cooldowns mgr !! first_provider category = Some until ->
                 (until <= now)%Q) ->
  (current = Some (first_provider category)
   \/ Tiers._has_capacity mgr (first_provider category) = true) ->
  fst (Tiers.get_best_available_model now category current mgr) = Some (first_spec category)
  /\ Tiers._has_capacity mgr "gpt-oss" = true.
Proof.
  intros Hcd Hcap. split; [|done].
  unfold Tiers.get_best_available_model.
  assert (Hgo : forall p m spec rest,
             Failover.split_colon spec EmptyString = Some (p, m) ->
             (forall until, Tiers.limit_cooldowns mgr !! p = Some until -> (until <= now)%Q) ->
             (current = Some p \/ Tiers._has_capacity mgr p = true) ->
             fst (Tiers.scan now current (spec :: rest) mgr) = Some spec).
  { intros p m spec rest Hs Hc Hk. cbn [Tiers.scan]. rewrite Hs.
    destruct (Tiers.limit_cooldowns mgr !! p) as [until|] eqn:Hl.
    - assert (Hle : Qle_bool until now = true) by (apply Qle_bool_iff; by apply Hc).
      rewrite Hle. cbn [negb].
      destruct Hk as [->|Hk]; [by rewrite bool_decide_eq_true_2|].
      destruct (bool_decide (current = Some p)); [done|].
      change (Tiers._has_capacity (Tiers.mkManager _ (Tiers.current_usage mgr)) p)
        with (Tiers._has_capacity mgr p). by rewrite Hk.
    - destruct Hk as [->|Hk]; [by rewrite bool_decide_eq_true_2|].
      destruct (bool_decide (current = Some p)); [done|]. by rewrite Hk. }
  destruct category; unfold Tiers.TIERS, first_spec, first_provider in *; cbn [concat app];
    rewrite scan_skip by reflexivity.
  all: first [ apply (Hgo "gpt-oss"%string "120b"%string); [reflexivity|exact Hcd|exact Hcap]
             | apply (Hgo "google_ai_free"%string "gemini-1.5-pro"%string);
               [reflexivity|exact Hcd|exact Hcap] ].
Qed.

Section TierFailover.
Import Failover.
Variable w : World.
Variable config : FailoverConfig.

Lemma update_health_chains key r st :
  fallback_chains (update_health key (record_failure w r) st) = fallback_chains st.
Proof. unfold update_health. by destruct (Dict.get key (providers st)). Qed.

Lemma update_health_get_none key r st k :
  Dict.mem k (providers st) = false ->
  Dict.get k (providers (update_health key (record_failure w r) st)) = None.
Proof.
  intros H.
  pose proof (update_health_keys key (record_failure w r) st k (record_failure_providers w r)) as E.
  rewrite H in E. unfold Dict.mem in E.
  by destruct (Dict.get k _).
Qed.

Lemma failed_attempt_with_tier_answer n cb cat spec fp fm err pid m st :
  Dict.get (key_of pid m) (fallback_chains st) = None ->
  tier_enabled w = true ->
  cat <> EmptyString ->
  str_in (PyStr.lower cat) task_categories = true ->
  (forall k, tier_best w k (PyStr.lower cat) pid = Some spec) ->
  split_colon spec EmptyString = Some (fp, fm) ->
  (fp <> pid \/ fm <> m) ->
  Dict.mem (key_of fp fm) (providers st) = false ->
  classify (task w (S (step st)) pid m) = inr err ->
  fst (attempt_loop w config (S n) cb (Some cat) (pid, m) [(pid, m)] None st)
  = (Py.VStr (exhausted_message (Some err)), pid, m)
  /\ trace (snd (attempt_loop w config (S n) cb (Some cat) (pid, m) [(pid, m)] None st))
     = trace st ++ [EvTask pid m (task w (S (step st)) pid m); EvLimitHit pid].
Proof.
  intros Hchain Htier Hcat Hvalid Hbest Hsplit Hdiff Hunreg Hfail.
  cbn [attempt_loop List.last now fst snd tick step].
  rewrite Hfail.
  set (st2 := emit _ _).
  set (st3 := update_health _ _ st2).
  unfold _get_fallback_candidates.
  assert (Hc3 : Dict.get (key_of pid m) (fallback_chains st3) = None).
  { subst st3. by rewrite update_health_chains. }
  rewrite Hc3.
  unfold tier_answer. rewrite Htier, Hvalid, Hbest, Hsplit.
  assert (Hc : negb (String.eqb cat EmptyString) = true).
  { apply negb_true_iff. by apply String.eqb_neq. }
  rewrite Hc. cbn [andb].
  assert (Hd : negb (String.eqb fp pid) || negb (String.eqb fm m) = true).
  { apply orb_true_iff. destruct Hdiff as [H|H]; [left|right];
      apply negb_true_iff; by apply String.eqb_neq. }
  rewrite Hd.
  cbn [find_next map fst snd].
  assert (Hk3 : Dict.get (key_of fp fm) (providers (emit (EvLimitHit pid) (tick st3))) = None).
  { cbn. subst st3. by apply update_health_get_none. }
  rewrite Hk3.
  assert (Htr : trace (emit (EvLimitHit pid) (tick st3))
                = trace st ++ [EvTask pid m (task w (S (step st)) pid m); EvLimitHit pid]).
  { cbn. subst st3. rewrite update_health_failure_trace. subst st2. cbn.
    by rewrite <- app_assoc. }
  destruct (negb (str_in (key_of fp fm) [key_of pid m])); cbn [fst snd]; by rewrite Htr.
Qed.

End TierFailover.

(** X15.  [_get_fallback_candidates] inside [execute_with_failover]
    (failover_manager.py, lines 187-204 and 318-343).  When no explicit
    chain is set for the failing pair and the tier manager, asked for the
    task category, names a pair that is not registered with the failover
    manager, that pair is the only candidate: the automatic chain is not
    built, the failing provider is reported to the tier manager as having
    hit its limit, no fallback is found and the run ends after the one
    failed call with the text of exhaustion and the primary pair. *)
Theorem unregistered_tier_answer_stops_failover
        (w : Failover.World) (config : Failover.FailoverConfig)
        (pid m cat spec fp fm err : string) (cb : bool) (st : Failover.State) :
  Failover.enabled config = true ->
  0 <= Failover.max_retries config ->
  Dict.get (Failover.key_of pid m) (Failover.fallback_chains st) = None ->
  Failover.tier_enabled w = true ->
  cat <> EmptyString ->
  str_in (PyStr.lower cat) Failover.task_categories = true ->
  (forall k, Failover.tier_best w k (PyStr.lower cat) pid = Some spec) ->
  Failover.split_colon spec EmptyString = Some (fp, fm) ->
  (fp <> pid \/ fm <> m) ->
  Dict.mem (Failover.key_of fp fm) (Failover.providers st) = false ->
  Failover.classify (Failover.task w (S (Failover.step st)) pid m) = inr err ->
  fst (Failover.execute_with_failover w config pid m cb (Some cat) st)
  = Py.Ok (Py.VStr (Failover.exhausted_message (Some err)), pid, m)
  /\ Failover.trace (snd (Failover.execute_with_failover w config pid m cb (Some cat) st))
     = Failover.trace st
       ++ [Failover.EvTask pid m (Failover.task w (S (Failover.step st)) pid m);
           Failover.EvLimitHit pid].
Proof.
  intros Hen Hmax Hchain Htier Hcat Hvalid Hbest Hsplit Hdiff Hunreg Hfail.
  rewrite execute_enabled by done. cbn [fst snd].
  destruct (Z.to_nat (Failover.max_retries config + 1)) as [|n] eqn:Hn; [lia|].
  destruct (failed_attempt_with_tier_answer w config n cb cat spec fp fm err pid m st)
    as [H1 H2]; try done.
  by rewrite H1, H2.
Qed.

Lemma usage_after_records p n :
  Tiers.current_usage (Nat.iter n (Tiers.record_usage p) Tiers.fresh) !! p
  = match n with O => None | S _ => Some (Z.of_nat n) end
  /\ forall q, q <> p ->
       Tiers.current_usage (Nat.iter n (Tiers.record_usage p) Tiers.fresh) !! q = None.
Proof.
  induction n as [|n [IH1 IH2]].
  - cbn. split; [done|]. intros q _. apply lookup_empty.
  - rewrite Nat.iter_succ. set (g := Nat.iter n (Tiers.record_usage p) Tiers.fresh) in *.
    unfold Tiers.record_usage. cbn [Tiers.current_usage]. split.
    + rewrite lookup_insert_eq, IH1. f_equal. destruct n; cbn -[Z.of_nat Z.add]; lia.
    + intros q Hq. rewrite lookup_insert_ne by done. by apply IH2.
Qed.

(** X16.  [record_usage], [reset_usage] and [_has_capacity]
    (model_tiers.py, lines 137-166).  Starting from a new manager, a
    provider of the free list has capacity for its first 999 recorded uses
    and none from the 1000th on, until [reset_usage] gives the capacity
    back; every other provider has capacity whatever is recorded, and the
    uses recorded for one provider do not count against another. *)
Theorem capacity_after_usage (p : string) (n : nat) :
  let mgr := Nat.iter n (Tiers.record_usage p) Tiers.fresh in
  Tiers._has_capacity mgr p
  = (if str_in p Tiers.free_providers then (n <? 1000)%nat else true)
  /\ Tiers._has_capacity (Tiers.reset_usage p mgr) p = true
  /\ (forall q, q <> p -> Tiers._has_capacity mgr q = true).
Proof.
  intros mgr. destruct (usage_after_records p n) as [Hp Hq]. fold mgr in Hp, Hq.
  assert (Hcap : forall (g : Tiers.Manager) x,
             Tiers._has_capacity g x
             = if str_in x Tiers.free_providers
               then default 0 (Tiers.current_usage g !! x) <? 1000 else true).
  { intros g x. unfold Tiers._has_capacity.
    destruct (str_in x Tiers.free_providers); [done|].
    destruct (String.eqb x "ollama"); [done|]. by destruct (PyStr.contains "opencode" x). }
  split; [|split].
  - rewrite Hcap, Hp. destruct (str_in p Tiers.free_providers); [|done].
    destruct n; cbn -[Z.of_nat Z.ltb Nat.ltb]; [done|].
    destruct (Nat.ltb_spec (S n) 1000); [apply Z.ltb_lt|apply Z.ltb_ge]; lia.
  - rewrite Hcap. destruct (str_in p Tiers.free_providers); [|done].
    unfold Tiers.reset_usage. rewrite Hp. destruct n.
    + fold mgr. by rewrite Hp.
    + cbn [Tiers.current_usage]. by rewrite lookup_insert_eq.
  - intros q Hne. rewrite Hcap, (Hq q Hne). by destruct (str_in q Tiers.free_providers).
Qed.

(* ===================================================================== *)
(** ** Further properties of the tool processor *)
(* ===================================================================== *)

Section ConfinedProps.
Import Tools.
Variable base_dir : string.
Variable fs : Fs.

Lemma attempt_confined calls :
  forall st,
    Forall (confined base_dir) calls -> Forall (confined base_dir) (ops st) ->
    Forall (confined base_dir) (ops (fst (attempt fs calls st))).
Proof.
  induction calls as [|op calls IH]; intros st Hcalls Hst; cbn [attempt]; [done|].
  apply Forall_cons in Hcalls as [Hop Hcalls].
  assert (Forall (confined base_dir) (ops (issue op st))).
  { cbn. apply Forall_app. split; [done|by apply Forall_singleton]. }
  destruct (fs_fails fs op); cbn [fst]; [done|by apply IH].
Qed.

Lemma confined_paths op :
  Forall (fun p => PyStr.startswith base_dir p = true) (op_paths op) ->
  confined base_dir op.
Proof.
  destruct op; cbn; intros H; try done. left. by inversion H.
Qed.

Lemma confined_parent target :
  PyStr.startswith base_dir target = true ->
  confined base_dir (Makedirs (PosixPath.dirname target)).
Proof. intros H. right. by exists target. Qed.

Ltac confined_calls :=
  repeat first
    [ apply List.Forall_nil
    | apply List.Forall_cons;
      [ first [ by apply confined_parent
              | apply confined_paths; cbn [op_paths];
                repeat (apply List.Forall_cons; [assumption|]); apply List.Forall_nil ]
      | ] ].

Ltac confined_case :=
  match goal with
  | |- context [attempt fs ?calls ?st] =>
      let H := fresh "Hatt" in
      assert (H : Forall (confined base_dir) (ops (fst (attempt fs calls st))));
      [ apply attempt_confined; [confined_calls | assumption]
      | destruct (attempt fs calls st) as [? [?|]]; cbn in *; assumption ]
  end.

Lemma run_tag_confined t st :
  Forall (confined base_dir) (ops st) ->
  Forall (confined base_dir) (ops (run_tag base_dir fs t st)).
Proof.
  intros Hst.
  destruct t as [q c|q|q|q|q|q|q c|a b|a b]; cbn [run_tag];
    unfold write_file, read_file, list_dir, create_dir, delete_file, delete_dir,
      append_file, copy, move.
  - destruct (_safe_path base_dir q) as [target|] eqn:Hs; [|done].
    apply safe_path_some in Hs. destruct (String.eqb _ _); [done|].
    confined_case.
  - destruct (_safe_path base_dir q) as [target|] eqn:Hs; [|done].
    apply safe_path_some in Hs.
    destruct (fs_exists fs target); [|done]. confined_case.
  - destruct (_safe_path base_dir q) as [target|] eqn:Hs; [|done].
    apply safe_path_some in Hs.
    destruct (fs_exists fs target && fs_isdir fs target); [|done]. confined_case.
  - destruct (_safe_path base_dir q) as [target|] eqn:Hs; [|done].
    apply safe_path_some in Hs. confined_case.
  - destruct (_safe_path base_dir q) as [target|] eqn:Hs; [|done].
    apply safe_path_some in Hs.
    destruct (fs_exists fs target && fs_isfile fs target); [|done]. confined_case.
  - destruct (_safe_path base_dir q) as [target|] eqn:Hs; [|done].
    apply safe_path_some in Hs.
    destruct (fs_exists fs target && fs_isdir fs target); [|done]. confined_case.
  - destruct (_safe_path base_dir q) as [target|] eqn:Hs; [|done].
    apply safe_path_some in Hs. confined_case.
  - destruct (_safe_path base_dir a) as [src|] eqn:Ha; [|done].
    destruct (_safe_path base_dir b) as [dst|] eqn:Hb; [|done].
    apply safe_path_some in Ha, Hb.
    destruct (fs_isdir fs src); confined_case.
  - destruct (_safe_path base_dir a) as [src|] eqn:Ha; [|done].
    destruct (_safe_path base_dir b) as [dst|] eqn:Hb; [|done].
    apply safe_path_some in Ha, Hb. confined_case.
Qed.

End ConfinedProps.

(** X17.  [ToolProcessor.process_all] over the nine file tags
    (tool_processor.py, lines 41-46 and 87-254).  Whatever the output of
    the agent contains, every path that is handed to [open], [os.listdir],
    [os.unlink], [shutil.rmtree], [copytree], [copy2] or [shutil.move],
    for reading as well as for writing, begins with the base directory, and
    [os.makedirs] is only called on such a path or on the directory name of
    one. *)
Theorem file_calls_stay_in_base (base_dir : string) (fs : Tools.Fs) (output : string) :
  Forall (confined base_dir) (Tools.ops (Tools.process_all base_dir fs output)).
Proof.
  unfold Tools.process_all.
  assert (H : Forall (confined base_dir) (Tools.ops Tools.init_state)) by constructor.
  revert H. generalize Tools.init_state.
  induction (Tools.file_tags output) as [|t ts IH]; intros st Hst; cbn [fold_left]; [done|].
  apply IH. by apply run_tag_confined.
Qed.





(* ===================================================================== *)
(** ** Further properties of the agent node *)
(* ===================================================================== *)

Section AgentProps.
Import Agent.
Variable w : Failover.World.
Variable config : Failover.FailoverConfig.
Variable libs : Validator.Libs.
Variable base_dir : string.
Variable fs : Tools.Fs.
Variable provider : string.
Variable model : string.
Variable task_category : option string.
Variable agreement_rules : list Validator.AgreementRule.

Lemma one_pass_effect st :
  (length (tool_runs (snd (one_pass w config libs base_dir fs provider model task_category agreement_rules st))) <= length (tool_runs st) + 1)%nat
  /\ backoffs (snd (one_pass w config libs base_dir fs provider model task_category agreement_rules st)) = backoffs st
  /\ forall r, fst (one_pass w config libs base_dir fs provider model task_category agreement_rules st) = PReturn r ->
               ok r = true /\ (exists out, output r = Some out) /\ error r = None.
Proof.
  unfold one_pass.
  destruct (Failover.execute_with_failover _ _ _ _ _ _ _) as [answer fst'].
  destruct answer as [[[v p] m]|e]; [|cbn; split; [lia|by split]].
  destruct v as [| | |out|]; try (cbn; split; [lia|by split]).
  destruct (Validator.validate libs _ agreement_rules) as [res|e].
  - destruct (Validator.passed res); cbn; rewrite length_app; cbn; (split; [lia|]); split; try done.
    intros r [= <-]. cbn. split; [done|]. split; [by eexists|done].
  - cbn. rewrite length_app. cbn. split; [lia|by split].
Qed.

Ltac failed_shape :=
  cbn [fst snd ok output error tool_runs backoffs];
  split; [intros [=]|];
  split; [intros _; split; [reflexivity|eexists; reflexivity]|];
  split; lia.

Lemma retry_loop_effect fuel :
  forall current_retry st,
    let r := fst (retry_loop w config libs base_dir fs provider model task_category agreement_rules fuel current_retry st) in
    let st' := snd (retry_loop w config libs base_dir fs provider model task_category agreement_rules fuel current_retry st) in
    (ok r = true -> (exists out, output r = Some out) /\ error r = None)
    /\ (ok r = false -> output r = None /\ exists e, error r = Some e)
    /\ (length (tool_runs st') <= length (tool_runs st) + (max_retries - current_retry))%nat
    /\ (backoffs st' <= backoffs st + (max_retries - current_retry - 1))%nat.
Proof.
  unfold max_retries.
  induction fuel as [|fuel IH]; intros current_retry st; cbn [retry_loop]; unfold max_retries.
  - failed_shape.
  - destruct (Nat.ltb_spec current_retry 3) as [Hlt|Hge]; cbn [negb].
    2:{ failed_shape. }
    destruct (one_pass_effect st) as (Htools & Hback & Hret).
    destruct (one_pass w config libs base_dir fs provider model task_category agreement_rules st) as [[r|failed|e] st1]; cbn [fst snd] in *.
    + destruct (Hret r eq_refl) as (Hok & Hout & Herr).
      split; [done|]. split; [congruence|]. split; lia.
    + destruct (Nat.ltb_spec (S current_retry) 3) as [Hlt'|Hge'].
      * destruct (IH (S current_retry) st1) as (H1 & H2 & H3 & H4).
        split; [done|]. split; [done|]. split; lia.
      * failed_shape.
    + destruct (Nat.leb_spec 3 (S current_retry)) as [Hle|Hgt].
      * failed_shape.
      * destruct (IH (S current_retry)
                     (mkState (failover st1) (tool_runs st1) (S (backoffs st1))))
          as (H1 & H2 & H3 & H4).
        cbn [tool_runs backoffs] in H3, H4.
        split; [done|]. split; [done|]. split; lia.
Qed.

End AgentProps.

(** X19.  [AgentNode.execute] (agent_node.py, lines 46-256).  The
    dictionary it returns either has [ok] true, an output and no error, or
    [ok] false, no output and an error text.  Before it returns, the tools
    of at most three model outputs have been processed, one for each pass of
    the retry loop, and at most two backoff sleeps have been made. *)
Theorem agent_result_shape (w : Failover.World) (config : Failover.FailoverConfig)
        (libs : Validator.Libs) (base_dir : string) (fs : Tools.Fs)
        (provider model : string) (task_category : option string)
        (agreement_rules : list Validator.AgreementRule) (st : Agent.State) :
  let run := Agent.execute w config libs base_dir fs provider model task_category
                           agreement_rules st in
  (Agent.ok (fst run) = true ->
   (exists out, Agent.output (fst run) = Some out) /\ Agent.error (fst run) = None)
  /\ (Agent.ok (fst run) = false ->
      Agent.output (fst run) = None /\ exists e, Agent.error (fst run) = Some e)
  /\ (length (Agent.tool_runs (snd run)) <= length (Agent.tool_runs st) + 3)%nat
  /\ (Agent.backoffs (snd run) <= Agent.backoffs st + 2)%nat.
Proof.
  intros run. subst run. unfold Agent.execute.
  destruct (retry_loop_effect w config libs base_dir fs provider model task_category
              agreement_rules Agent.max_retries 0%nat st) as (H1 & H2 & H3 & H4).
  split; [done|]. split; [done|]. unfold Agent.max_retries in *. split; lia.
Qed.

(* ===================================================================== *)
(** ** Further properties of the engine *)
(* ===================================================================== *)

(** X20.  [WorkflowEngine._calculate_usage] (workflow.py, lines
    1333-1339).  The three estimates are not negative, and [total_tokens]
    is the sum of [input_tokens] and [output_tokens] or one more: it is one
    more exactly when the two remainders of the lengths by four add up to
    four or more. *)
Theorem usage_total_bounds (input_text output_text : string) :
  let u := Usage._calculate_usage input_text output_text in
  0 <= Usage.input_tokens u /\ 0 <= Usage.output_tokens u
  /\ Usage.input_tokens u + Usage.output_tokens u <= Usage.total_tokens u
  /\ Usage.total_tokens u <= Usage.input_tokens u + Usage.output_tokens u + 1
  /\ (Usage.total_tokens u = Usage.input_tokens u + Usage.output_tokens u + 1
      <-> 4 <= Usage.len input_text mod 4 + Usage.len output_text mod 4).
Proof.
  cbn. unfold Usage.len.
  set (a := Z.of_nat (String.length input_text)).
  set (b := Z.of_nat (String.length output_text)).
  assert (Ha : 0 <= a) by (subst a; lia). assert (Hb : 0 <= b) by (subst b; lia).
  clearbody a b.
  pose proof (Z.div_mod a 4 ltac:(lia)). pose proof (Z.div_mod b 4 ltac:(lia)).
  pose proof (Z.div_mod (a + b) 4 ltac:(lia)).
  pose proof (Z.mod_pos_bound a 4 ltac:(lia)). pose proof (Z.mod_pos_bound b 4 ltac:(lia)).
  pose proof (Z.mod_pos_bound (a + b) 4 ltac:(lia)).
  repeat split; try lia.
Qed.

Section StartProps.
Import Engine.

Lemma fold_outputs_reset (ns : list WorkflowNode) (o : Dict.t string) :
  Forall (fun n => output n = None) ns ->
  fold_left (fun o n => if truthy (output n)
                        then Dict.set (id n) (default EmptyString (output n)) o else o) ns o = o.
Proof.
  induction 1 as [|n ns Hn _ IH]; cbn [fold_left]; [done|]. by rewrite Hn.
Qed.

Lemma filter_complete_reset (ns : list WorkflowNode) :
  Forall (fun n => status n = IDLE) ns ->
  List.filter (fun n => status_eqb (status n) COMPLETE) ns = [].
Proof.
  induction 1 as [|n ns Hn _ IH]; cbn [List.filter]; [done|]. by rewrite Hn.
Qed.

Lemma get_map_reset nid (d : Dict.t WorkflowNode) :
  Dict.get nid (map (fun kn : string * WorkflowNode => (fst kn, reset_node (snd kn))) d)
  = option_map reset_node (Dict.get nid d).
Proof.
  induction d as [|[k n] d IH]; cbn; [done|]. by destruct (String.eqb nid k).
Qed.

Lemma idle_successors_spec ns succs :
  forall q q',
    idle_successors ns succs q = Py.Ok q' ->
    forall nid, nid ∈ q' -> nid ∈ q \/ exists n, Dict.get nid ns = Some n /\ status n = IDLE.
Proof.
  induction succs as [|s rest IH]; intros q q'; cbn [idle_successors].
  - intros [= <-] nid Hin. by left.
  - destruct (Dict.get s ns) as [n|] eqn:Hg; [|done]. intros H nid Hin.
    destruct (IH _ _ H nid Hin) as [Hq|Hex]; [|by right].
    destruct (status_eqb (status n) IDLE) eqn:Hs; cbn [andb] in Hq; [|by left].
    destruct (negb (str_in s q)); [|by left].
    apply elem_of_app in Hq as [Hq|Hq]; [by left|].
    apply list_elem_of_singleton in Hq. subst nid. right. exists n. split; [done|].
    by destruct (status n).
Qed.

Lemma dict_get_elem {V} k (v : V) d : Dict.get k d = Some v -> (k, v) ∈ d.
Proof.
  induction d as [|[k' v'] d IH]; cbn; [done|].
  destruct (String.eqb_spec k k') as [->|Hne].
  - intros [= ->]. apply list_elem_of_here.
  - intros H. apply list_elem_of_further. by apply IH.
Qed.

End StartProps.

(** X21.  The start of [WorkflowEngine.execute] with [resume = False]
    (workflow.py, lines 501-534).  A fresh run always starts: the completed
    set is empty, the outputs hold the initial input and nothing else, and
    the queue is what [get_entry_nodes] returns.  Every node keeps its place
    and all of its fields but three: its status is IDLE, its output and
    its error are gone.  In particular [iteration_count] is not reset, so
    what an earlier run of the same workflow object has counted stays
    counted. *)
Theorem fresh_run_state (wf : Engine.Workflow) (input : string) :
  exists st,
    Engine.initial_state wf input false = Py.Ok st
    /\ Engine.completed st = ∅
    /\ Engine.outputs st = [("__input__"%string, input)]
    /\ Engine.queue st = Engine.get_entry_nodes wf
    /\ Dict.keys (Engine.st_nodes st) = Dict.keys (Engine.nodes wf)
    /\ forall nid n,
         Dict.get nid (Engine.nodes wf) = Some n ->
         Dict.get nid (Engine.st_nodes st)
         = Some (Engine.set_error None (Engine.set_output None (Engine.set_status Engine.IDLE n)))
         /\ Engine.iteration_count
              (Engine.set_error None (Engine.set_output None (Engine.set_status Engine.IDLE n)))
            = Engine.iteration_count n.
Proof.
  unfold Engine.initial_state. cbn [negb mbind res_bind Py.bind].
  set (ns := map (fun kn : string * Engine.WorkflowNode => (fst kn, Engine.reset_node (snd kn)))
                 (Engine.nodes wf)).
  assert (Hall : Forall (fun n => Engine.status n = Engine.IDLE /\ Engine.output n = None)
                        (Engine.values ns)).
  { subst ns. unfold Engine.values. rewrite map_map. apply Forall_forall. intros n Hn.
    apply list_elem_of_In, in_map_iff in Hn as [kn [<- _]]. by split. }
  eexists. split; [reflexivity|]. cbn [Engine.completed Engine.outputs Engine.queue Engine.st_nodes].
  split; [|split; [|split; [|split]]].
  - rewrite filter_complete_reset; [done|].
    eapply Forall_impl; [exact Hall|]. by intros n [H _].
  - apply fold_outputs_reset. eapply Forall_impl; [exact Hall|]. by intros n [_ H].
  - done.
  - subst ns. unfold Dict.keys. by rewrite map_map.
  - intros nid n Hg. subst ns. rewrite get_map_reset, Hg. by split.
Qed.

(** X22.  The start of [WorkflowEngine.execute] with [resume = True]
    (workflow.py, lines 509-541).  When a resumed run starts, the nodes are
    as the last run left them, and every identifier in the queue belongs to
    a node that is WAITING_FOR_APPROVAL or IDLE: a node that is FAILED (or
    COMPLETE, RUNNING, PAUSED, ...) is not queued by resuming. *)
Theorem resume_queues_waiting_or_idle (wf : Engine.Workflow) (input : string)
        (st0 : Engine.State) :
  Engine.initial_state wf input true = Py.Ok st0 ->
  Engine.st_nodes st0 = Engine.nodes wf
  /\ Forall (fun nid => exists node,
                 (nid, node) ∈ Engine.nodes wf
                 /\ (Engine.status node = Engine.WAITING_FOR_APPROVAL
                     \/ Engine.status node = Engine.IDLE))
            (Engine.queue st0).
Proof.
  unfold Engine.initial_state. cbn [negb].
  set (done' := list_to_set _).
  assert (Hrq : Forall (fun nid => exists node,
                          (nid, node) ∈ Engine.nodes wf
                          /\ (Engine.status node = Engine.WAITING_FOR_APPROVAL
                              \/ Engine.status node = Engine.IDLE))
                       (Engine.resume_queue (Engine.nodes wf) (Engine.edges wf) done')).
  { unfold Engine.resume_queue. apply Forall_forall. intros nid Hin.
    apply list_elem_of_In, in_flat_map in Hin as ([k n] & Hkn & Hin).
    apply list_elem_of_In in Hkn.
    destruct (Engine.status n) eqn:Hs; cbn in Hin; try done.
    - destruct (Engine.get_predecessors (Engine.edges wf) k); [done|].
      destruct (forallb _ _); [|done]. destruct Hin as [<-|[]].
      exists n. split; [done|]. right. done.
    - destruct Hin as [<-|[]]. exists n. split; [done|]. by left. }
  destruct (Engine.resume_queue (Engine.nodes wf) (Engine.edges wf) done') as [|x q] eqn:Hq.
  - destruct (Engine.idle_successors _ _ []) as [q'|e] eqn:Hi; [|done].
    cbn. intros [= <-]. cbn. split; [done|].
    apply Forall_forall. intros nid Hin.
    destruct (idle_successors_spec _ _ _ _ Hi nid Hin) as [Hnil|(n & Hg & Hs)].
    + by apply elem_of_nil in Hnil.
    + exists n. split; [by apply dict_get_elem|by right].
  - cbn. intros [= <-]. cbn. by split.
Qed.

Section EntryProps.
Import Engine Graph.

Lemma duplicate_or_NoDup (l : list string) :
  NoDup l \/ exists x l1 l2 l3, l = l1 ++ x :: l2 ++ x :: l3.
Proof.
  induction l as [|a l [IH|(x & l1 & l2 & l3 & ->)]].
  - left. constructor.
  - destruct (decide (a ∈ l)) as [Hin|Hnin].
    + right. apply list_elem_of_split in Hin as (l2 & l3 & ->).
      by exists a, [], l2, l3.
    + left. by constructor.
  - right. by exists x, (a :: l1), l2, l3.
Qed.

Lemma chain_tail es a l : chain es (a :: l) -> chain es l.
Proof. destruct l as [|b l]; cbn; [done|]. by intros [_ H]. Qed.

Lemma chain_app_r es l1 l2 : chain es (l1 ++ l2) -> chain es l2.
Proof.
  induction l1 as [|a l1 IH]; [done|]. intros H. apply IH. by apply (chain_tail es a).
Qed.

Lemma chain_path es m : forall a b r, chain es (a :: m ++ b :: r) -> tc (leads es) a b.
Proof.
  induction m as [|c m IH]; intros a b r; cbn [app].
  - cbn. intros [H _]. by apply tc_once.
  - intros H. assert (Hac : leads es a c) by (cbn in H; tauto).
    apply chain_tail in H. eapply tc_l; [exact Hac|]. by apply (IH c b r).
Qed.

Lemma long_chain es (keys : list string) :
  (forall v, v ∈ keys -> exists u, u ∈ keys /\ leads es u v) ->
  forall n v, v ∈ keys ->
    exists l, length l = S n /\ chain es l /\ (forall x, x ∈ l -> x ∈ keys).
Proof.
  intros Hpred n v Hv.
  assert (exists h t, length (h :: t) = S n /\ chain es (h :: t) /\ (forall x, x ∈ h :: t -> x ∈ keys))
    as (h & t & H); [|by exists (h :: t)].
  induction n as [|n (h & t & Hlen & Hch & Hin)].
  - exists v, []. split; [done|]. split; [done|]. intros x Hx.
    apply list_elem_of_singleton in Hx. by subst x.
  - destruct (Hpred h) as (u & Hu & Hl); [apply Hin, list_elem_of_here|].
    exists u, (h :: t). split; [cbn in *; lia|]. split; [by split|].
    intros x Hx. apply elem_of_cons in Hx as [->|Hx]; [done|by apply Hin].
Qed.

Lemma entry_nodes_ready wf nid st :
  nid ∈ get_entry_nodes wf -> ready (edges wf) nid st = true.
Proof.
  unfold get_entry_nodes. intros Hin. apply list_elem_of_In, filter_In in Hin as [_ Hn].
  apply negb_true_iff in Hn. unfold ready, required_predecessors.
  assert (E : List.filter (fun e => String.eqb (target_id e) nid && negb (feedback e)) (edges wf) = []).
  { induction (edges wf) as [|e es IH]; [done|]. cbn [map str_in existsb] in Hn.
    apply orb_false_iff in Hn as [Hne Hrest]. cbn [List.filter].
    rewrite String.eqb_sym, Hne. cbn [andb]. by apply IH. }
  by rewrite E.
Qed.

End EntryProps.

(** X23.  [Workflow.validate] with [get_entry_nodes] and the start of
    [execute] (workflow.py, lines 204-207, 229-260 and 530-534).  A workflow
    that has a node, whose edges all join nodes of the workflow, none of them
    a feedback edge, and that [validate] accepts, has an entry node; so a
    fresh run of it starts with a queue that is not empty, and every node in
    that queue passes the readiness test at once. *)
Theorem accepted_workflow_has_entry (wf : Engine.Workflow) :
  Engine.nodes wf <> [] ->
  edges_closed wf ->
  Forall (fun e => Engine.feedback e = false) (Engine.edges wf) ->
  Graph.validate wf false = Some (Py.Ok true) ->
  Engine.get_entry_nodes wf <> []
  /\ (forall input, exists st,
         Engine.initial_state wf input false = Py.Ok st
         /\ Engine.queue st <> []
         /\ Forall (fun nid => Engine.ready (Engine.edges wf) nid st = true) (Engine.queue st)).
Proof.
  intros Hne Hclosed Hnofb Hval.
  assert (Hacyclic : ~ cyclic wf).
  { destruct (validate_outcome wf) as [[_ H]|(nid & node & u & _ & _ & _ & Heq)]; [done|].
    congruence. }
  assert (Hentry : Engine.get_entry_nodes wf <> []).
  { intros Hnone. apply Hacyclic.
    set (keys := Dict.keys (Engine.nodes wf)).
    assert (Hpred : forall v, v ∈ keys -> exists u, u ∈ keys /\ leads (Engine.edges wf) u v).
    { intros v Hv.
      assert (Htarget : str_in v (map Engine.target_id (Engine.edges wf)) = true).
      { destruct (str_in v (map Engine.target_id (Engine.edges wf))) eqn:E; [done|].
        assert (Hin : In v (Engine.get_entry_nodes wf)).
        { unfold Engine.get_entry_nodes. apply filter_In. split; [by apply list_elem_of_In|].
          by rewrite E. }
        rewrite Hnone in Hin. destruct Hin. }
      apply str_in_elem_of, list_elem_of_In, in_map_iff in Htarget as (e & Het & He).
      pose proof (proj1 (Forall_forall _ _) Hclosed e (proj2 (list_elem_of_In _ _) He)) as [Hs _].
      pose proof (proj1 (Forall_forall _ _) Hnofb e (proj2 (list_elem_of_In _ _) He)) as Hfb.
      exists (Engine.source_id e). split.
      - unfold Dict.mem in Hs. destruct (Dict.get (Engine.source_id e) (Engine.nodes wf)) eqn:Hg; [|done].
        apply dict_get_elem in Hg. subst keys. unfold Dict.keys.
        apply list_elem_of_fmap. by eexists (_, _).
      - unfold leads, Graph.forward. apply list_elem_of_In, in_map_iff. exists e.
        split; [done|]. apply filter_In. split; [done|].
        by rewrite String.eqb_refl, Hfb. }
    assert (Hsome : exists v, v ∈ keys).
    { subst keys. destruct (Engine.nodes wf) as [|[k n] ns]; [done|].
      exists k. cbn. apply list_elem_of_here. }
    destruct Hsome as [v Hv].
    destruct (long_chain (Engine.edges wf) keys Hpred (length keys) v Hv) as (l & Hlen & Hch & Hin).
    destruct (duplicate_or_NoDup l) as [Hnd|(x & l1 & l2 & l3 & ->)].
    - exfalso. assert (Hle : (length l <= length keys)%nat).
      { apply NoDup_incl_length; [by apply NoDup_ListNoDup|].
        intros y Hy. apply list_elem_of_In. apply Hin. by apply list_elem_of_In. }
      lia.
    - exists x, x. split; [|split].
      + apply Hin. apply elem_of_app. right. apply list_elem_of_here.
      + done.
      + apply chain_app_r in Hch. by apply (chain_path _ l2 x x l3). }
  split; [done|]. intros input.
  destruct (fresh_start wf input) as (st & Heq & Hq & _).
  exists st. split; [done|]. split; [by rewrite Hq|].
  rewrite Hq. apply Forall_forall. intros nid Hnid. by apply entry_nodes_ready.
Qed.

(* ===================================================================== *)
(** ** Outputs without tags *)
(* ===================================================================== *)

Section PlainText.

Lemma lower_char_lt b : PyStr.lower_char b = "<"%char -> b = "<"%char.
Proof. destruct b as [[] [] [] [] [] [] [] []]; vm_compute; intros H; congruence. Qed.

Lemma no_match_without_lt r s :
  opens_with_lt r ->
  (forall c s', s = String c s' -> c <> "<"%char) ->
  Re.match_here r s = None.
Proof.
  intros (l & r2 & [-> | ->]) Hs; unfold Re.match_here; cbn [Re.run Re.strip_prefix].
  - destruct s as [|c s']; [done|].
    destruct (Ascii.eqb_spec "<"%char c) as [<-|Hne]; [|done]. by destruct (Hs _ _ eq_refl).
  - destruct s as [|c s']; [done|].
    destruct (Ascii.eqb_spec (PyStr.lower_char "<") (PyStr.lower_char c)) as [E|Hne]; [|done].
    symmetry in E. apply lower_char_lt in E. by destruct (Hs _ _ eq_refl).
Qed.

Lemma contains_lt_cons c s :
  PyStr.contains "<" (String c s) = false -> c <> "<"%char /\ PyStr.contains "<" s = false.
Proof.
  cbn [PyStr.contains PyStr.startswith]. intros H. apply orb_false_iff in H as [H1 H2].
  split; [|done]. intros ->. by rewrite Ascii.eqb_refl in H1.
Qed.

Lemma finditer_without_lt r s :
  opens_with_lt r -> PyStr.contains "<" s = false -> Re.finditer r s = [].
Proof.
  intros Hr. unfold Re.finditer. induction s as [|c s IH]; intros Hs.
  - cbn [Re.finditer_from]. rewrite no_match_without_lt; [done|done|]. intros; discriminate.
  - apply contains_lt_cons in Hs as [Hc Hs]. cbn [Re.finditer_from].
    rewrite no_match_without_lt; [by apply IH|done|]. by intros c' s' [= <- <-].
Qed.

Lemma sub_without_lt r s :
  opens_with_lt r -> PyStr.contains "<" s = false -> Re.sub r s = s.
Proof.
  intros Hr. unfold Re.sub. induction s as [|c s IH]; intros Hs.
  - cbn [Re.sub_from]. rewrite no_match_without_lt; [done|done|]. intros; discriminate.
  - apply contains_lt_cons in Hs as [Hc Hs]. cbn [Re.sub_from].
    rewrite no_match_without_lt; [by rewrite IH|done|]. by intros c' s' [= <- <-].
Qed.

End PlainText.

(** X24.  The tag patterns of [ToolProcessor], of
    [_process_dispatch_tags] and of [_strip_thinking] (tool_processor.py,
    lines 87-254; workflow.py, lines 1187-1228 and 1341-1361).  An output
    in which the character [<] does not occur contains no tag: no file tag is
    found, so [process_all] issues no call and records nothing; no dispatch
    or sleep instruction is found; and [_strip_thinking] returns the text
    with the white space at its ends removed. *)
Theorem plain_text_is_inert (base_dir : string) (fs : Tools.Fs) (text : string) :
  PyStr.contains "<" text = false ->
  Tools.file_tags text = []
  /\ Tools.process_all base_dir fs text = Tools.init_state
  /\ Engine._process_dispatch_tags text = []
  /\ Agent._strip_thinking text = PyStr.strip text.
Proof.
  intros Hplain.
  assert (Hbody : forall tag, Re.finditer (Tools.re_path_body tag) text = []).
  { intros tag. apply finditer_without_lt; [|done]. eexists _, _. left. reflexivity. }
  assert (Honly : forall tag, Re.finditer (Tools.re_path_only tag) text = []).
  { intros tag. apply finditer_without_lt; [|done]. eexists _, _. left. reflexivity. }
  assert (Hto : forall tag, Re.finditer (Tools.re_path_to tag) text = []).
  { intros tag. apply finditer_without_lt; [|done]. eexists _, _. left. reflexivity. }
  assert (Htags : Tools.file_tags text = []).
  { unfold Tools.file_tags. by rewrite !Hbody, !Honly, !Hto. }
  split; [exact Htags|]. split; [|split].
  - unfold Tools.process_all. by rewrite Htags.
  - unfold Engine._process_dispatch_tags. destruct (String.eqb text EmptyString); [done|].
    rewrite !finditer_without_lt; [done|..]; try done; eexists _, _; left; reflexivity.
  - unfold Agent._strip_thinking. destruct (String.eqb_spec text EmptyString) as [->|_]; [done|].
    rewrite sub_without_lt; [done| |done]. eexists _, _. right. reflexivity.
Qed.

Section Durations.

Lemma digit_facts c :
  PyStr.is_digit c = true ->
  PyStr.is_c_space c = false /\ c <> "-"%char /\ c <> "+"%char
  /\ c <> "s"%char /\ c <> "m"%char /\ c <> "h"%char
  /\ 0 <= Z.of_nat (nat_of_ascii c - 48) <= 9.
Proof.
  destruct c as [[] [] [] [] [] [] [] []]; vm_compute; intros H; try discriminate;
    repeat split; congruence.
Qed.

Lemma rev_string_rev s : forall a b,
  PyStr.rev_string (PyStr.rev_string s a) b = PyStr.rev_string a (s +:+ b).
Proof.
  induction s as [|c s IH]; intros a b; cbn [PyStr.rev_string]; [done|].
  by rewrite IH.
Qed.

Lemma string_app_nil_r s : s +:+ EmptyString = s.
Proof.
  induction s as [|c s IH]; [done|].
  change (String c (s +:+ EmptyString) = String c s). by rewrite IH.
Qed.

Lemma all_digits_rev s : forall a,
  all_digits s = true -> all_digits a = true -> all_digits (PyStr.rev_string s a) = true.
Proof.
  induction s as [|c s IH]; intros a Hs Ha; cbn [PyStr.rev_string]; [done|].
  cbn [all_digits] in Hs. apply andb_true_iff in Hs as [Hc Hs].
  apply IH; [done|]. cbn [all_digits]. by rewrite Hc.
Qed.

Lemma c_lstrip_digits s : all_digits s = true -> PyStr.c_lstrip s = s.
Proof.
  destruct s as [|c s]; [done|]. cbn [all_digits PyStr.c_lstrip]. intros H.
  apply andb_true_iff in H as [Hc _]. by destruct (digit_facts c Hc) as [-> _].
Qed.

Lemma c_strip_digits s : all_digits s = true -> PyStr.c_strip s = s.
Proof.
  intros H. unfold PyStr.c_strip. rewrite (c_lstrip_digits s H).
  rewrite c_lstrip_digits by (by apply all_digits_rev).
  by rewrite rev_string_rev, string_app_nil_r.
Qed.

Lemma digits_value_digits s : forall acc b,
  all_digits s = true -> (s <> EmptyString \/ b = true) ->
  PyStr.digits_value s acc b = Some (number_from acc s).
Proof.
  induction s as [|c s IH]; intros acc b Hs Hne; cbn [PyStr.digits_value number_from].
  - destruct Hne as [?| ->]; done.
  - cbn [all_digits] in Hs. apply andb_true_iff in Hs as [Hc Hs]. rewrite Hc.
    apply IH; [done|by right].
Qed.

Lemma int_of_string_digits s :
  s <> EmptyString -> all_digits s = true ->
  PyStr.int_of_string s = Some (number_of s).
Proof.
  intros Hne Hs.
  unfold PyStr.int_of_string, number_of. rewrite (c_strip_digits s Hs).
  rewrite <- (digits_value_digits s 0 false Hs (or_introl Hne)).
  destruct s as [|c r]; [done|]. cbn [all_digits] in Hs.
  apply andb_true_iff in Hs as [Hc _].
  destruct c as [[] [] [] [] [] [] [] []]; vm_compute in Hc;
    first [discriminate Hc | reflexivity].
Qed.

Lemma count_digits_length s :
  all_digits s = true -> PyStr.count_digits s = Z.of_nat (String.length s).
Proof.
  induction s as [|c s IH]; [done|]. cbn [all_digits PyStr.count_digits String.length].
  intros H. apply andb_true_iff in H as [-> Hs]. rewrite IH by done. lia.
Qed.

(** [int] on a string of digits: the number, unless there are more than
    4300 of them. *)
Lemma int_of_digits s :
  s <> EmptyString -> all_digits s = true ->
  ((String.length s <= 4300)%nat -> PyStr.int (Py.VStr s) = Py.Ok (number_of s))
  /\ ((4300 < String.length s)%nat ->
      exists msg, PyStr.int (Py.VStr s) = Py.Raise (Py.mkExn Py.ValueError msg)).
Proof.
  intros Hne Hs. unfold PyStr.int.
  rewrite (int_of_string_digits s Hne Hs), (count_digits_length s Hs).
  unfold PyStr.max_str_digits. split; intros Hlen.
  - destruct (4300 <? Z.of_nat (String.length s)) eqn:E; [|done].
    apply Z.ltb_lt in E. lia.
  - destruct (4300 <? Z.of_nat (String.length s)) eqn:E; [by eexists|].
    apply Z.ltb_ge in E. lia.
Qed.

Lemma number_from_bounds s : forall acc,
  all_digits s = true -> 0 <= acc ->
  acc * 10 ^ Z.of_nat (String.length s) <= number_from acc s
  < (acc + 1) * 10 ^ Z.of_nat (String.length s).
Proof.
  induction s as [|c s IH]; intros acc Hs Hacc; cbn [number_from String.length].
  - change (10 ^ Z.of_nat 0) with 1. lia.
  - cbn [all_digits] in Hs. apply andb_true_iff in Hs as [Hc Hs].
    destruct (digit_facts c Hc) as (_ & _ & _ & _ & _ & _ & Hd).
    specialize (IH (10 * acc + Z.of_nat (nat_of_ascii c - 48)) Hs ltac:(lia)).
    rewrite Nat2Z.inj_succ, Z.pow_succ_r by lia.
    assert (0 < 10 ^ Z.of_nat (String.length s)) by (apply Z.pow_pos_nonneg; lia).
    nia.
Qed.

Lemma number_of_bounds s :
  all_digits s = true -> 0 <= number_of s < 10 ^ Z.of_nat (String.length s).
Proof.
  intros Hs. pose proof (number_from_bounds s 0 Hs ltac:(lia)). unfold number_of. lia.
Qed.

Lemma contains_char_digits x s u :
  (forall c, PyStr.is_digit c = true -> c <> x) ->
  all_digits s = true ->
  PyStr.contains (String x EmptyString) (s +:+ String u EmptyString) = Ascii.eqb x u.
Proof.
  intros Hx. induction s as [|c s IH]; intros Hs.
  - change (EmptyString +:+ String u EmptyString) with (String u EmptyString).
    cbn [PyStr.contains PyStr.startswith]. destruct (Ascii.eqb x u); reflexivity.
  - cbn [all_digits] in Hs. apply andb_true_iff in Hs as [Hc Hs].
    change (String c s +:+ String u EmptyString) with (String c (s +:+ String u EmptyString)).
    cbn [PyStr.contains PyStr.startswith].
    destruct (Ascii.eqb_spec x c) as [->|_]; [by destruct (Hx c Hc)|].
    cbn [orb]. by apply IH.
Qed.

Lemma contains_char_plain x s :
  (forall c, PyStr.is_digit c = true -> c <> x) ->
  all_digits s = true ->
  PyStr.contains (String x EmptyString) s = false.
Proof.
  intros Hx. induction s as [|c s IH]; intros Hs; [done|].
  cbn [all_digits] in Hs. apply andb_true_iff in Hs as [Hc Hs].
  cbn [PyStr.contains PyStr.startswith].
  destruct (Ascii.eqb_spec x c) as [->|_]; [by destruct (Hx c Hc)|].
  cbn [orb]. by apply IH.
Qed.

Lemma remove_unit x s :
  (forall c, PyStr.is_digit c = true -> c <> x) ->
  all_digits s = true ->
  PyStr.remove_char x (s +:+ String x EmptyString) = s.
Proof.
  intros Hx. induction s as [|c s IH]; intros Hs.
  - change (EmptyString +:+ String x EmptyString) with (String x EmptyString).
    cbn [PyStr.remove_char]. by rewrite Ascii.eqb_refl.
  - cbn [all_digits] in Hs. apply andb_true_iff in Hs as [Hc Hs].
    change (String c s +:+ String x EmptyString) with (String c (s +:+ String x EmptyString)).
    cbn [PyStr.remove_char].
    destruct (Ascii.eqb_spec c x) as [->|_]; [by destruct (Hx x Hc)|]. by rewrite IH.
Qed.

(** The seconds of the four forms of a duration, whatever [int] makes of
    the digits. *)
Lemma sleep_seconds_forms d :
  all_digits d = true ->
  Engine.sleep_seconds d = PyStr.int (Py.VStr d)
  /\ Engine.sleep_seconds (d +:+ "s") = PyStr.int (Py.VStr d)
  /\ Engine.sleep_seconds (d +:+ "m") = (z ← PyStr.int (Py.VStr d); Py.Ok (z * 60))
  /\ Engine.sleep_seconds (d +:+ "h") = (z ← PyStr.int (Py.VStr d); Py.Ok (z * 3600)).
Proof.
  intros Hd.
  assert (Hs : forall c, PyStr.is_digit c = true -> c <> "s"%char)
    by (intros c Hc; by destruct (digit_facts c Hc) as (_ & _ & _ & ? & _)).
  assert (Hm : forall c, PyStr.is_digit c = true -> c <> "m"%char)
    by (intros c Hc; by destruct (digit_facts c Hc) as (_ & _ & _ & _ & ? & _)).
  assert (Hh : forall c, PyStr.is_digit c = true -> c <> "h"%char)
    by (intros c Hc; by destruct (digit_facts c Hc) as (_ & _ & _ & _ & _ & ? & _)).
  unfold Engine.sleep_seconds. split; [|split; [|split]].
  - by rewrite !contains_char_plain by done.
  - rewrite (contains_char_digits "s" d "s") by done. cbn [Ascii.eqb Bool.eqb].
    by rewrite remove_unit by done.
  - rewrite (contains_char_digits "s" d "m"), (contains_char_digits "m" d "m") by done.
    cbn [Ascii.eqb Bool.eqb]. by rewrite remove_unit by done.
  - rewrite (contains_char_digits "s" d "h"), (contains_char_digits "m" d "h"),
      (contains_char_digits "h" d "h") by done.
    cbn [Ascii.eqb Bool.eqb]. by rewrite remove_unit by done.
Qed.

(** A sleep of a number of seconds that has a float and whose decimal
    form is within the limit takes place. *)
Lemma sleep_takes_place seconds (st : Engine.State) :
  0 <= seconds < Engine.float_overflow ->
  (_ ← PyStr.format_int seconds; Engine.asyncio_sleep seconds st)
  = Py.Ok (Engine.emit (Engine.EvSleep (inject_Z seconds)) st).
Proof.
  intros [H0 H1]. unfold PyStr.format_int.
  assert (Hlim : Engine.float_overflow < 10 ^ PyStr.max_str_digits) by (vm_compute; reflexivity).
  destruct (10 ^ PyStr.max_str_digits <=? Z.abs seconds) eqn:E; [apply Z.leb_le in E; lia|].
  cbn [mbind res_bind Py.bind]. unfold Engine.asyncio_sleep.
  destruct (seconds <=? 0); [done|].
  destruct (Engine.float_overflow <=? seconds) eqn:E'; [apply Z.leb_le in E'; lia|done].
Qed.

End Durations.

(** X25.  The [sleep] instruction (workflow.py, lines 777-787).  For a
    duration of at most 304 decimal digits, alone or followed by one of the
    letters [s], [m] and [h], the engine sleeps the number of seconds,
    minutes or hours the digits spell: the number itself, itself again, 60
    times and 3600 times the number. *)
Theorem sleep_duration_units (d : string) (st : Engine.State) :
  d <> EmptyString -> all_digits d = true -> (String.length d <= 304)%nat ->
  0 <= number_of d
  /\ Engine.run_instr st (Engine.ISleep d)
     = Py.Ok (Engine.emit (Engine.EvSleep (inject_Z (number_of d))) st)
  /\ Engine.run_instr st (Engine.ISleep (d +:+ "s"))
     = Py.Ok (Engine.emit (Engine.EvSleep (inject_Z (number_of d))) st)
  /\ Engine.run_instr st (Engine.ISleep (d +:+ "m"))
     = Py.Ok (Engine.emit (Engine.EvSleep (inject_Z (number_of d * 60))) st)
  /\ Engine.run_instr st (Engine.ISleep (d +:+ "h"))
     = Py.Ok (Engine.emit (Engine.EvSleep (inject_Z (number_of d * 3600))) st).
Proof.
  intros Hne Hd Hlen.
  destruct (sleep_seconds_forms d Hd) as (E0 & E1 & E2 & E3).
  destruct (int_of_digits d Hne Hd) as [Hint _]. rewrite (Hint ltac:(lia)) in *.
  pose proof (number_of_bounds d Hd) as [Hn0 Hn1].
  assert (Hpow : 10 ^ Z.of_nat (String.length d) <= 10 ^ 304)
    by (apply Z.pow_le_mono_r; lia).
  assert (Hroom : 3600 * 10 ^ 304 < Engine.float_overflow) by (vm_compute; reflexivity).
  split; [done|]. cbn [Engine.run_instr]. rewrite E0, E1, E2, E3.
  cbn [mbind res_bind Py.bind].
  split; [apply sleep_takes_place; lia|]. split; [apply sleep_takes_place; lia|].
  split; apply sleep_takes_place; lia.
Qed.

(** X26.  The [sleep] instruction at its limits (workflow.py, lines
    777-787).  A duration of more than 4300 digits makes [int] raise a
    ValueError, and a duration of at most 4300 digits that spells a number
    without a float, [2^1024 - 2^970] or more, makes [asyncio.sleep] raise
    an OverflowError; either exception leaves the instruction, and no sleep
    takes place. *)
Theorem sleep_duration_limits (d : string) (st : Engine.State) :
  all_digits d = true ->
  ((4300 < String.length d)%nat ->
   exists msg, Engine.run_instr st (Engine.ISleep d)
               = Py.Raise (Py.mkExn Py.ValueError msg))
  /\ ((String.length d <= 4300)%nat -> 2 ^ 1024 - 2 ^ 970 <= number_of d ->
      Engine.run_instr st (Engine.ISleep d)
      = Py.Raise (Py.mkExn Py.OverflowError "int too large to convert to float")).
Proof.
  intros Hd.
  destruct (sleep_seconds_forms d Hd) as (E0 & _).
  cbn [Engine.run_instr]. rewrite E0. split.
  - intros Hlen. assert (Hne : d <> EmptyString) by (intros ->; cbn in Hlen; lia).
    destruct (int_of_digits d Hne Hd) as [_ Hint].
    destruct (Hint Hlen) as [msg ->]. by exists msg.
  - intros Hlen Hbig.
    assert (Hne : d <> EmptyString).
    { intros ->. change (number_of EmptyString) with 0 in Hbig.
      assert (0 < 2 ^ 1024 - 2 ^ 970) by (vm_compute; reflexivity). lia. }
    destruct (int_of_digits d Hne Hd) as [Hint _]. rewrite (Hint Hlen).
    cbn [mbind res_bind Py.bind].
    pose proof (number_of_bounds d Hd) as [Hn0 Hn1].
    assert (Hpow : 10 ^ Z.of_nat (String.length d) <= 10 ^ PyStr.max_str_digits)
      by (apply Z.pow_le_mono_r; unfold PyStr.max_str_digits; lia).
    unfold PyStr.format_int.
    destruct (10 ^ PyStr.max_str_digits <=? Z.abs (number_of d)) eqn:E;
      [apply Z.leb_le in E; lia|].
    cbn [mbind res_bind Py.bind]. unfold Engine.asyncio_sleep.
    assert (Hpos : 0 < 2 ^ 1024 - 2 ^ 970) by (vm_compute; reflexivity).
    destruct (number_of d <=? 0) eqn:E0'; [apply Z.leb_le in E0'; lia|].
    unfold Engine.float_overflow.
    destruct (2 ^ 1024 - 2 ^ 970 <=? number_of d) eqn:E1; [done|].
    apply Z.leb_gt in E1. lia.
Qed.

(* ===================================================================== *)
(** ** The further properties at sample data *)
(* ===================================================================== *)

Lemma edits_keep_edges_closed_witness :
  edges_closed Samples.diamond
  /\ edges_closed (Graph.remove_node "v" Samples.diamond)
  /\ Engine.edges (Graph.remove_node "v" Samples.diamond) = [].
Proof.
  assert (H : edges_closed Samples.diamond) by (repeat constructor).
  split; [exact H|].
  destruct (edits_keep_edges_closed Samples.diamond H) as (_ & _ & Hrm).
  split; [exact (Hrm "v"%string)|reflexivity].
Defined.

Lemma remove_node_erases_witness :
  Dict.get "v" (Engine.nodes (Graph.remove_node "v" Samples.diamond)) = None
  /\ Engine.get_predecessors (Engine.edges (Graph.remove_node "v" Samples.diamond)) "v" = [].
Proof.
  assert (Hnd : NoDup (Dict.keys (Engine.nodes Samples.diamond))).
  { apply NoDup_ListNoDup. repeat constructor; cbn; intuition discriminate. }
  destruct (remove_node_erases Samples.diamond "v" Hnd) as (Hget & _ & Hin & _).
  split; [exact Hget|]. by destruct (Hin eq_refl) as (_ & _ & _ & Hp).
Defined.

Lemma add_then_remove_node_witness :
  Graph.remove_node "b" (Graph.add_node (Samples.node "b" "agent") Samples.single)
  = Samples.single.
Proof.
  destruct (add_then_remove_node Samples.single (Samples.node "b" "agent"))
    as (_ & _ & _ & H); [reflexivity|constructor|exact H].
Defined.

Lemma blocked_queue_never_drains_witness :
  Engine.queue Cases.starved_waiting = ["v"%string]
  /\ Engine.while_queue Samples.a_fails (Engine.edges Samples.starved) "topic" 1000
                        Cases.starved_waiting = Engine.OutOfFuel.
Proof.
  split; [reflexivity|].
  destruct (blocked_queue_never_drains Samples.a_fails (Engine.edges Samples.starved)
              "topic" Cases.starved_waiting) as [_ H].
  - discriminate.
  - constructor; [|constructor]. eexists. split; [reflexivity|]. split; [discriminate|].
    vm_compute. reflexivity.
  - apply H.
Defined.

Lemma success_rate_bounds_witness :
  (0 <= Failover.success_rate Cases.used_health)%Q
  /\ (Failover.success_rate Cases.used_health <= 1)%Q
  /\ ~ (Failover.success_rate Cases.used_health == 1)%Q
  /\ ~ (Failover.success_rate Cases.used_health == 0)%Q.
Proof.
  destruct (success_rate_bounds Cases.used_health) as (H0 & H1 & _ & _ & _ & Hsmall);
    [vm_compute; discriminate..|].
  destruct Hsmall as [Hone Hzero]; [vm_compute; reflexivity|].
  split; [exact H0|]. split; [exact H1|]. split.
  - intros E. apply Hone in E. discriminate E.
  - intros E. apply Hzero in E. destruct E as [E _]. discriminate E.
Defined.

Lemma error_result_reason_known_witness :
  Failover.detect_failure_reason "Error: connection reset" = Failover.API_ERROR.
Proof.
  destruct (error_result_reason_known (Py.VStr "Error: connection reset")
              "Error: connection reset" eq_refl) as [_ H].
  apply H. vm_compute. reflexivity.
Defined.

Lemma failover_switches_to_registered_witness :
  exists new rest,
    Failover.trace (snd (Failover.execute_with_failover Samples.failing_world
                           Failover.default_config "my_provider" "my_model" true None
                           Failover.global_manager))
    = Failover.trace Failover.global_manager ++ new
    /\ Failover.task_calls new = ("my_provider", "my_model")%string :: rest
    /\ Forall (registered Failover.global_manager) rest.
Proof.
  destruct (failover_switches_to_registered Samples.failing_world Failover.default_config
              "my_provider" "my_model" true None Failover.global_manager)
    as (new & Htr & (rest & Hcalls & Hreg) & _); [reflexivity|vm_compute; discriminate|].
  exists new, rest. split; [exact Htr|]. split; [exact Hcalls|exact Hreg].
Defined.

Lemma best_model_is_first_with_provider_witness :
  fst (Tiers.get_best_available_model 1 Tiers.WRITING None Tiers.fresh)
  = Some "google_ai_free:gemini-1.5-pro"%string.
Proof.
  destruct (best_model_is_first_with_provider 1 Tiers.WRITING None Tiers.fresh) as [H _].
  - intros t Hl. vm_compute in Hl. discriminate Hl.
  - right. vm_compute. reflexivity.
  - exact H.
Defined.

Lemma unregistered_tier_answer_stops_failover_witness :
  fst (Failover.execute_with_failover Cases.tiered_world Failover.default_config
         "groq" "llama3-8b-8192" true (Some "Coding"%string) Failover.global_manager)
  = Py.Ok (Py.VStr (Failover.exhausted_message (Some "Error: rate limit exceeded"%string)),
           "groq", "llama3-8b-8192")%string.
Proof.
  destruct (unregistered_tier_answer_stops_failover Cases.tiered_world Failover.default_config
              "groq" "llama3-8b-8192" "Coding" "gpt-oss:120b" "gpt-oss" "120b"
              "Error: rate limit exceeded" true Failover.global_manager) as [H _].
  - reflexivity.
  - vm_compute. discriminate.
  - vm_compute. reflexivity.
  - reflexivity.
  - discriminate.
  - vm_compute. reflexivity.
  - intros k. vm_compute. reflexivity.
  - vm_compute. reflexivity.
  - left. discriminate.
  - vm_compute. reflexivity.
  - vm_compute. reflexivity.
  - exact H.
Defined.

Lemma resume_queues_waiting_or_idle_witness :
  exists st0,
    Engine.initial_state Cases.interrupted "topic" true = Py.Ok st0
    /\ Engine.queue st0 = ["review"%string]
    /\ Forall (fun nid => exists node,
                   (nid, node) ∈ Engine.nodes Cases.interrupted
                   /\ (Engine.status node = Engine.WAITING_FOR_APPROVAL
                       \/ Engine.status node = Engine.IDLE))
              (Engine.queue st0).
Proof.
  destruct (Engine.initial_state Cases.interrupted "topic" true) as [st0|e] eqn:Hst;
    [|vm_compute in Hst; discriminate].
  destruct (resume_queues_waiting_or_idle Cases.interrupted "topic" st0 Hst) as [_ H].
  exists st0. split; [reflexivity|]. split; [|exact H].
  vm_compute in Hst. injection Hst as <-. reflexivity.
Defined.

Lemma accepted_workflow_has_entry_witness :
  Engine.get_entry_nodes Samples.diamond <> [].
Proof.
  destruct (accepted_workflow_has_entry Samples.diamond) as [H _].
  - discriminate.
  - repeat constructor.
  - repeat constructor.
  - vm_compute. reflexivity.
  - exact H.
Defined.

Lemma plain_text_is_inert_witness :
  Tools.process_all "/srv/work" Samples.quiet_fs "3 files were written; nothing else to do"
  = Tools.init_state.
Proof.
  destruct (plain_text_is_inert "/srv/work" Samples.quiet_fs
              "3 files were written; nothing else to do") as (_ & H & _).
  - vm_compute. reflexivity.
  - exact H.
Defined.

Lemma sleep_duration_units_witness :
  Engine.run_instr Samples.diamond_start (Engine.ISleep "15m")
  = Py.Ok (Engine.emit (Engine.EvSleep (inject_Z 900)) Samples.diamond_start).
Proof.
  destruct (sleep_duration_units "15" Samples.diamond_start) as (_ & _ & _ & H & _).
  - discriminate.
  - vm_compute. reflexivity.
  - vm_compute. lia.
  - exact H.
Defined.

Lemma sleep_duration_limits_witness :
  Engine.run_instr Samples.diamond_start (Engine.ISleep (Cases.nines 310))
  = Py.Raise (Py.mkExn Py.OverflowError "int too large to convert to float").
Proof.
  destruct (sleep_duration_limits (Cases.nines 310) Samples.diamond_start) as [_ H].
  - vm_compute. reflexivity.
  - apply H.
    + vm_compute. lia.
    + vm_compute. discriminate.
Defined.
